(** * Submission organiser: matching, placement and conversion

    A shallow embedding of [organize_submissions.py].  A string is a
    sequence of characters with code points below 256, a roster row is
    the dictionary produced by [csv.DictReader] (a finite map from column
    names to cell values), and the file system is a finite map from
    absolute paths (lists of components) to nodes. *)

From Stdlib Require Import String Ascii List ZArith QArith Lia.
From Stdlib Require Import DecimalString DecimalNat.
From stdpp Require Import gmap strings list fin_maps sorting.

(** ** Text utilities *)

Module Text.

Definition code (c : ascii) : nat := nat_of_ascii c.

Definition between (lo hi n : nat) : bool := (lo <=? n) && (n <=? hi).

Definition is_upper (c : ascii) : bool := between 65 90 (code c).

Definition is_lower_alnum (c : ascii) : bool :=
  between 97 122 (code c) || between 48 57 (code c).

(** [[A-Za-z0-9_-]] of [sanitize_folder_part]. *)
Definition is_folder_safe (c : ascii) : bool :=
  between 65 90 (code c) || between 97 122 (code c) || between 48 57 (code c)
  || (code c =? 95) || (code c =? 45).

(** Python's white space ([str.isspace], the class that [str.strip],
    [str.split] and [\s] use) among the code points below 256: the
    controls 9 to 13 and 28 to 31, the space, the next-line control
    U+0085 and the no-break space U+00A0. *)
Definition is_space (c : ascii) : bool :=
  between 9 13 (code c) || between 28 32 (code c)
  || (code c =? 133) || (code c =? 160).

Definition to_lower (c : ascii) : ascii :=
  if is_upper c then ascii_of_nat (code c + 32) else c.

Fixpoint map_chars (f : ascii → ascii) (s : string) : string :=
  match s with
  | EmptyString => EmptyString
  | String c s' => String (f c) (map_chars f s')
  end.

(** [str.lower()] *)
Definition lower : string → string := map_chars to_lower.

(** [re.sub(r"\s+", " ", s)]: every maximal run of white space becomes one
    space; [in_run] tells that the previous character was white space. *)
Fixpoint collapse_ws (in_run : bool) (s : string) : string :=
  match s with
  | EmptyString => EmptyString
  | String c s' =>
      if is_space c
      then (if in_run then collapse_ws true s' else String " " (collapse_ws true s'))
      else String c (collapse_ws false s')
  end.

Fixpoint lstrip (s : string) : string :=
  match s with
  | EmptyString => EmptyString
  | String c s' => if is_space c then lstrip s' else s
  end.

Definition rstrip (s : string) : string := String.rev (lstrip (String.rev s)).

(** [str.strip()] *)
Definition strip (s : string) : string := rstrip (lstrip s).

(** [str.split()]: the maximal runs of characters that are not white space. *)
Fixpoint split_go (cur : string) (s : string) : list string :=
  match s with
  | EmptyString => match cur with EmptyString => [] | _ => [cur] end
  | String c s' =>
      if is_space c
      then match cur with
           | EmptyString => split_go EmptyString s'
           | _ => cur :: split_go EmptyString s'
           end
      else split_go (cur +:+ String c EmptyString) s'
  end.

Definition split : string → list string := split_go EmptyString.

(** [sep.join(parts)] *)
Fixpoint join (sep : string) (parts : list string) : string :=
  match parts with
  | [] => EmptyString
  | [p] => p
  | p :: ps => p +:+ sep +:+ join sep ps
  end.

(** [s or ""] *)
Definition or_empty (s : option string) : string := default EmptyString s.

(** Truth value of a Python [str] or [None]. *)
Definition truthy (s : option string) : bool :=
  match s with
  | Some (String _ _) => true
  | _ => false
  end.

Definition nonempty (s : string) : bool :=
  match s with EmptyString => false | _ => true end.

Definition normalize_text (s : option string) : string :=
  let s := lower (or_empty s) in
  let s := map_chars (λ c, if is_lower_alnum c then c else " "%char) s in
  strip (collapse_ws false s).

Definition tokens_from_name_field (field : option string) : list string :=
  filter (λ t, nonempty t = true) (split (normalize_text field)).

Definition sanitize_folder_part (s : option string) : string :=
  let s := strip (or_empty s) in
  let s := map_chars (λ c, if is_folder_safe c then c else "_"%char) s in
  if nonempty s then s else "unknown".

Definition starts_with (p s : string) : bool := String.prefix p s.

Definition ends_with (suffix s : string) : bool :=
  String.prefix (String.rev suffix) (String.rev s).

(** [str(i)] for a natural number. *)
Definition decimal (i : nat) : string := NilEmpty.string_of_uint (Nat.to_uint i).

End Text.

Export Text.

(** ** Matching a file name against the roster *)

Module Matcher.

(** A roster row: the [dict] that [csv.DictReader] yields; a column that is
    missing or holds [None] has no binding. *)
Abbreviation Row := (gmap string string).

(** The method tag.  [fuzzy r] stands for the string
    [f"fuzzy({r:.2f})"]; the tag keeps the ratio itself. *)
Inductive method :=
| token
| fuzzy (ratio : Q).

(** [list(dict.fromkeys(tokens))]: the first occurrence of every token, in
    the order of first occurrence. *)
Definition dict_fromkeys (tokens : list string) : list string :=
  foldl (λ keys t, if bool_decide (t ∈ keys) then keys else keys ++ [t]) [] tokens.

Definition name_fields : list string := ["surname"; "first_name"; "middle_name"].

(** [load_csv_rows], on the rows the reader yields: a row without a truthy
    ["index"] gets its position (from 1) under ["_csv_index"]. *)
Fixpoint load_csv_rows_from (idx : nat) (reader : list Row) : list Row :=
  match reader with
  | [] => []
  | row :: rest =>
      (if truthy (row !! "index") then row
       else <["_csv_index" := decimal idx]> row)
      :: load_csv_rows_from (S idx) rest
  end.

Definition load_csv_rows (reader : list Row) : list Row := load_csv_rows_from 1 reader.

Definition count_token_matches (filename_tokens : gset string) (row : Row) : nat :=
  let tokens :=
    foldl (λ tokens field,
             if truthy (row !! field)
             then tokens ++ tokens_from_name_field (row !! field)
             else tokens)
          [] name_fields in
  let tokens := dict_fromkeys tokens in
  foldl (λ match_count t,
           if nonempty t && bool_decide (t ∈ filename_tokens)
           then S match_count else match_count)
        0 tokens.

(** The loop of phase 1, on the pair [(best_token_match, best_token_count)]. *)
Definition token_step (fname_tokens : gset string)
    (best : option Row * nat) (row : Row) : option Row * nat :=
  let cnt := count_token_matches fname_tokens row in
  if best.2 <? cnt then (Some row, cnt) else best.

(** The two variants of a row in phase 2: [full] and [rev]. *)
Definition name_parts (row : Row) : list string :=
  foldl (λ parts field,
           let val := strip (or_empty (row !! field)) in
           if nonempty val then parts ++ [val] else parts)
        [] name_fields.

Definition full_name (row : Row) : string :=
  normalize_text (Some (join " " (name_parts row))).

Definition rev_name (row : Row) : string :=
  let full := full_name row in
  if nonempty full then join " " (reverse (split full)) else "".

Definition variants (row : Row) : list string := [full_name row; rev_name row].

Section WithRatio.

(** [difflib.SequenceMatcher(None, a, b).ratio()], a value [2*M/T] kept
    as the exact rational. *)
Variable fuzzy_ratio : string → string → Q.

(** The loops of phase 2, on the pair [(best_ratio, best_row)]. *)
Definition variant_step (norm_fname : string) (row : Row)
    (best : Q * option Row) (variant : string) : Q * option Row :=
  if nonempty variant then
    let r := fuzzy_ratio norm_fname variant in
    if negb (Qle_bool r best.1) then (r, Some row) else best
  else best.

Definition fuzzy_step (norm_fname : string)
    (best : Q * option Row) (row : Row) : Q * option Row :=
  foldl (variant_step norm_fname row) best (variants row).

Definition find_best_row_for_filename (filename : string) (rows : list Row)
    (min_token_matches : Z) (fuzzy_threshold : Q) : option Row * option method :=
  let norm_fname := normalize_text (Some filename) in
  let fname_tokens : gset string := list_to_set (split norm_fname) in
  let '(best_token_match, best_token_count) :=
    foldl (token_step fname_tokens) (None, 0) rows in
  if (min_token_matches <=? Z.of_nat best_token_count)%Z
  then (best_token_match, Some token)
  else
    let '(best_ratio, best_row) := foldl (fuzzy_step norm_fname) (0%Q, None) rows in
    if Qle_bool fuzzy_threshold best_ratio
    then (best_row, Some (fuzzy best_ratio))
    else (None, None).

End WithRatio.

End Matcher.

Export Matcher.

(** ** The file system *)

Module FileSystem.

(** An absolute path, as the list of its components; [[]] is the root. *)
Abbreviation path := (list string).

Inductive node :=
| File (data : string)
| Dir.

#[global] Instance node_eq_dec : EqDecision node.
Proof. solve_decision. Defined.

Abbreviation FS := (gmap path node).

(** [os.path.exists], [os.path.isfile], [os.path.isdir] *)
Definition exists_ (fs : FS) (p : path) : bool := bool_decide (is_Some (fs !! p)).

Definition isfile (fs : FS) (p : path) : bool :=
  match fs !! p with Some (File _) => true | _ => false end.

Definition isdir (fs : FS) (p : path) : bool :=
  match fs !! p with Some Dir => true | _ => false end.

(** The name of [p] inside [root], when [p] is an entry of [root]. *)
Definition child_name (root p : path) : option string :=
  match drop (length root) p with
  | [name] => if bool_decide (take (length root) p = root) then Some name else None
  | _ => None
  end.

(** [os.scandir(root)]: the entries of a directory, in the order in which
    the system enumerates them. *)
Definition scandir (fs : FS) (root : path) : list (string * node) :=
  omap (λ e : path * node, (λ name, (name, e.2)) <$> child_name root e.1) (map_to_list fs).

Definition is_dir_entry (e : string * node) : bool :=
  match e.2 with Dir => true | File _ => false end.

Definition subdirs (fs : FS) (root : path) : list string :=
  (filter (λ e, is_dir_entry e = true) (scandir fs root)).*1.

Definition nondirs (fs : FS) (root : path) : list string :=
  (filter (λ e, is_dir_entry e = false) (scandir fs root)).*1.

(** The order in which a walk reaches directories: by depth. *)
Definition shorter (p q : path) : Prop := length p ≤ length q.

#[global] Instance shorter_dec : RelDecision shorter.
Proof. intros p q. unfold shorter. apply _. Defined.

Definition below (fs : FS) (top p : path) : Prop :=
  isdir fs p = true ∧ top `prefix_of` p ∧ p ≠ top.

#[global] Instance below_dec fs top p : Decision (below fs top p).
Proof. unfold below. apply _. Defined.

Definition dirs_below (fs : FS) (top : path) : list path :=
  merge_sort shorter (filter (below fs top) (map_to_list fs).*1).

(** [os.walk(top)]: one triple [(root, dirs, files)] for [top] and for
    every directory below it, parents before their children.  The loops
    that consume the walk only add or remove entries in directories that
    the walk has listed already, so the triples are those of the state in
    which the walk starts.  Nothing is yielded when [top] is no directory. *)
Definition os_walk (fs : FS) (top : path) : list (path * list string * list string) :=
  if isdir fs top
  then (λ root, (root, subdirs fs root, nondirs fs root)) <$> (top :: dirs_below fs top)
  else [].

(** [os.walk(top, topdown=False)]: the same triples, children first. *)
Definition os_walk_bottomup (fs : FS) (top : path) : list (path * list string * list string) :=
  reverse (os_walk fs top).

(** [sorted(os.listdir(d))]; [None] when [d] is no directory. *)
Definition sorted_listdir (fs : FS) (d : path) : option (list string) :=
  if isdir fs d then Some (merge_sort String.le (scandir fs d).*1) else None.

(** *** Path strings *)

(** [s.split("/")] *)
Fixpoint split_sep_go (cur : string) (s : string) : list string :=
  match s with
  | EmptyString => [cur]
  | String c s' =>
      if Ascii.eqb c "/" then cur :: split_sep_go EmptyString s'
      else split_sep_go (cur +:+ String c EmptyString) s'
  end.

Definition split_sep : string → list string := split_sep_go EmptyString.

Definition is_special_part (c : string) : bool :=
  bool_decide (c = "") || bool_decide (c = ".") || bool_decide (c = "..").

(** [os.path.join(a, b)] for two path strings. *)
Definition path_join (a b : string) : string :=
  if starts_with "/" b then b else a +:+ "/" +:+ b.

(** [os.path.splitext] on a file name: the extension starts at the last
    dot, unless only dots precede it. *)
Fixpoint rfind_dot (s : string) : option nat :=
  match s with
  | EmptyString => None
  | String c s' =>
      match rfind_dot s' with
      | Some k => Some (S k)
      | None => if Ascii.eqb c "." then Some 0 else None
      end
  end.

Fixpoint all_dots (s : string) : bool :=
  match s with
  | EmptyString => true
  | String c s' => Ascii.eqb c "." && all_dots s'
  end.

Definition splitext (f : string) : string * string :=
  match rfind_dot f with
  | Some k =>
      let stem := String.substring 0 k f in
      if all_dots stem then (f, "")
      else (stem, String.substring k (String.length f - k) f)
  | None => (f, "")
  end.

(** Python exceptions that the modelled operations raise. *)
Inductive exn :=
| FileExistsError
| FileNotFoundError
| NotADirectoryError
| IsADirectoryError.

Inductive result (A : Type) :=
| Ok (a : A)
| Raised (e : exn)
| OutOfFuel.

Arguments Ok {A} a.
Arguments Raised {A} e.
Arguments OutOfFuel {A}.

Definition bind {A B} (r : result A) (k : A → result B) : result B :=
  match r with
  | Ok a => k a
  | Raised e => Raised e
  | OutOfFuel => OutOfFuel
  end.

(** [os.makedirs(name, exist_ok=True)], walking the components of [name]
    from the directory [cur]: a missing directory is created, [..] steps
    to the parent, and a regular file in the way raises.  Returns the
    directory reached. *)
Fixpoint makedirs_walk (cur : path) (comps : list string) (fs : FS) : result (FS * path) :=
  match comps with
  | [] => Ok (fs, cur)
  | c :: rest =>
      if bool_decide (c = "") || bool_decide (c = ".") then makedirs_walk cur rest fs
      else if bool_decide (c = "..") then makedirs_walk (removelast cur) rest fs
      else
        let next := cur ++ [c] in
        match fs !! next with
        | Some Dir => makedirs_walk next rest fs
        | Some (File _) =>
            Raised (match rest with [] => FileExistsError | _ => NotADirectoryError end)
        | None => makedirs_walk next rest (<[next := Dir]> fs)
        end
  end.

(** [os.makedirs(p, exist_ok=True)] for a path string, relative to [cwd]
    unless it starts with a separator. *)
Definition makedirs_str (cwd : path) (name : string) (fs : FS) : result (FS * path) :=
  makedirs_walk (if starts_with "/" name then [] else cwd) (split_sep name) fs.

(** [os.makedirs(name, exist_ok=True)] for a path already resolved: nothing
    happens when it is a directory (the [mkdir] fails and the error is
    dropped); otherwise, on the components in reverse, the head is made
    first when it does not exist, then the directory itself. *)
Fixpoint makedirs_rev (rname : list string) (fs : FS) : result FS :=
  match rname with
  | [] => Ok fs
  | _ :: rhead =>
      let name := reverse rname in
      let head := reverse rhead in
      bind (if bool_decide (rhead = []) || exists_ fs head then Ok fs
            else makedirs_rev rhead fs)
           (λ fs1,
              match fs1 !! name with
              | Some Dir => Ok fs1
              | Some (File _) => Raised FileExistsError
              | None =>
                  if bool_decide (rhead = []) || isdir fs1 head
                  then Ok (<[name := Dir]> fs1)
                  else Raised NotADirectoryError
              end)
  end.

Definition makedirs (p : path) (fs : FS) : result FS :=
  if isdir fs p then Ok fs else makedirs_rev (reverse p) fs.

(** A loop whose body may raise. *)
Fixpoint fold_result {A S : Type} (f : S → A → result S) (s : S) (l : list A) : result S :=
  match l with
  | [] => Ok s
  | a :: l' => bind (f s a) (λ s', fold_result f s' l')
  end.

(** The collision loops: the first [i], counting from [i], for which
    [dirpath/base_i ext] does not exist. *)
Definition suffixed (base ext : string) (i : nat) : string :=
  base +:+ "_" +:+ decimal i +:+ ext.

Fixpoint probe (fuel : nat) (fs : FS) (dirpath : path) (base ext : string) (i : nat)
  : result path :=
  match fuel with
  | 0 => OutOfFuel
  | S fuel' =>
      let candidate := dirpath ++ [suffixed base ext i] in
      if exists_ fs candidate then probe fuel' fs dirpath base ext (S i)
      else Ok candidate
  end.

(** More candidates than the file system has entries. *)
Definition probe_fuel (fs : FS) : nat := S (size fs).

Definition basename (p : path) : string := List.last p "".
Definition dirname (p : path) : path := removelast p.

(** [shutil.copy2(src, dst)], [dst] being free or a regular file. *)
Definition copy2 (src dst : path) (fs : FS) : result FS :=
  match fs !! src with
  | Some (File data) =>
      match fs !! dst with
      | Some Dir => Raised IsADirectoryError
      | _ => if isdir fs (dirname dst) then Ok (<[dst := File data]> fs)
             else Raised FileNotFoundError
      end
  | Some Dir => Raised IsADirectoryError
  | None => Raised FileNotFoundError
  end.

(** [shutil.move(src, dst)] of a listed file to a free name in an
    existing directory: a rename. *)
Definition move (src dst : path) (fs : FS) : FS :=
  match fs !! src with
  | Some n => <[dst := n]> (delete src fs)
  | None => fs
  end.

Definition safe_copy (src dst : path) (fs : FS) : result (FS * path) :=
  let '(base, ext) := splitext (basename dst) in
  let dirpath := dirname dst in
  bind (if exists_ fs dst then probe (probe_fuel fs) fs dirpath base ext 1 else Ok dst)
       (λ candidate, bind (copy2 src candidate fs) (λ fs', Ok (fs', candidate))).

Definition safe_move (src dst : path) (fs : FS) : result (FS * path) :=
  let '(base, ext) := splitext (basename dst) in
  let dirpath := dirname dst in
  bind (if exists_ fs dst then probe (probe_fuel fs) fs dirpath base ext 1 else Ok dst)
       (λ candidate,
          match fs !! src with
          | Some _ => Ok (move src candidate fs, candidate)
          | None => Raised FileNotFoundError
          end).

(** [os.rmdir] inside [try ... except OSError: pass]: only an empty
    directory goes. *)
Definition try_rmdir (p : path) (fs : FS) : FS :=
  if isdir fs p && bool_decide (scandir fs p = []) then delete p fs else fs.

End FileSystem.

Export FileSystem.

(** ** Extraction, placement and conversion *)

Module Organizer.

Definition INPUT_DIR : string := "submissions".
Definition OUTPUT_DIR : string := "organized_submissions".

(** The [stats] dictionary. *)
Record Stats := mkStats {
  files_seen : nat;
  matched : nat;
  unmatched : nat;
  converted : nat;
  convert_failed : nat;
  skipped_existing_file : nat
}.

Definition no_stats : Stats := mkStats 0 0 0 0 0 0.

(** What the program prints. *)
Inductive message :=
| NoGoodMatch (fname : string)
| AlreadyPresent (fname : string)
| Processed (fname folder_name : string) (how : option method)
| ZipError (archive_path : path)
| RarUnavailable (archive_path : path)
| RarNoUnrar (archive_path : path)
| RarError (archive_path : path)
| LibreOfficeMissing
| ConvertFailed (docx_path : path)
| Summary (stats : Stats).

(** What an observer sees: a printed line, or the converter being run on a
    document, with the file system it was started in. *)
Inductive event :=
| Print (m : message)
| Exec (docx_path out_dir : path) (before : FS).

Record World := mkWorld {
  fs : FS;
  log : list event
}.

Definition say (m : message) (w : World) : World :=
  mkWorld (fs w) (log w ++ [Print m]).

Definition with_fs (w : World) (fs' : FS) : World := mkWorld fs' (log w).

(** An archive member: its name inside the archive and its content. A
    name that ends with a separator is a directory. *)
Definition member : Type := string * string.

Inductive rar_result :=
| RarCannotExec
| RarMembers (members : list member) (fails : bool).

Inductive soffice_result :=
| ExitError
| Exit0 (pdf : option string).

(** The collaborators outside the program. *)
Record Env := mkEnv {
  (** the working directory *)
  cwd : path;
  (** [difflib.SequenceMatcher(None, a, b).ratio()] *)
  fuzzy_ratio : string → string → Q;
  (** what [zipfile] reads in an archive: the members [extractall] gets to
      write, and whether it raises after them *)
  zip_read : string → list member * bool;
  RARFILE_AVAILABLE : bool;
  rar_read : string → rar_result;
  (** [shutil.which("libreoffice")] finds the program *)
  libreoffice_in_path : bool;
  (** the run of LibreOffice on a document, with the directory to write to:
      a non-zero exit, or exit 0 with the PDF it produced, if any *)
  soffice : path → path → FS → soffice_result
}.

(** *** Archives *)

(** One member written by [extractall]: the parts [""], ["."] and [".."]
    of its name are dropped, missing directories above it are created, a
    regular file is overwritten; [None] when the library raises. *)
Definition extract_member (extract_to : path) (m : member) (fs : FS) : option FS :=
  let comps := filter (λ c, is_special_part c = false) (split_sep m.1) in
  let targetpath := extract_to ++ comps in
  let upperdirs := dirname targetpath in
  let made :=
    if exists_ fs upperdirs then Some fs
    else match makedirs upperdirs fs with Ok fs' => Some fs' | _ => None end in
  match made with
  | None => None
  | Some fs1 =>
      if ends_with "/" m.1
      then (if isdir fs1 targetpath then Some fs1
            else if exists_ fs1 targetpath || negb (isdir fs1 upperdirs) then None
            else Some (<[targetpath := Dir]> fs1))
      else match fs1 !! targetpath with
           | Some Dir => None
           | _ => if isdir fs1 upperdirs then Some (<[targetpath := File m.2]> fs1)
                  else None
           end
  end.

(** [extractall(extract_to)]: the state reached, and whether every member
    was written. *)
Fixpoint extractall (extract_to : path) (members : list member) (fs : FS) : FS * bool :=
  match members with
  | [] => (fs, true)
  | m :: rest =>
      match extract_member extract_to m fs with
      | Some fs' => extractall extract_to rest fs'
      | None => (fs, false)
      end
  end.

Definition read_file (fs : FS) (p : path) : option string :=
  match fs !! p with Some (File data) => Some data | _ => None end.

(** The body of the flattening loop for one listed file. *)
Definition flatten_file (extract_to root : path) (fs : FS) (f : string) : result FS :=
  let src := root ++ [f] in
  let dst := extract_to ++ [f] in
  if bool_decide (src ≠ dst) then
    bind (if exists_ fs dst
          then let '(base, ext) := splitext f in
               probe (probe_fuel fs) fs extract_to base ext 1
          else Ok dst)
         (λ dst, Ok (move src dst fs))
  else Ok fs.

Definition flatten_pass (extract_to : path) (fs : FS) : result FS :=
  fold_result
    (λ fs (t : path * list string * list string),
       fold_result (flatten_file extract_to t.1.1) fs t.2)
    fs (os_walk fs extract_to).

Definition rmdir_pass (extract_to : path) (fs : FS) : FS :=
  foldl
    (λ fs (t : path * list string * list string),
       foldl (λ fs d, try_rmdir (t.1.1 ++ [d]) fs) fs t.1.2)
    fs (os_walk_bottomup fs extract_to).

Definition flatten (extract_to : path) (w : World) : result World :=
  bind (flatten_pass extract_to (fs w))
       (λ fs1, Ok (with_fs w (rmdir_pass extract_to fs1))).

Definition extract_and_flatten_archive (env : Env) (archive_path extract_to : path)
    (w : World) : result World :=
  bind (makedirs extract_to (fs w)) (λ fs0,
  let w := with_fs w fs0 in
  let name := lower (basename archive_path) in
  if ends_with ".zip" name then
    match read_file (fs w) archive_path with
    | None => flatten extract_to (say (ZipError archive_path) w)
    | Some data =>
        let '(members, corrupt) := zip_read env data in
        let '(fs1, written) := extractall extract_to members (fs w) in
        let w := with_fs w fs1 in
        flatten extract_to
          (if written && negb corrupt then w else say (ZipError archive_path) w)
    end
  else if ends_with ".rar" name then
    if negb (RARFILE_AVAILABLE env) then Ok (say (RarUnavailable archive_path) w)
    else
      match read_file (fs w) archive_path with
      | None => Ok (say (RarError archive_path) w)
      | Some data =>
          match rar_read env data with
          | RarCannotExec => Ok (say (RarNoUnrar archive_path) w)
          | RarMembers members corrupt =>
              let '(fs1, written) := extractall extract_to members (fs w) in
              let w := with_fs w fs1 in
              if written && negb corrupt then flatten extract_to w
              else Ok (say (RarError archive_path) w)
          end
      end
  else flatten extract_to w).

(** *** Conversion *)

Definition pdf_name (f : string) : string := (splitext f).1 +:+ ".pdf".

Definition libreoffice_convert_docx_to_pdf (env : Env) (docx_path out_dir : path)
    (w : World) : World * option path :=
  if negb (libreoffice_in_path env) then (say LibreOfficeMissing w, None)
  else
    let started := mkWorld (fs w) (log w ++ [Exec docx_path out_dir (fs w)]) in
    match soffice env docx_path out_dir (fs w) with
    | ExitError => (say (ConvertFailed docx_path) started, None)
    | Exit0 out =>
        let pdf_path := out_dir ++ [pdf_name (basename docx_path)] in
        let fs' :=
          match out, fs w !! pdf_path with
          | Some pdf, Some Dir => fs w
          | Some pdf, _ => <[pdf_path := File pdf]> (fs w)
          | None, _ => fs w
          end in
        (with_fs started fs', if exists_ fs' pdf_path then Some pdf_path else None)
    end.

Definition bump_converted (s : Stats) : Stats :=
  mkStats (files_seen s) (matched s) (unmatched s) (S (converted s))
          (convert_failed s) (skipped_existing_file s).

Definition bump_convert_failed (s : Stats) : Stats :=
  mkStats (files_seen s) (matched s) (unmatched s) (converted s)
          (S (convert_failed s)) (skipped_existing_file s).

Definition bump_files_seen (s : Stats) : Stats :=
  mkStats (S (files_seen s)) (matched s) (unmatched s) (converted s)
          (convert_failed s) (skipped_existing_file s).

Definition bump_matched (s : Stats) : Stats :=
  mkStats (files_seen s) (S (matched s)) (unmatched s) (converted s)
          (convert_failed s) (skipped_existing_file s).

Definition bump_unmatched (s : Stats) : Stats :=
  mkStats (files_seen s) (matched s) (S (unmatched s)) (converted s)
          (convert_failed s) (skipped_existing_file s).

Definition bump_skipped (s : Stats) : Stats :=
  mkStats (files_seen s) (matched s) (unmatched s) (converted s)
          (convert_failed s) (S (skipped_existing_file s)).

(** The body of the conversion loop for one listed file of [root]. *)
Definition convert_file (env : Env) (root : path) (st : World * Stats) (f : string)
  : World * Stats :=
  if ends_with ".docx" (lower f) then
    let docx_full := root ++ [f] in
    let pdf_expected := root ++ [pdf_name f] in
    if exists_ (fs st.1) pdf_expected then st
    else
      let '(w, pdf_path) := libreoffice_convert_docx_to_pdf env docx_full root st.1 in
      match pdf_path with
      | Some _ => (w, bump_converted st.2)
      | None => (w, bump_convert_failed st.2)
      end
  else st.

Definition conversion_pass (env : Env) (target_folder : path) (st : World * Stats)
  : World * Stats :=
  foldl
    (λ st (t : path * list string * list string), foldl (convert_file env t.1.1) st t.2)
    st (os_walk (fs st.1) target_folder).

(** *** The run *)

Definition input_dir (env : Env) : path := cwd env ++ [INPUT_DIR].

(** [matched_row.get("index") or matched_row.get("_csv_index") or ""] *)
Definition row_index (row : Row) : string :=
  if truthy (row !! "index") then or_empty (row !! "index")
  else if truthy (row !! "_csv_index") then or_empty (row !! "_csv_index")
  else "".

Definition folder_name_of (row : Row) : string :=
  row_index row +:+ "_" +:+ sanitize_folder_part (row !! "surname")
  +:+ "_" +:+ sanitize_folder_part (row !! "first_name").

Definition is_archive_name (fname : string) : bool :=
  ends_with ".zip" (lower fname) || ends_with ".rar" (lower fname).

(** The thresholds of the call in [organize_and_convert]: 2 and 0.60. *)
Definition MIN_TOKEN_MATCHES : Z := 2.
Definition FUZZY_THRESHOLD : Q := 6 # 10.

(** Step 4 of the loop body: the file goes into the target folder unless
    its name is there already. *)
Definition place (env : Env) (fname : string) (input_path target_folder : path)
    (st : World * Stats) : result (World * Stats) :=
  let dest_path := target_folder ++ [fname] in
  if exists_ (fs st.1) dest_path
  then Ok (say (AlreadyPresent fname) st.1, bump_skipped st.2)
  else if is_archive_name fname
  then bind (extract_and_flatten_archive env input_path target_folder st.1)
            (λ w', Ok (w', st.2))
  else bind (safe_copy input_path dest_path (fs st.1))
            (λ r, Ok (with_fs st.1 r.1, st.2)).

(** The loop body for a file that has a match. *)
Definition process_matched (env : Env) (fname : string) (row : Row) (how : option method)
    (st : World * Stats) : result (World * Stats) :=
  let input_path := input_dir env ++ [fname] in
  let folder_name := folder_name_of row in
  bind (makedirs_str (cwd env) (path_join OUTPUT_DIR folder_name) (fs st.1))
    (λ made,
       let target_folder := made.2 in
       bind (place env fname input_path target_folder (with_fs st.1 made.1, st.2))
         (λ st,
            let st := conversion_pass env target_folder st in
            Ok (say (Processed fname folder_name how) st.1, bump_matched st.2))).

(** The body of the loop over the input directory. *)
Definition process_file (env : Env) (rows : list Row) (st : World * Stats)
    (fname : string) : result (World * Stats) :=
  if starts_with "." fname then Ok st
  else
    let st := (st.1, bump_files_seen st.2) in
    let input_path := input_dir env ++ [fname] in
    if negb (isfile (fs st.1) input_path) then Ok st
    else
      let '(matched_row, how) :=
        find_best_row_for_filename (fuzzy_ratio env) fname rows
          MIN_TOKEN_MATCHES FUZZY_THRESHOLD in
      match matched_row with
      | None => Ok (say (NoGoodMatch fname) st.1, bump_unmatched st.2)
      | Some row =>
          if bool_decide (row = ∅)
          then Ok (say (NoGoodMatch fname) st.1, bump_unmatched st.2)
          else process_matched env fname row how st
      end.

(** [organize_and_convert], given the rows that [csv.DictReader] yields for
    the roster file. *)
Definition organize_and_convert (env : Env) (reader : list Row) (w : World)
  : result (World * Stats) :=
  let rows := load_csv_rows reader in
  bind (makedirs_str (cwd env) OUTPUT_DIR (fs w)) (λ made,
  let w := with_fs w made.1 in
  match sorted_listdir (fs w) (input_dir env) with
  | None => Raised FileNotFoundError
  | Some names =>
      bind (fold_result (process_file env rows) (w, no_stats) names)
           (λ st, Ok (say (Summary st.2) st.1, st.2))
  end).

End Organizer.

Export Organizer.

(** ** The similarity ratio of [difflib]

    [SequenceMatcher(None, a, b).ratio()] for sequences without junk (the
    automatic junk heuristic needs a second sequence of 200 elements or
    more): the longest common block, the earliest in [a] and then in [b]
    among the longest, then the same on both sides of it. *)

Module Difflib.

Fixpoint common_prefix (a b : list ascii) : nat :=
  match a, b with
  | x :: a', y :: b' => if Ascii.eqb x y then S (common_prefix a' b') else 0
  | _, _ => 0
  end.

(** The best block [(i, j, k)] among those that start at [i] in [a]. *)
Fixpoint best_in_b (a b : list ascii) (i j : nat) (best : nat * nat * nat)
  : nat * nat * nat :=
  match b with
  | [] => best
  | _ :: b' =>
      let k := common_prefix a b in
      best_in_b a b' i (S j) (if best.2 <? k then (i, j, k) else best)
  end.

Fixpoint best_block (a b : list ascii) (i : nat) (best : nat * nat * nat)
  : nat * nat * nat :=
  match a with
  | [] => best
  | _ :: a' => best_block a' b (S i) (best_in_b a b i 0 best)
  end.

Definition find_longest_match (a b : list ascii) : nat * nat * nat :=
  best_block a b 0 (0, 0, 0).

Fixpoint matches (fuel : nat) (a b : list ascii) : nat :=
  match fuel with
  | 0 => 0
  | S fuel' =>
      let '(i, j, k) := find_longest_match a b in
      if k =? 0 then 0
      else k + matches fuel' (take i a) (take j b)
             + matches fuel' (drop (i + k) a) (drop (j + k) b)
  end.

Definition ratio (a b : string) : Q :=
  let la := list_ascii_of_string a in
  let lb := list_ascii_of_string b in
  match (length la + length lb)%nat with
  | 0%nat => 1%Q
  | S n => (Z.of_nat (2 * matches (S (length la)) la lb) # Pos.of_succ_nat n)%Q
  end.

End Difflib.

(** * Vocabulary of the properties *)

(** One round of a loop that keeps the best score seen and its owner. *)
Definition keep_best {A V : Type} (ltb : V → V → bool)
    (best : V * option A) (c : A * V) : V * option A :=
  if ltb best.1 c.2 then (c.2, Some c.1) else best.

(** [a] with score [v] is the first element of [l] with the best score. *)
Definition first_best {A V : Type} (lt le : V → V → Prop)
    (l : list (A * V)) (a : A) (v : V) : Prop :=
  ∃ l1 l2, l = l1 ++ (a, v) :: l2
           ∧ Forall (λ c, lt c.2 v) l1 ∧ Forall (λ c, le c.2 v) l2.

(** Deduplication that keeps the first occurrence of every element, as the
    spec words it. *)
Fixpoint dedup_first (l : list string) : list string :=
  match l with
  | [] => []
  | x :: l' => x :: filter (λ y, y ≠ x) (dedup_first l')
  end.

(** The name tokens of a record: those of its surname, first name and
    middle name, in this order, a missing or empty field giving none. *)
Definition field_tokens (row : Row) (field : string) : list string :=
  if truthy (row !! field) then tokens_from_name_field (row !! field) else [].

Definition record_tokens (row : Row) : list string :=
  field_tokens row "surname" ++ field_tokens row "first_name"
  ++ field_tokens row "middle_name".

Definition scored (S : gset string) (rows : list Row) : list (Row * nat) :=
  (λ row, (row, count_token_matches S row)) <$> rows.

Definition Qltb (x y : Q) : bool := negb (Qle_bool y x).

(** The pairs (record, ratio) that phase 2 looks at, in its order: for
    every record its full name and then the reversed one, an empty variant
    being skipped. *)
Definition candidates (ratio : string → string → Q) (norm_fname : string)
    (rows : list Row) : list (Row * Q) :=
  flat_map (λ row, (λ v, (row, ratio norm_fname v))
                     <$> filter (λ v, nonempty v = true) (variants row)) rows.

Definition blank_field (v : option string) : Prop := v = None ∨ v = Some "".

(** A record whose name fields are all absent or empty. *)
Definition blank_record (row : Row) : Prop :=
  Forall (λ field, blank_field (row !! field)) name_fields.

(** The [i]-th name that the collision loop tries. *)
Definition candidate (dirpath : path) (base ext : string) (i : nat) : path :=
  dirpath ++ [suffixed base ext i].

(** [i] is the smallest suffix, from [start] on, whose name is free. *)
Definition smallest_free (fs : FS) (dirpath : path) (base ext : string)
    (start i : nat) : Prop :=
  start ≤ i ∧ fs !! candidate dirpath base ext i = None
  ∧ ∀ j, start ≤ j < i → is_Some (fs !! candidate dirpath base ext j).

(** The name that a placement into [dirpath] under [name] ends up with:
    [name] itself when it is free, and otherwise the name with the
    smallest suffix, from 1 on, that is free. *)
Definition placed_as (fs : FS) (dirpath : path) (name : string) (written : path) : Prop :=
  fs !! written = None
  ∧ (fs !! (dirpath ++ [name]) = None → written = dirpath ++ [name])
  ∧ (is_Some (fs !! (dirpath ++ [name])) →
     ∃ i, smallest_free fs dirpath (splitext name).1 (splitext name).2 1 i
          ∧ written = dirpath ++ [suffixed (splitext name).1 (splitext name).2 i]).

(** The directories that the walk visits. *)
Definition walk_roots (fs : FS) (top : path) : list path :=
  if isdir fs top then top :: dirs_below fs top else [].

(** The files that a walk lists, each with the directory it is in. *)
Definition listed_files (triples : list (path * list string * list string))
  : list (path * string) :=
  flat_map (λ t, (λ f, (t.1.1, f)) <$> t.2) triples.

(** A path at least two levels below [top]. *)
Definition deep (top p : path) : Prop :=
  ∃ root x, p = root ++ [x] ∧ top `prefix_of` root ∧ root ≠ top.

(** What the flattening pass keeps true between the state [fs0] in which
    it starts and the current state [fs]: the directories are the same,
    what is not deep below [top] stays, and what is new is a file directly
    in [top]. *)
Record flattening (top : path) (fs0 fs : FS) : Prop := {
  flattening_dirs : ∀ p, fs !! p = Some Dir ↔ fs0 !! p = Some Dir;
  flattening_keeps : ∀ p n, fs0 !! p = Some n → ¬ deep top p → fs !! p = Some n;
  flattening_new : ∀ p n, fs !! p = Some n →
                   fs0 !! p = Some n ∨ ∃ x data, p = top ++ [x] ∧ n = File data
}.

(** Parents of entries are directories. *)
Definition fs_wf (fs : FS) : Prop :=
  ∀ p x n, fs !! (p ++ [x]) = Some n → p ≠ [] → fs !! p = Some Dir.

(** The directories that a walk lists, with their full paths. *)
Definition listed_dirs (triples : list (path * list string * list string)) : list path :=
  flat_map (λ t, (λ d, t.1.1 ++ [d]) <$> t.1.2) triples.

Definition strictly_below (top p : path) : Prop := top `prefix_of` p ∧ p ≠ top.




(** [c] occurs in [s]. *)
Fixpoint has_char (c : ascii) (s : string) : bool :=
  match s with
  | EmptyString => false
  | String d s' => Ascii.eqb d c || has_char c s'
  end.

(** The identifiers of a roster are free of separators. *)
Definition plain_roster (reader : list Row) : Prop :=
  Forall (λ row : Row, has_char "/" (or_empty (row !! "index")) = false) reader.

(** The target folder of a record, for an identifier without separator. *)
Definition target_of (cwd : path) (row : Row) : path :=
  cwd ++ [OUTPUT_DIR; folder_name_of row].

(** [q] lies on the branch of [target]: above it, at it or below it. *)
Definition on_branch (target q : path) : Prop :=
  q `prefix_of` target ∨ target `prefix_of` q.

(** Only the branch of [target] differs between [fs] and [fs']. *)
Definition touches_only (target : path) (fs fs' : FS) : Prop :=
  ∀ q, ¬ on_branch target q → fs' !! q = fs !! q.

(** The converter was started on a document whose PDF did not exist. *)
Definition exec_guarded (e : event) : Prop :=
  match e with
  | Exec docx_path out_dir before =>
      before !! (dirname docx_path ++ [pdf_name (basename docx_path)]) = None
  | Print _ => True
  end.

(** [w'] has the log of [w] and then events in which the converter only
    starts on documents without PDF. *)
Definition extends_log (w w' : World) : Prop :=
  ∃ l, log w' = log w ++ l ∧ Forall exec_guarded l.

(** A step of the run: the log grows by guarded events and only the
    branch of [target] changes. *)
Definition step_ok (target : path) (w w' : World) : Prop :=
  extends_log w w' ∧ touches_only target (fs w) (fs w').

(** The counters of the entries seen, matched and unmatched are the same. *)
Definition same_counts (s s' : Stats) : Prop :=
  files_seen s' = files_seen s ∧ matched s' = matched s ∧ unmatched s' = unmatched s.

(** The file has a match. *)
Definition is_matched (env : Env) (rows : list Row) (fname : string) : bool :=
  match (find_best_row_for_filename (fuzzy_ratio env) fname rows
           MIN_TOKEN_MATCHES FUZZY_THRESHOLD).1 with
  | Some row => negb (bool_decide (row = ∅))
  | None => false
  end.

Definition visible (fname : string) : bool := negb (starts_with "." fname).

(** How one entry of the input directory moves the counters, given
    whether it is a regular file. *)
Definition counted (env : Env) (rows : list Row) (regular : bool) (fname : string)
    (s s' : Stats) : Prop :=
  if visible fname then
    files_seen s' = S (files_seen s)
    ∧ (if regular then
         if is_matched env rows fname
         then matched s' = S (matched s) ∧ unmatched s' = unmatched s
         else matched s' = matched s ∧ unmatched s' = S (unmatched s)
       else matched s' = matched s ∧ unmatched s' = unmatched s)
  else same_counts s s'.

(** The input directory holds in [fs'] what it holds in [fs]. *)
Definition input_untouched (env : Env) (fs fs' : FS) : Prop :=
  ∀ p, input_dir env `prefix_of` p → fs' !! p = fs !! p.

Definition count {A} (f : A → bool) (l : list A) : nat :=
  length (filter (λ x, f x = true) l).

(** The names in a directory. *)
Definition names_in (fs : FS) (d : path) : list string := (scandir fs d).*1.

(** The tests of the loop on a name of the input directory. *)
Definition regular_in (env : Env) (fs : FS) (name : string) : bool :=
  visible name && isfile fs (input_dir env ++ [name]).

Definition matched_in (env : Env) (rows : list Row) (fs : FS) (name : string) : bool :=
  regular_in env fs name && is_matched env rows name.

Definition unmatched_in (env : Env) (rows : list Row) (fs : FS) (name : string) : bool :=
  regular_in env fs name && negb (is_matched env rows name).

(** Every character of [s] passes the test [P]. *)
Fixpoint all_chars (P : ascii → bool) (s : string) : bool :=
  match s with
  | EmptyString => true
  | String c s' => P c && all_chars P s'
  end.

(** A character that [normalize_text] lets through, or the space it puts
    in place of the others. *)
Definition is_normal (c : ascii) : bool := is_lower_alnum c || Ascii.eqb c " ".


(** The string that [normalize_text] collapses: lower case, and a space
    for every character that is no lower-case letter or digit. *)
Definition spaced (s : option string) : string :=
  map_chars (λ c, if is_lower_alnum c then c else " "%char) (lower (or_empty s)).

(** What a conversion may do to the state and to the counters: entries
    that exist stay as they are, every PDF that is counted as converted is
    a new entry and there is no other new entry, the counters of the
    matching stay, and without LibreOffice nothing is written. *)
Record converts (env : Env) (st st' : World * Stats) : Prop := {
  converts_keeps : ∀ p n, fs st.1 !! p = Some n → fs st'.1 !! p = Some n;
  converts_size : size (fs st'.1) + converted st.2 = size (fs st.1) + converted st'.2;
  converts_converted : converted st.2 ≤ converted st'.2;
  converts_failed : convert_failed st.2 ≤ convert_failed st'.2;
  converts_seen : files_seen st'.2 = files_seen st.2;
  converts_matched : matched st'.2 = matched st.2;
  converts_unmatched : unmatched st'.2 = unmatched st.2;
  converts_skipped : skipped_existing_file st'.2 = skipped_existing_file st.2;
  converts_missing : libreoffice_in_path env = false →
                     fs st'.1 = fs st.1 ∧ converted st'.2 = converted st.2
}.


(** What is counted in a piece of the log: the lines that report a
    processed file, a file without match and a skipped copy, and the
    starts of the converter. *)
Definition reports_processed (e : event) : bool :=
  match e with Print (Processed _ _ _) => true | _ => false end.

Definition reports_no_match (e : event) : bool :=
  match e with Print (NoGoodMatch _) => true | _ => false end.

Definition reports_skip (e : event) : bool :=
  match e with Print (AlreadyPresent _) => true | _ => false end.

Definition is_start (e : event) : bool :=
  match e with Exec _ _ _ => true | _ => false end.

(** [events] is what the log of [st'] has after the log of [st], and the
    counters have moved as its lines say. *)
Record accounted (env : Env) (st st' : World * Stats) (events : list event) : Prop := {
  accounted_log : log st'.1 = log st.1 ++ events;
  accounted_processed : count reports_processed events + matched st.2 = matched st'.2;
  accounted_no_match : count reports_no_match events + unmatched st.2 = unmatched st'.2;
  accounted_skip :
    count reports_skip events + skipped_existing_file st.2 = skipped_existing_file st'.2;
  accounted_starts :
    libreoffice_in_path env = true →
    count is_start events + (converted st.2 + convert_failed st.2)
    = converted st'.2 + convert_failed st'.2;
  accounted_no_starts :
    libreoffice_in_path env = false →
    count is_start events = 0 ∧ converted st'.2 = converted st.2
}.










(** * Scenarios *)

(** A roster with one student, and collaborators that behave: the zip
    library finds one member in a folder of the archive, the rar codec is
    not installed, LibreOffice writes a PDF. *)
Definition smith : Row :=
  {[ "index" := "7"; "surname" := "Smith"; "first_name" := "John" ]}.

Definition unzip_notes (data : string) : list member * bool :=
  ([("docs/notes.txt", data)], false).

Definition soffice_writes (docx_path out_dir : path) (before : FS) : soffice_result :=
  Exit0 (Some "%PDF").

Definition env_home : Env :=
  mkEnv ["home"] Difflib.ratio unzip_notes false (λ _, RarCannotExec) true soffice_writes.


Definition start (files : list (path * node)) : World := mkWorld (list_to_map files) [].

(** An archive of the student in the input directory. *)
Definition archive_submitted : World :=
  start [ (["home"], Dir); (["home"; "submissions"], Dir);
          (["home"; "submissions"; "smith_john.zip"], File "PK") ].

(** A document of the student, and a hidden file and a folder next to it. *)
Definition document_submitted : World :=
  start [ (["home"], Dir); (["home"; "submissions"], Dir);
          (["home"; "submissions"; ".cache"], File "");
          (["home"; "submissions"; "drafts"], Dir);
          (["home"; "submissions"; "nobody.txt"], File "?");
          (["home"; "submissions"; "smith_john.docx"], File "essay") ].




(** A zip archive, and a target directory that has [notes.txt] already. *)
Definition zip_to_extract : World :=
  start [ (["in"], Dir); (["in"; "a.zip"], File "PK"); (["out"], Dir);
          (["out"; "notes.txt"], File "mine") ].

(** A roster whose identifier walks out of the output directory and into
    the input directory. *)
Definition smith_in_input : Row :=
  {[ "index" := "../submissions/x"; "surname" := "Smith"; "first_name" := "John" ]}.

Definition text_submitted : World :=
  start [ (["home"], Dir); (["home"; "submissions"], Dir);
          (["home"; "submissions"; "smith_john.txt"], File "hello") ].

(** A roster whose identifier leads to the working directory itself, which
    is named after the student; the zip library fails on the archive. *)
Definition smith_is_cwd : Row :=
  {[ "index" := "../../proj"; "surname" := "Smith"; "first_name" := "John" ]}.

Definition env_proj : Env :=
  mkEnv ["srv"; "proj_Smith_John"] Difflib.ratio (λ _, ([], true)) false
        (λ _, RarCannotExec) true soffice_writes.

Definition project_named_after_student : World :=
  start [ (["srv"], Dir); (["srv"; "proj_Smith_John"], Dir);
          (["srv"; "proj_Smith_John"; "submissions"], Dir);
          (["srv"; "proj_Smith_John"; "submissions"; "smith_john.zip"], File "PK");
          (["srv"; "proj_Smith_John"; "submissions"; "zzz.txt"], File "hello") ].

(** A roster for the matcher: a record without a name, then two students
    that the token phase cannot tell apart on some names, and one more. *)
Definition nameless : Row := {[ "index" := "1"; "surname" := "" ]}.
Definition ada_smith : Row :=
  {[ "index" := "2"; "surname" := "Smith"; "first_name" := "Ada" ]}.
Definition john_smith : Row :=
  {[ "index" := "3"; "surname" := "Smith-Smith"; "first_name" := "John";
     "middle_name" := "Ada" ]}.
Definition roster3 : list Row := [nameless; ada_smith; john_smith].

(** What a scenario ends with, when it returns. *)
Definition observe {A B : Type} (f : A → B) (r : result A) : option B :=
  match r with Ok a => Some (f a) | _ => None end.

Definition entry (p : path) (st : World * Stats) : option node := fs st.1 !! p.

(** A second run, on what the first one leaves. *)
Definition again (env : Env) (reader : list Row) (r : result (World * Stats))
  : result (World * Stats) :=
  bind r (λ st, organize_and_convert env reader st.1).

(** LibreOffice is not installed. *)
Definition env_bare : Env :=
  mkEnv ["home"] Difflib.ratio unzip_notes false (λ _, RarCannotExec) false soffice_writes.

(** The folder of a student with a document that has no PDF yet. *)
Definition folder_with_document : World :=
  start [ (["home"], Dir); (["home"; "organized_submissions"], Dir);
          (["home"; "organized_submissions"; "7_Smith_John"], Dir);
          (["home"; "organized_submissions"; "7_Smith_John"; "essay.docx"], File "essay") ].


(** The student of [ada_smith] with the two names in the other columns. *)
Definition smith_ada : Row :=
  {[ "index" := "9"; "surname" := "Ada"; "first_name" := "Smith" ]}.


(** * Properties of the matcher *)

(** ** Keeping the first best element of a list *)

Section FirstBest.

Context {A V : Type}.

Variable ltb : V → V → bool.

Variables lt le : V → V → Prop.

Hypothesis ltb_lt : ∀ x y, ltb x y = true → lt x y.

Hypothesis ltb_le : ∀ x y, ltb x y = false → le y x.

Hypothesis le_lt_trans : ∀ x y z, le x y → lt y z → lt x z.

Hypothesis lt_le : ∀ x y, lt x y → le x y.

Lemma keep_best_fold (l : list (A * V)) (v0 : V) (b0 : option A) :
  (Forall (λ c, le c.2 v0) l ∧ foldl (keep_best ltb) (v0, b0) l = (v0, b0))
  ∨ (∃ a v, foldl (keep_best ltb) (v0, b0) l = (v, Some a)
            ∧ lt v0 v ∧ first_best lt le l a v).
Proof.
  revert v0 b0. induction l as [|[a v] l IH]; intros v0 b0; simpl.
  - left. split; [constructor | reflexivity].
  - change (keep_best ltb (v0, b0) (a, v))
      with (if ltb v0 v then (v, Some a) else (v0, b0)).
    destruct (ltb v0 v) eqn:Hlt.
    + right. apply ltb_lt in Hlt.
      destruct (IH v (Some a)) as [[Hall Heq] | (a' & v' & Heq & Hlt' & l1 & l2 & -> & H1 & H2)].
      * exists a, v. split; [exact Heq|]. split; [exact Hlt|].
        exists [], l. split; [reflexivity|]. split; [constructor | exact Hall].
      * exists a', v'. split; [exact Heq|]. split; [eauto|].
        exists ((a, v) :: l1), l2. split; [reflexivity|].
        split; [constructor; [exact Hlt' | exact H1] | exact H2].
    + apply ltb_le in Hlt.
      destruct (IH v0 b0) as [[Hall Heq] | (a' & v' & Heq & Hlt' & l1 & l2 & -> & H1 & H2)].
      * left. split; [constructor; [exact Hlt | exact Hall] | exact Heq].
      * right. exists a', v'. split; [exact Heq|]. split; [exact Hlt'|].
        exists ((a, v) :: l1), l2. split; [reflexivity|].
        split; [constructor; [simpl; eauto | exact H1] | exact H2].
Qed.

Lemma first_best_upper (l : list (A * V)) a v :
  (∀ x, le x x) → first_best lt le l a v → Forall (λ c, le c.2 v) l.
Proof.
  intros Hrefl (l1 & l2 & -> & H1 & H2).
  apply Forall_app. split.
  - eapply Forall_impl; [exact H1 | ]. intros c Hc. simpl in Hc. eauto.
  - constructor; [apply Hrefl | exact H2].
Qed.

End FirstBest.

(** ** Token counting *)

Lemma filter_all {A} (P : A → Prop) `{∀ x, Decision (P x)} (l : list A) :
  Forall P l → filter P l = l.
Proof.
  induction 1 as [|x l Hx Hl IH]; [done|].
  rewrite filter_cons_True by exact Hx. by rewrite IH.
Qed.

Lemma dict_fromkeys_acc (acc l : list string) :
  foldl (λ keys t, if bool_decide (t ∈ keys) then keys else keys ++ [t]) acc l
  = acc ++ filter (λ y, y ∉ acc) (dedup_first l).
Proof.
  revert acc. induction l as [|x l IH]; intros acc; simpl.
  - by rewrite app_nil_r.
  - rewrite IH. case_bool_decide as Hx.
    + f_equal. rewrite filter_cons_False by (intros H; by apply H).
      rewrite list_filter_filter. apply list_filter_iff.
      intros y. split; [|tauto]. intros Hy. split; [exact Hy|]. by intros ->.
    + rewrite filter_cons_True by exact Hx.
      rewrite <- app_assoc. simpl. do 2 f_equal.
      rewrite list_filter_filter. apply list_filter_iff.
      intros y. rewrite not_elem_of_app, list_elem_of_singleton. tauto.
Qed.

Lemma dict_fromkeys_dedup_first (l : list string) : dict_fromkeys l = dedup_first l.
Proof.
  unfold dict_fromkeys. rewrite dict_fromkeys_acc. simpl.
  apply filter_all, Forall_forall. intros y _. apply not_elem_of_nil.
Qed.

Lemma dedup_first_elem_of (l : list string) (x : string) :
  x ∈ dedup_first l ↔ x ∈ l.
Proof.
  induction l as [|y l IH]; simpl; [done|].
  rewrite !elem_of_cons, list_elem_of_filter, IH.
  destruct (decide (x = y)); tauto.
Qed.

Lemma dedup_first_NoDup (l : list string) : NoDup (dedup_first l).
Proof.
  induction l as [|y l IH]; simpl; [constructor|].
  constructor.
  - rewrite list_elem_of_filter. intros [Hy _]. by apply Hy.
  - by apply NoDup_filter.
Qed.

Lemma count_loop (S : gset string) (l : list string) (c : nat) :
  Forall (λ t, nonempty t = true) l →
  foldl (λ match_count t,
           if nonempty t && bool_decide (t ∈ S) then Datatypes.S match_count
           else match_count) c l
  = c + length (filter (λ t, t ∈ S) l).
Proof.
  revert c. induction l as [|t l IH]; intros c Hne; simpl; [lia|].
  inversion Hne as [|? ? Ht Hl]; subst. rewrite Ht. simpl.
  case_bool_decide as Hin.
  - rewrite filter_cons_True by exact Hin. rewrite IH by exact Hl. simpl. lia.
  - rewrite filter_cons_False by exact Hin. by rewrite IH.
Qed.

Lemma tokens_from_name_field_nonempty (field : option string) :
  Forall (λ t, nonempty t = true) (tokens_from_name_field field).
Proof.
  unfold tokens_from_name_field. apply Forall_forall. intros t Ht.
  by apply list_elem_of_filter in Ht as [Ht _].
Qed.

Lemma record_tokens_nonempty (row : Row) :
  Forall (λ t, nonempty t = true) (record_tokens row).
Proof.
  unfold record_tokens, field_tokens. rewrite !Forall_app.
  repeat split; case (truthy _); auto using tokens_from_name_field_nonempty.
Qed.

(** The count of the code is the number of distinct name tokens of the
    record that are among the tokens of the file name. *)
Lemma count_token_matches_spec (S : gset string) (row : Row) :
  count_token_matches S row
  = length (filter (λ t, t ∈ S) (dedup_first (record_tokens row))).
Proof.
  unfold count_token_matches. rewrite dict_fromkeys_dedup_first.
  assert (Hacc : foldl (λ tokens field,
                   if truthy (row !! field)
                   then tokens ++ tokens_from_name_field (row !! field)
                   else tokens) [] name_fields = record_tokens row).
  { unfold name_fields, record_tokens, field_tokens. simpl.
    repeat case (truthy _); simpl; by rewrite ?app_nil_r, <- ?app_assoc. }
  rewrite Hacc. rewrite count_loop; [done|].
  pose proof (record_tokens_nonempty row) as Hall.
  rewrite Forall_forall in Hall.
  apply Forall_forall. intros t Ht. apply Hall. by apply dedup_first_elem_of.
Qed.

Lemma count_token_matches_size (S : gset string) (row : Row) :
  count_token_matches S row = size (list_to_set (record_tokens row) ∩ S).
Proof.
  rewrite count_token_matches_spec.
  assert (H : list_to_set (record_tokens row) ∩ S
              = list_to_set (C := gset string)
                  (filter (λ t, t ∈ S) (dedup_first (record_tokens row)))).
  { apply set_eq. intros t.
    rewrite elem_of_intersection, !elem_of_list_to_set, list_elem_of_filter,
      dedup_first_elem_of. tauto. }
  rewrite H. symmetry. apply size_list_to_set.
  apply NoDup_filter, dedup_first_NoDup.
Qed.

(** ** Phase 1: token overlap *)

Lemma token_fold_keep_best (S : gset string) (rows : list Row) (b : option Row) (c : nat) :
  foldl (token_step S) (b, c) rows
  = let r := foldl (keep_best Nat.ltb) (c, b) (scored S rows) in (r.2, r.1).
Proof.
  revert b c. induction rows as [|row rows IH]; intros b c; simpl; [done|].
  change (token_step S (b, c) row)
    with (if c <? count_token_matches S row
          then (Some row, count_token_matches S row) else (b, c)).
  change (keep_best Nat.ltb (c, b) (row, count_token_matches S row))
    with (if c <? count_token_matches S row
          then (count_token_matches S row, Some row) else (c, b)).
  destruct (c <? count_token_matches S row); apply IH.
Qed.

Lemma token_fold_cases (S : gset string) (rows : list Row) :
  (Forall (λ row, count_token_matches S row = 0) rows
   ∧ foldl (token_step S) (None, 0) rows = (None, 0))
  ∨ (∃ row, foldl (token_step S) (None, 0) rows = (Some row, count_token_matches S row)
            ∧ 0 < count_token_matches S row
            ∧ first_best lt le (scored S rows) row (count_token_matches S row)).
Proof.
  rewrite token_fold_keep_best.
  assert (H1 : ∀ x y, (x <? y) = true → x < y) by (intros x y; apply Nat.ltb_lt).
  assert (H2 : ∀ x y, (x <? y) = false → y ≤ x) by (intros x y; apply Nat.ltb_ge).
  assert (H3 : ∀ x y z : nat, x ≤ y → y < z → x < z) by lia.
  assert (H4 : ∀ x y : nat, x < y → x ≤ y) by lia.
  destruct (keep_best_fold Nat.ltb lt le H1 H2 H3 H4 (scored S rows) 0 (@None Row))
    as [[Hall Heq] | (a & v & Heq & Hlt & Hfb)].
  - left. split.
    + unfold scored in Hall. rewrite Forall_fmap in Hall.
      eapply Forall_impl; [exact Hall|]. simpl. intros row. lia.
    + by rewrite Heq.
  - right. assert (Hv : v = count_token_matches S a).
    { destruct Hfb as (l1 & l2 & Hsplit & _).
      assert (Hin : (a, v) ∈ scored S rows).
      { rewrite Hsplit. apply elem_of_app. right. apply elem_of_cons. by left. }
      unfold scored in Hin. apply list_elem_of_fmap in Hin as (row & Hrow & _).
      by inversion Hrow. }
    subst v. exists a. rewrite Heq. auto.
Qed.

Lemma first_best_scored (S : gset string) (rows : list Row) (row : Row) (v : nat) :
  first_best lt le (scored S rows) row v →
  ∃ l1 l2, rows = l1 ++ row :: l2
           ∧ count_token_matches S row = v
           ∧ Forall (λ r, count_token_matches S r < v) l1
           ∧ Forall (λ r, count_token_matches S r ≤ v) l2.
Proof.
  intros (s1 & s2 & Hsplit & H1 & H2). unfold scored in Hsplit.
  apply fmap_app_inv in Hsplit as (l1 & k & -> & Hk & ->).
  symmetry in Hk. apply fmap_cons_inv in Hk as (r & l2 & Hr & -> & ->).
  inversion Hr; subst. exists l1, l2.
  rewrite Forall_fmap in H1. rewrite Forall_fmap in H2. auto.
Qed.

(** ** Phase 2: similarity *)

Lemma Qltb_lt (x y : Q) : Qltb x y = true → (x < y)%Q.
Proof.
  unfold Qltb. intros H. apply negb_true_iff in H.
  apply Qnot_le_lt. intros Hle. apply Qle_bool_iff in Hle. congruence.
Qed.

Lemma Qltb_le (x y : Q) : Qltb x y = false → (y <= x)%Q.
Proof.
  unfold Qltb. intros H. apply negb_false_iff in H. by apply Qle_bool_iff.
Qed.

Lemma fuzzy_fold_keep_best ratio norm (rows : list Row) (best : Q * option Row) :
  foldl (fuzzy_step ratio norm) best rows
  = foldl (keep_best Qltb) best (candidates ratio norm rows).
Proof.
  revert best. induction rows as [|row rows IH]; intros best; simpl; [done|].
  rewrite foldl_app, <- IH. f_equal.
  unfold fuzzy_step. generalize (variants row). intros vs. revert best.
  induction vs as [|v vs IHv]; intros best; simpl; [done|].
  change (variant_step ratio norm row best v)
    with (if nonempty v then keep_best Qltb best (row, ratio norm v) else best).
  destruct (nonempty v) eqn:Hv.
  - rewrite filter_cons_True by exact Hv. simpl. apply IHv.
  - rewrite filter_cons_False by congruence. apply IHv.
Qed.

Lemma fuzzy_fold_cases ratio norm (rows : list Row) :
  (Forall (λ c, (c.2 <= 0)%Q) (candidates ratio norm rows)
   ∧ foldl (fuzzy_step ratio norm) (0%Q, None) rows = (0%Q, None))
  ∨ (∃ row q, foldl (fuzzy_step ratio norm) (0%Q, None) rows = (q, Some row)
              ∧ (0 < q)%Q
              ∧ first_best Qlt Qle (candidates ratio norm rows) row q).
Proof.
  rewrite fuzzy_fold_keep_best.
  apply (keep_best_fold Qltb Qlt Qle Qltb_lt Qltb_le Qle_lt_trans Qlt_le_weak).
Qed.

(** ** The claims about the matcher *)

(** C4. Phase 1 counts, for every record, how many of its deduplicated
    name tokens (surname, first name, middle name; first occurrences, in
    order) are among the tokens of the file name; when the highest count
    [best] of the roster reaches [min_token_matches], the result is the
    earliest record with that count, tagged [token], whatever the
    similarity function and threshold are. *)
Theorem token_phase_returns_earliest_best
    (filename : string) (rows : list Row) (min_token_matches : Z) (best : nat) :
  let fname_tokens : gset string :=
    list_to_set (split (normalize_text (Some filename))) in
  (1 ≤ min_token_matches)%Z →
  Forall (λ row, count_token_matches fname_tokens row ≤ best) rows →
  Exists (λ row, count_token_matches fname_tokens row = best) rows →
  (min_token_matches ≤ Z.of_nat best)%Z →
  (∀ row, count_token_matches fname_tokens row
          = length (filter (λ t, t ∈ fname_tokens) (dedup_first (record_tokens row))))
  ∧ ∃ l1 row l2,
      rows = l1 ++ row :: l2
      ∧ count_token_matches fname_tokens row = best
      ∧ Forall (λ r, count_token_matches fname_tokens r < best) l1
      ∧ ∀ fuzzy_ratio fuzzy_threshold,
          find_best_row_for_filename fuzzy_ratio filename rows
            min_token_matches fuzzy_threshold
          = (Some row, Some token).
Proof.
  intros S Hmin Hle Hex Hreach.
  split; [intros row; apply count_token_matches_spec|].
  destruct (token_fold_cases S rows) as [[Hzero _] | (row & Heq & Hpos & Hfb)].
  - exfalso. apply Exists_exists in Hex as (r & Hr & Hbest).
    rewrite Forall_forall in Hzero. specialize (Hzero r Hr). lia.
  - apply first_best_scored in Hfb as (l1 & l2 & -> & _ & H1 & H2).
    assert (Hv : count_token_matches S row = best).
    { apply Nat.le_antisymm.
      - rewrite Forall_forall in Hle. apply Hle.
        apply elem_of_app. right. apply elem_of_cons. by left.
      - apply Exists_exists in Hex as (r & Hr & Hbest).
        apply elem_of_app in Hr as [Hr | Hr].
        + rewrite Forall_forall in H1. specialize (H1 r Hr). lia.
        + apply elem_of_cons in Hr as [-> | Hr]; [lia|].
          rewrite Forall_forall in H2. specialize (H2 r Hr). lia. }
    exists l1, row, l2. split; [done|]. split; [exact Hv|].
    split; [by rewrite <- Hv|].
    intros fuzzy_ratio fuzzy_threshold.
    unfold find_best_row_for_filename. fold S. rewrite Heq.
    assert (Hb : (min_token_matches <=? Z.of_nat (count_token_matches S row))%Z = true)
      by (apply Z.leb_le; lia).
    by rewrite Hb.
Qed.

(** C5. When no record reaches [min_token_matches], phase 2 compares the
    normalized file name with the full name of every record and with its
    reversed form; if the highest ratio reaches [fuzzy_threshold], the
    result is the earliest record with that ratio, tagged [fuzzy] with
    the ratio, and otherwise there is no match. *)
Theorem fuzzy_phase_returns_earliest_best
    (fuzzy_ratio : string → string → Q) (filename : string) (rows : list Row)
    (min_token_matches : Z) (fuzzy_threshold : Q) :
  let norm_fname := normalize_text (Some filename) in
  let fname_tokens : gset string := list_to_set (split norm_fname) in
  let ratios := candidates fuzzy_ratio norm_fname rows in
  (1 ≤ min_token_matches)%Z →
  (0 < fuzzy_threshold)%Q →
  Forall (λ row, (Z.of_nat (count_token_matches fname_tokens row) < min_token_matches)%Z)
         rows →
  (Exists (λ c, (fuzzy_threshold <= c.2)%Q) ratios →
   ∃ row q,
     first_best Qlt Qle ratios row q
     ∧ find_best_row_for_filename fuzzy_ratio filename rows
         min_token_matches fuzzy_threshold
       = (Some row, Some (fuzzy q)))
  ∧ (Forall (λ c, (c.2 < fuzzy_threshold)%Q) ratios →
     find_best_row_for_filename fuzzy_ratio filename rows
       min_token_matches fuzzy_threshold
     = (None, None)).
Proof.
  intros norm S ratios Hmin Hthr Hbelow.
  assert (Hphase1 : ∃ b c, foldl (token_step S) (None, 0) rows = (b, c)
                           ∧ (min_token_matches <=? Z.of_nat c)%Z = false).
  { destruct (token_fold_cases S rows) as [[_ Heq] | (row & Heq & _ & Hfb)].
    - exists None, 0. split; [exact Heq|]. apply Z.leb_gt. lia.
    - exists (Some row), (count_token_matches S row). split; [exact Heq|].
      apply Z.leb_gt.
      apply first_best_scored in Hfb as (l1 & l2 & -> & _).
      rewrite Forall_forall in Hbelow. apply Hbelow.
      apply elem_of_app. right. apply elem_of_cons. by left. }
  destruct Hphase1 as (b & c & Hfold & Hc).
  assert (Hunfold : ∀ r, find_best_row_for_filename fuzzy_ratio filename rows
                           min_token_matches fuzzy_threshold = r
                         ↔ (let '(best_ratio, best_row) :=
                              foldl (fuzzy_step fuzzy_ratio norm) (0%Q, None) rows in
                            if Qle_bool fuzzy_threshold best_ratio
                            then (best_row, Some (fuzzy best_ratio))
                            else (None, None)) = r).
  { intros r. unfold find_best_row_for_filename. fold norm. fold S.
    rewrite Hfold, Hc. reflexivity. }
  destruct (fuzzy_fold_cases fuzzy_ratio norm rows)
    as [[Hall Heq] | (row & q & Heq & Hpos & Hfb)].
  - assert (Hno : Qle_bool fuzzy_threshold 0 = false).
    { destruct (Qle_bool fuzzy_threshold 0) eqn:E; [|done].
      apply Qle_bool_iff in E. exfalso. eapply Qlt_irrefl, Qlt_le_trans; eauto. }
    split.
    + intros Hex. exfalso. apply Exists_exists in Hex as (cand & Hin & Hge).
      fold ratios in Hall. rewrite Forall_forall in Hall.
      specialize (Hall cand Hin). simpl in Hall.
      eapply Qlt_irrefl, Qlt_le_trans; [exact Hthr|].
      eapply Qle_trans; eauto.
    + intros _. apply Hunfold. by rewrite Heq, Hno.
  - fold ratios in Hfb.
    assert (Hupper : Forall (λ cand : Row * Q, (cand.2 <= q)%Q) ratios).
    { eapply (first_best_upper Qlt Qle Qlt_le_weak); [apply Qle_refl | exact Hfb]. }
    split.
    + intros Hex. exists row, q. split; [exact Hfb|].
      apply Hunfold. rewrite Heq.
      assert (Hyes : Qle_bool fuzzy_threshold q = true).
      { apply Qle_bool_iff. apply Exists_exists in Hex as (cand & Hin & Hge).
        rewrite Forall_forall in Hupper. specialize (Hupper cand Hin).
        simpl in *. eapply Qle_trans; eauto. }
      by rewrite Hyes.
    + intros Hsmall. apply Hunfold. rewrite Heq.
      assert (Hno : Qle_bool fuzzy_threshold q = false).
      { destruct (Qle_bool fuzzy_threshold q) eqn:E; [|done].
        apply Qle_bool_iff in E. exfalso.
        destruct Hfb as (l1 & l2 & Hsplit & _).
        rewrite Forall_forall in Hsmall.
        assert (Hin : (row, q) ∈ ratios).
        { rewrite Hsplit. apply elem_of_app. right. apply elem_of_cons. by left. }
        specialize (Hsmall _ Hin). simpl in Hsmall.
        eapply Qlt_irrefl, Qlt_le_trans; eauto. }
      by rewrite Hno.
Qed.

(** ** Records without a name, file names without a token *)

Lemma blank_record_fields (row : Row) :
  blank_record row →
  blank_field (row !! "surname") ∧ blank_field (row !! "first_name")
  ∧ blank_field (row !! "middle_name").
Proof.
  unfold blank_record, name_fields. intros H.
  inversion H as [|? ? H1 H']; subst. inversion H' as [|? ? H2 H'']; subst.
  inversion H'' as [|? ? H3 _]; subst. auto.
Qed.

Lemma blank_record_count (S : gset string) (row : Row) :
  blank_record row → count_token_matches S row = 0.
Proof.
  intros (H1 & H2 & H3)%blank_record_fields.
  rewrite count_token_matches_spec. unfold record_tokens, field_tokens.
  destruct H1 as [-> | ->], H2 as [-> | ->], H3 as [-> | ->]; reflexivity.
Qed.

Lemma blank_record_variants (row : Row) :
  blank_record row → variants row = [""; ""].
Proof.
  intros (H1 & H2 & H3)%blank_record_fields.
  unfold variants, rev_name, full_name, name_parts, name_fields. simpl.
  destruct H1 as [-> | ->], H2 as [-> | ->], H3 as [-> | ->]; reflexivity.
Qed.

Lemma elem_of_candidates ratio norm (rows : list Row) (row : Row) (q : Q) :
  (row, q) ∈ candidates ratio norm rows →
  row ∈ rows ∧ ∃ v, v ∈ variants row ∧ nonempty v = true ∧ q = ratio norm v.
Proof.
  unfold candidates. rewrite list_elem_of_In, in_flat_map.
  intros (r & Hr & Hin). apply list_elem_of_In in Hr.
  apply list_elem_of_In, list_elem_of_fmap in Hin as (v & Heq & Hv).
  inversion Heq; subst. apply list_elem_of_filter in Hv as [Hne Hv]. eauto.
Qed.

(** A record that is returned has a token in the file name or a variant
    that is not empty. *)
Lemma returned_record_has_name ratio filename (rows : list Row) m t row how :
  find_best_row_for_filename ratio filename rows m t = (Some row, how) →
  0 < count_token_matches (list_to_set (split (normalize_text (Some filename)))) row
  ∨ ∃ v, v ∈ variants row ∧ nonempty v = true.
Proof.
  unfold find_best_row_for_filename.
  set (norm := normalize_text (Some filename)).
  set (S := list_to_set (split norm) : gset string).
  assert (Hfuzzy :
    (let '(best_ratio, best_row) := foldl (fuzzy_step ratio norm) (0%Q, None) rows in
     if Qle_bool t best_ratio then (best_row, Some (fuzzy best_ratio))
     else (None, None)) = (Some row, how) →
    ∃ v, v ∈ variants row ∧ nonempty v = true).
  { destruct (fuzzy_fold_cases ratio norm rows)
      as [[_ ->] | (r & q & -> & _ & l1 & l2 & Hsplit & _)].
    - destruct (Qle_bool t 0); intros H; inversion H.
    - destruct (Qle_bool t q); intros H; inversion H; subst.
      assert (Hin : (row, q) ∈ candidates ratio norm rows).
      { rewrite Hsplit. apply elem_of_app. right. apply elem_of_cons. by left. }
      apply elem_of_candidates in Hin as (_ & v & Hv & Hne & _). eauto. }
  destruct (token_fold_cases S rows) as [[_ ->] | (r & -> & Hpos & _)].
  - destruct (m <=? Z.of_nat 0)%Z; [intros H; inversion H | auto].
  - destruct (m <=? Z.of_nat (count_token_matches S r))%Z; [|auto].
    intros H; inversion H; subst. by left.
Qed.

(** C7. A record whose name fields are all absent or empty is never
    returned; and a file name that normalizes to the empty string gets
    the no-match result (the thresholds being positive and the ratio of
    the empty string with a name being 0). *)
Theorem blank_record_never_returned_and_empty_name_unmatched
    (fuzzy_ratio : string → string → Q) (filename : string) (rows : list Row)
    (min_token_matches : Z) (fuzzy_threshold : Q) :
  (∀ row how,
     blank_record row →
     find_best_row_for_filename fuzzy_ratio filename rows
       min_token_matches fuzzy_threshold ≠ (Some row, how))
  ∧ ((1 ≤ min_token_matches)%Z →
     (0 < fuzzy_threshold)%Q →
     (∀ v, v ≠ "" → (fuzzy_ratio "" v == 0)%Q) →
     normalize_text (Some filename) = "" →
     find_best_row_for_filename fuzzy_ratio filename rows
       min_token_matches fuzzy_threshold = (None, None)).
Proof.
  split.
  - intros row how Hblank Heq.
    apply returned_record_has_name in Heq as [Hpos | (v & Hv & Hne)].
    + rewrite blank_record_count in Hpos by exact Hblank. lia.
    + rewrite blank_record_variants in Hv by exact Hblank.
      apply elem_of_cons in Hv as [-> | Hv]; [done|].
      apply elem_of_cons in Hv as [-> | Hv]; [done|].
      by apply elem_of_nil in Hv.
  - intros Hmin Hthr Hratio Hnorm.
    unfold find_best_row_for_filename. rewrite Hnorm.
    change (list_to_set (split "")) with (∅ : gset string).
    destruct (token_fold_cases ∅ rows) as [[_ ->] | (r & _ & Hpos & _)].
    + assert (Hb : (min_token_matches <=? Z.of_nat 0)%Z = false)
        by (apply Z.leb_gt; lia).
      rewrite Hb.
      destruct (fuzzy_fold_cases fuzzy_ratio "" rows)
        as [[_ ->] | (r & q & _ & Hpos & l1 & l2 & Hsplit & _)].
      * destruct (Qle_bool fuzzy_threshold 0) eqn:E; [|done].
        apply Qle_bool_iff in E. exfalso.
        eapply Qlt_irrefl, Qlt_le_trans; eauto.
      * exfalso.
        assert (Hin : (r, q) ∈ candidates fuzzy_ratio "" rows).
        { rewrite Hsplit. apply elem_of_app. right. apply elem_of_cons. by left. }
        apply elem_of_candidates in Hin as (_ & v & _ & Hne & ->).
        assert (Hv : v ≠ "") by (intros ->; discriminate).
        specialize (Hratio v Hv). rewrite Hratio in Hpos.
        by apply Qlt_irrefl in Hpos.
    + exfalso. rewrite count_token_matches_size in Hpos.
      rewrite intersection_empty_r_L, size_empty in Hpos. lia.
Qed.

(** * Properties of the placement operations *)

(** ** Names with a numeric suffix *)

Lemma string_length_app (s1 s2 : string) :
  String.length (s1 +:+ s2) = String.length s1 + String.length s2.
Proof.
  induction s1 as [|c s1 IH]; [done|].
  change (String c s1 +:+ s2) with (String c (s1 +:+ s2)). simpl. by rewrite IH.
Qed.

Lemma string_app_inj_r (s1 s2 e : string) : s1 +:+ e = s2 +:+ e → s1 = s2.
Proof.
  revert s2. induction s1 as [|c s1 IH]; intros [|d s2] H.
  - done.
  - apply (f_equal String.length) in H.
    rewrite !string_length_app in H. simpl in H. lia.
  - apply (f_equal String.length) in H.
    rewrite !string_length_app in H. simpl in H. lia.
  - change (String c (s1 +:+ e) = String d (s2 +:+ e)) in H.
    inversion H; subst. f_equal. by apply IH.
Qed.

Lemma decimal_inj (i j : nat) : decimal i = decimal j → i = j.
Proof.
  unfold decimal. intros H. apply Unsigned.to_uint_inj.
  apply (f_equal NilEmpty.uint_of_string) in H.
  rewrite !NilEmpty.usu in H. by inversion H.
Qed.

Lemma suffixed_inj (base ext : string) (i j : nat) :
  suffixed base ext i = suffixed base ext j → i = j.
Proof.
  unfold suffixed. intros H.
  apply String.app_inj in H. apply String.app_inj in H.
  apply string_app_inj_r in H. by apply decimal_inj.
Qed.

(** ** The collision loop *)

Section Probe.

Variable fs : FS.

Variable dirpath : path.

Variables base ext : string.

Lemma candidate_inj (i j : nat) :
  candidate dirpath base ext i = candidate dirpath base ext j → i = j.
Proof.
  unfold candidate. intros H. apply app_inv_head in H.
  inversion H as [H']. by apply suffixed_inj in H'.
Qed.

Lemma probe_finds (fuel start : nat) :
  (∃ k, start ≤ k < start + fuel ∧ fs !! candidate dirpath base ext k = None) →
  ∃ i, probe fuel fs dirpath base ext start = Ok (candidate dirpath base ext i)
       ∧ smallest_free fs dirpath base ext start i.
Proof.
  revert start. induction fuel as [|fuel IH]; intros start (k & Hk & Hfree); [lia|].
  simpl. fold (candidate dirpath base ext start). unfold exists_. case_bool_decide as Hex.
  - destruct (IH (S start)) as (i & Hi & Hle & Hnone & Hbelow).
    { exists k. split; [|exact Hfree].
      destruct (decide (k = start)) as [-> | ?]; [|lia].
      rewrite Hfree in Hex. by destruct Hex. }
    exists i. split; [exact Hi|]. split; [lia|]. split; [exact Hnone|].
    intros j Hj. destruct (decide (j = start)) as [-> | ?]; [exact Hex|].
    apply Hbelow. lia.
  - exists start. split; [done|]. split; [lia|]. split.
    + by apply eq_None_not_Some.
    + intros j Hj. lia.
Qed.

(** Among [size fs + 1] candidates one is free. *)
Lemma some_candidate_free (start : nat) :
  ∃ k, start ≤ k < start + probe_fuel fs ∧ fs !! candidate dirpath base ext k = None.
Proof.
  unfold probe_fuel.
  destruct (decide (Forall (λ k, is_Some (fs !! candidate dirpath base ext k))
                           (seq start (S (size fs)))))
    as [Hall | Hnot].
  - exfalso.
    assert (Hsub : list_to_set (candidate dirpath base ext <$> seq start (S (size fs))) ⊆ dom fs).
    { intros p Hp. apply elem_of_list_to_set, list_elem_of_fmap in Hp as (k & -> & Hk).
      apply elem_of_dom. rewrite Forall_forall in Hall. by apply Hall. }
    apply subseteq_size in Hsub. rewrite size_dom in Hsub.
    rewrite size_list_to_set in Hsub.
    + rewrite length_fmap, length_seq in Hsub. lia.
    + apply NoDup_fmap_2; [|apply NoDup_seq].
      intros i j. apply candidate_inj.
  - apply not_Forall_Exists in Hnot; [|apply _].
    apply Exists_exists in Hnot as (k & Hk & Hfree).
    apply elem_of_seq in Hk. exists k. split; [lia|].
    by apply eq_None_not_Some.
Qed.

Lemma probe_terminates (start : nat) :
  ∃ i, probe (probe_fuel fs) fs dirpath base ext start = Ok (candidate dirpath base ext i)
       ∧ smallest_free fs dirpath base ext start i.
Proof. apply probe_finds, some_candidate_free. Qed.

End Probe.

(** ** Copy and move under a free name *)

Lemma basename_app (dirpath : path) (name : string) : basename (dirpath ++ [name]) = name.
Proof. unfold basename. apply last_last. Qed.

Lemma dirname_app (dirpath : path) (name : string) : dirname (dirpath ++ [name]) = dirpath.
Proof. unfold dirname. apply removelast_last. Qed.

Lemma free_name_found (fs : FS) (dirpath : path) (name : string) :
  ∃ written,
    (if exists_ fs (dirpath ++ [name])
     then probe (probe_fuel fs) fs dirpath (splitext name).1 (splitext name).2 1
     else Ok (dirpath ++ [name])) = Ok written
    ∧ placed_as fs dirpath name written.
Proof.
  unfold exists_. case_bool_decide as Hex.
  - destruct (probe_terminates fs dirpath (splitext name).1 (splitext name).2 1)
      as (i & Hprobe & Hfree).
    exists (candidate dirpath (splitext name).1 (splitext name).2 i).
    split; [exact Hprobe|]. split; [apply Hfree|]. split.
    + intros Hnone. rewrite Hnone in Hex. by destruct Hex.
    + intros _. by exists i.
  - exists (dirpath ++ [name]). split; [done|].
    apply eq_None_not_Some in Hex. split; [exact Hex|]. split; [done|].
    intros Hsome. rewrite Hex in Hsome. by destruct Hsome.
Qed.

Lemma placed_as_dirname (fs : FS) (dirpath : path) (name : string) (written : path) :
  placed_as fs dirpath name written → dirname written = dirpath.
Proof.
  intros (_ & Hfree & Htaken).
  destruct (fs !! (dirpath ++ [name])) as [n|] eqn:E.
  - destruct Htaken as (i & _ & ->); [by eexists|]. apply dirname_app.
  - rewrite Hfree by done. apply dirname_app.
Qed.

Lemma safe_copy_spec (fs : FS) (src dirpath : path) (name data : string) :
  fs !! src = Some (File data) →
  isdir fs dirpath = true →
  ∃ written,
    safe_copy src (dirpath ++ [name]) fs = Ok (<[written := File data]> fs, written)
    ∧ placed_as fs dirpath name written.
Proof.
  intros Hsrc Hdir. unfold safe_copy.
  rewrite basename_app, dirname_app.
  destruct (splitext name) as [base ext] eqn:Hsplit.
  destruct (free_name_found fs dirpath name) as (written & Hfound & Hplaced).
  rewrite Hsplit in Hfound. cbn [fst snd] in Hfound. rewrite Hfound.
  cbn [bind]. exists written. split; [|exact Hplaced].
  unfold copy2. rewrite Hsrc.
  destruct Hplaced as (Hnone & Hrest). rewrite Hnone.
  rewrite (placed_as_dirname fs dirpath name written) by (split; assumption).
  by rewrite Hdir.
Qed.

Lemma flatten_file_spec (fs : FS) (extract_to root : path) (f : string) :
  root ≠ extract_to →
  ∃ written,
    flatten_file extract_to root fs f = Ok (move (root ++ [f]) written fs)
    ∧ placed_as fs extract_to f written.
Proof.
  intros Hroot. unfold flatten_file.
  case_bool_decide as Hne.
  - destruct (free_name_found fs extract_to f) as (written & Hfound & Hplaced).
    destruct (splitext f) as [base ext] eqn:Hsplit. cbn [fst snd] in Hfound.
    rewrite Hfound. cbn [bind]. by exists written.
  - exfalso. apply Hroot. by apply app_inj_tail in Hne as [-> _].
Qed.

Lemma flatten_file_in_place (fs : FS) (extract_to : path) (f : string) :
  flatten_file extract_to extract_to fs f = Ok fs.
Proof. unfold flatten_file. by case_bool_decide. Qed.

(** C6. [safe_copy] and the move of the flattening loop write under a name
    that did not exist: the intended name when it is free, otherwise the
    name with the smallest suffix [_i], from 1 on, before the extension
    that is free.  Every entry that existed is left as it was (but for the
    moved file, which leaves its old place), and a file that is already
    directly in the target directory is not moved. *)
Theorem placement_never_overwrites (fs : FS) (dirpath : path) (name data : string) :
  (∀ src,
     fs !! src = Some (File data) →
     isdir fs dirpath = true →
     ∃ written,
       safe_copy src (dirpath ++ [name]) fs = Ok (<[written := File data]> fs, written)
       ∧ placed_as fs dirpath name written
       ∧ ∀ p, is_Some (fs !! p) → <[written := File data]> fs !! p = fs !! p)
  ∧ (∀ root,
       root ≠ dirpath →
       fs !! (root ++ [name]) = Some (File data) →
       ∃ written,
         flatten_file dirpath root fs name
         = Ok (<[written := File data]> (delete (root ++ [name]) fs))
         ∧ placed_as fs dirpath name written
         ∧ ∀ p, is_Some (fs !! p) → p ≠ root ++ [name] →
                <[written := File data]> (delete (root ++ [name]) fs) !! p = fs !! p)
  ∧ flatten_file dirpath dirpath fs name = Ok fs.
Proof.
  split; [|split].
  - intros src Hsrc Hdir.
    destruct (safe_copy_spec fs src dirpath name data Hsrc Hdir)
      as (written & Hcopy & Hplaced).
    exists written. split; [exact Hcopy|]. split; [exact Hplaced|].
    intros p Hp. apply lookup_insert_ne. intros ->.
    destruct Hplaced as (Hnone & _). rewrite Hnone in Hp. by destruct Hp.
  - intros root Hroot Hsrc.
    destruct (flatten_file_spec fs dirpath root name Hroot)
      as (written & Hmove & Hplaced).
    exists written. unfold move in Hmove. rewrite Hsrc in Hmove.
    split; [exact Hmove|]. split; [exact Hplaced|].
    intros p Hp Hne. rewrite lookup_insert_ne.
    + by apply lookup_delete_ne.
    + intros ->. destruct Hplaced as (Hnone & _). rewrite Hnone in Hp. by destruct Hp.
  - apply flatten_file_in_place.
Qed.

(** ** Directory listings *)

Lemma child_name_spec (root p : path) (name : string) :
  child_name root p = Some name ↔ p = root ++ [name].
Proof.
  unfold child_name. split.
  - intros H. rewrite <- (take_drop (length root) p).
    destruct (drop (length root) p) as [|x [|y l]]; [done| |done].
    case_bool_decide as Htake; [|done]. inversion H; subst. by rewrite Htake.
  - intros ->. rewrite drop_app_length, take_app_length.
    by rewrite bool_decide_eq_true_2.
Qed.

Lemma elem_of_scandir (fs : FS) (root : path) (name : string) (n : node) :
  (name, n) ∈ scandir fs root ↔ fs !! (root ++ [name]) = Some n.
Proof.
  unfold scandir. rewrite list_elem_of_omap. split.
  - intros ([p m] & Hin & Hsome). apply elem_of_map_to_list in Hin.
    simpl in Hsome. destruct (child_name root p) as [x|] eqn:Hchild; [|done].
    simpl in Hsome. inversion Hsome; subst.
    apply child_name_spec in Hchild. by subst.
  - intros Hlook. exists (root ++ [name], n). split.
    + by apply elem_of_map_to_list.
    + simpl. assert (H : child_name root (root ++ [name]) = Some name)
        by by apply child_name_spec.
      by rewrite H.
Qed.

Lemma scandir_nil (fs : FS) (root : path) :
  scandir fs root = [] ↔ ∀ name, fs !! (root ++ [name]) = None.
Proof.
  split.
  - intros Hnil name. destruct (fs !! (root ++ [name])) as [n|] eqn:E; [|done].
    apply elem_of_scandir in E. rewrite Hnil in E. by apply elem_of_nil in E.
  - intros Hnone. destruct (scandir fs root) as [|[name n] l] eqn:E; [done|].
    assert (Hin : (name, n) ∈ scandir fs root) by (rewrite E; apply elem_of_cons; by left).
    apply elem_of_scandir in Hin. by rewrite Hnone in Hin.
Qed.

Lemma elem_of_nondirs (fs : FS) (root : path) (name : string) :
  name ∈ nondirs fs root ↔ ∃ data, fs !! (root ++ [name]) = Some (File data).
Proof.
  unfold nondirs. rewrite list_elem_of_fmap. split.
  - intros ([x n] & -> & Hin). apply list_elem_of_filter in Hin as [Hfile Hin].
    apply elem_of_scandir in Hin. destruct n as [data|]; [|done]. by exists data.
  - intros (data & Hlook). exists (name, File data). split; [done|].
    apply list_elem_of_filter. split; [done|]. by apply elem_of_scandir.
Qed.

Lemma elem_of_subdirs (fs : FS) (root : path) (name : string) :
  name ∈ subdirs fs root ↔ fs !! (root ++ [name]) = Some Dir.
Proof.
  unfold subdirs. rewrite list_elem_of_fmap. split.
  - intros ([x n] & -> & Hin). apply list_elem_of_filter in Hin as [Hdir Hin].
    apply elem_of_scandir in Hin. by destruct n.
  - intros Hlook. exists (name, Dir). split; [done|].
    apply list_elem_of_filter. split; [done|]. by apply elem_of_scandir.
Qed.

Lemma isdir_true (fs : FS) (p : path) : isdir fs p = true ↔ fs !! p = Some Dir.
Proof.
  unfold isdir. destruct (fs !! p) as [[data|]|]; split; intros H; congruence.
Qed.

Lemma isfile_true (fs : FS) (p : path) :
  isfile fs p = true ↔ ∃ data, fs !! p = Some (File data).
Proof.
  unfold isfile. destruct (fs !! p) as [[data|]|]; split.
  - by exists data.
  - done.
  - done.
  - by intros [d [=]].
  - done.
  - by intros [d [=]].
Qed.

#[global] Instance shorter_trans : Transitive shorter.
Proof. unfold shorter. intros p q r. lia. Qed.

#[global] Instance shorter_total : Total shorter.
Proof. unfold shorter. intros p q. lia. Qed.

Lemma elem_of_dirs_below (fs : FS) (top p : path) :
  p ∈ dirs_below fs top ↔ fs !! p = Some Dir ∧ top `prefix_of` p ∧ p ≠ top.
Proof.
  unfold dirs_below. rewrite merge_sort_Permutation, list_elem_of_filter.
  unfold below. rewrite isdir_true. split.
  - tauto.
  - intros (Hdir & Hpre & Hne). split; [done|].
    apply list_elem_of_fmap. exists (p, Dir). split; [done|].
    by apply elem_of_map_to_list.
Qed.

Lemma os_walk_roots (fs : FS) (top : path) :
  os_walk fs top = (λ root, (root, subdirs fs root, nondirs fs root)) <$> walk_roots fs top.
Proof. unfold os_walk, walk_roots. by destruct (isdir fs top). Qed.

Lemma elem_of_walk_roots (fs : FS) (top p : path) :
  p ∈ walk_roots fs top ↔ fs !! top = Some Dir ∧ fs !! p = Some Dir ∧ top `prefix_of` p.
Proof.
  unfold walk_roots. destruct (isdir fs top) eqn:Htop.
  - apply isdir_true in Htop. rewrite elem_of_cons, elem_of_dirs_below. split.
    + intros [-> | (Hdir & Hpre & _)]; [done | done].
    + intros (_ & Hdir & Hpre). destruct (decide (p = top)); [by left | by right].
  - split; [by intros ?%elem_of_nil|]. intros (Hdir & _). apply isdir_true in Hdir. congruence.
Qed.

(** ** The flattening pass *)

Lemma fold_result_app {A S : Type} (f : S → A → result S) (s : S) (l1 l2 : list A) :
  fold_result f s (l1 ++ l2) = bind (fold_result f s l1) (λ s', fold_result f s' l2).
Proof.
  revert s. induction l1 as [|a l1 IH]; intros s; simpl; [done|].
  destruct (f s a) as [s'| |]; simpl; [apply IH | done | done].
Qed.

Lemma fold_result_listed_files {S : Type} (g : path → S → string → result S) (s : S)
    (triples : list (path * list string * list string)) :
  fold_result (λ s (t : path * list string * list string), fold_result (g t.1.1) s t.2)
              s triples
  = fold_result (λ s (j : path * string), g j.1 s j.2) s (listed_files triples).
Proof.
  revert s. induction triples as [|[[root dirs] files] triples IH]; intros s; simpl; [done|].
  rewrite fold_result_app.
  assert (Hin : ∀ s, fold_result (g root) s files
                = fold_result (λ s (j : path * string), g j.1 s j.2) s
                    ((λ f, (root, f)) <$> files)).
  { clear. induction files as [|f files IHf]; intros s; simpl; [done|].
    destruct (g root s f); simpl; auto. }
  rewrite Hin. destruct (fold_result _ s _); simpl; auto.
Qed.

Lemma elem_of_listed_files (fs : FS) (top root : path) (f : string) :
  (root, f) ∈ listed_files (os_walk fs top)
  ↔ root ∈ walk_roots fs top ∧ ∃ data, fs !! (root ++ [f]) = Some (File data).
Proof.
  unfold listed_files. rewrite os_walk_roots, list_elem_of_In, in_flat_map. split.
  - intros (t & Ht & Hin).
    apply list_elem_of_In, list_elem_of_fmap in Ht as (r & -> & Hr). simpl in Hin.
    apply list_elem_of_In, list_elem_of_fmap in Hin as (x & Heq & Hx).
    inversion Heq; subst. split; [done|]. by apply elem_of_nondirs.
  - intros (Hroot & Hfile). exists (root, subdirs fs root, nondirs fs root). split.
    + apply list_elem_of_In, list_elem_of_fmap. by exists root.
    + simpl. apply list_elem_of_In, list_elem_of_fmap. exists f. split; [done|].
      by apply elem_of_nondirs.
Qed.

Lemma not_deep_child (top : path) (x : string) : ¬ deep top (top ++ [x]).
Proof.
  intros (root & y & Heq & _ & Hne). by apply app_inj_tail in Heq as [-> _].
Qed.

Lemma not_deep_outside (top p : path) : ¬ top `prefix_of` p → ¬ deep top p.
Proof.
  intros Hout (root & x & -> & Hpre & _). apply Hout.
  by apply prefix_app_r.
Qed.

Lemma flattening_refl (top : path) (fs : FS) : flattening top fs fs.
Proof. split; [done | done | by left]. Qed.

Lemma placed_as_child (fs : FS) (dirpath : path) (name : string) (written : path) :
  placed_as fs dirpath name written → ∃ x, written = dirpath ++ [x].
Proof.
  intros (_ & Hfree & Htaken).
  destruct (fs !! (dirpath ++ [name])) as [n|] eqn:E.
  - destruct Htaken as (i & _ & ->); [by eexists|]. by eexists.
  - rewrite Hfree by done. by eexists.
Qed.

Lemma flatten_file_step (top : path) (fs0 fs : FS) (root : path) (f : string) :
  flattening top fs0 fs →
  top `prefix_of` root →
  (∃ data, fs0 !! (root ++ [f]) = Some (File data)) →
  ∃ fs', flatten_file top root fs f = Ok fs'
         ∧ flattening top fs0 fs'
         ∧ (root ≠ top → fs' !! (root ++ [f]) = None)
         ∧ (∀ p n, deep top p → fs' !! p = Some n → fs !! p = Some n).
Proof.
  intros [Hdirs Hkeeps Hnew] Hpre (data & Hfile).
  destruct (decide (root = top)) as [-> | Hroot].
  { exists fs. rewrite flatten_file_in_place.
    split; [done|]. split; [by split|]. split; [by intros []|auto]. }
  destruct (flatten_file_spec fs top root f Hroot) as (written & -> & Hplaced).
  destruct (placed_as_child _ _ _ _ Hplaced) as (x & ->).
  destruct Hplaced as (Hnone & _).
  exists (move (root ++ [f]) (top ++ [x]) fs). split; [done|].
  assert (Hdeep : deep top (root ++ [f])) by (by exists root, f).
  assert (Hsrc_ne : root ++ [f] ≠ top ++ [x]).
  { intros Heq. by apply app_inj_tail in Heq as [-> _]. }
  unfold move. destruct (fs !! (root ++ [f])) as [n|] eqn:Hsrc.
  - assert (Hn : n = File data).
    { destruct (Hnew _ _ Hsrc) as [H0 | (y & d & Heq & _)].
      - congruence.
      - exfalso. rewrite Heq in Hdeep. by apply not_deep_child in Hdeep. }
    subst n. split; [split|split].
    + intros p. destruct (decide (p = top ++ [x])) as [-> | Hp1].
      * rewrite lookup_insert_eq. split; [done|]. intros H0.
        apply Hdirs in H0. congruence.
      * rewrite lookup_insert_ne by done.
        destruct (decide (p = root ++ [f])) as [-> | Hp2].
        -- rewrite lookup_delete_eq. split; [done|]. congruence.
        -- rewrite lookup_delete_ne by done. apply Hdirs.
    + intros p n H0 Hnd. pose proof (Hkeeps _ _ H0 Hnd) as Hp.
      rewrite lookup_insert_ne by congruence.
      rewrite lookup_delete_ne; [done|]. by intros <-.
    + intros p n. destruct (decide (p = top ++ [x])) as [-> | Hp1].
      * rewrite lookup_insert_eq. intros [= <-]. right. by exists x, data.
      * rewrite lookup_insert_ne by done.
        destruct (decide (p = root ++ [f])) as [-> | Hp2].
        -- by rewrite lookup_delete_eq.
        -- rewrite lookup_delete_ne by done. apply Hnew.
    + intros _. rewrite lookup_insert_ne by done. apply lookup_delete_eq.
    + intros p n Hp. destruct (decide (p = top ++ [x])) as [-> | Hp1].
      * by apply not_deep_child in Hp.
      * rewrite lookup_insert_ne by done.
        destruct (decide (p = root ++ [f])) as [-> | Hp2].
        -- by rewrite lookup_delete_eq.
        -- by rewrite lookup_delete_ne.
  - split; [by split|]. split; [done | auto].
Qed.




(** ** The removal of the emptied directories *)

Lemma foldl_listed_dirs {S : Type} (g : path → S → S) (s : S)
    (triples : list (path * list string * list string)) :
  foldl (λ s (t : path * list string * list string),
           foldl (λ s d, g (t.1.1 ++ [d]) s) s t.1.2) s triples
  = foldl (λ s p, g p s) s (listed_dirs triples).
Proof.
  revert s. induction triples as [|[[root dirs] files] triples IH]; intros s; simpl; [done|].
  rewrite foldl_app, <- IH. f_equal. simpl.
  clear. revert s. induction dirs as [|d dirs IHd]; intros s; simpl; [done | apply IHd].
Qed.





Lemma elem_of_listed_dirs (fs : FS) (top p : path) :
  p ∈ listed_dirs (os_walk_bottomup fs top)
  ↔ ∃ root d, p = root ++ [d] ∧ root ∈ walk_roots fs top ∧ fs !! p = Some Dir.
Proof.
  unfold listed_dirs, os_walk_bottomup.
  rewrite os_walk_roots, list_elem_of_In, in_flat_map. split.
  - intros (t & Ht & Hin).
    apply list_elem_of_In, elem_of_reverse, list_elem_of_fmap in Ht as (r & -> & Hr).
    simpl in Hin. apply list_elem_of_In, list_elem_of_fmap in Hin as (d & -> & Hd).
    exists r, d. split; [done|]. split; [done|]. by apply elem_of_subdirs.
  - intros (root & d & -> & Hroot & Hdir).
    exists (root, subdirs fs root, nondirs fs root). split.
    + apply list_elem_of_In, elem_of_reverse, list_elem_of_fmap. by exists root.
    + simpl. apply list_elem_of_In, list_elem_of_fmap. exists d. split; [done|].
      by apply elem_of_subdirs.
Qed.

Lemma try_rmdir_cases (p : path) (fs : FS) :
  (try_rmdir p fs = delete p fs ∧ fs !! p = Some Dir ∧ ∀ x, fs !! (p ++ [x]) = None)
  ∨ (try_rmdir p fs = fs
     ∧ (fs !! p ≠ Some Dir ∨ ∃ x, is_Some (fs !! (p ++ [x])))).
Proof.
  unfold try_rmdir. destruct (isdir fs p) eqn:Hdir; simpl.
  - apply isdir_true in Hdir. case_bool_decide as Hnil.
    + left. split; [done|]. split; [done|]. by apply scandir_nil.
    + right. split; [done|]. right.
      destruct (scandir fs p) as [|[x n] l] eqn:E; [done|].
      exists x. exists n. apply elem_of_scandir. rewrite E. apply elem_of_cons. by left.
  - right. split; [done|]. left. intros H. apply isdir_true in H. congruence.
Qed.


(** ** Flattening a directory *)

Lemma deep_strictly_below (top p : path) : deep top p → strictly_below top p.
Proof.
  intros (root & x & -> & Hpre & Hne). split; [by apply prefix_app_r|].
  intros Heq. apply prefix_length in Hpre. apply (f_equal length) in Heq.
  rewrite length_app in Heq. simpl in Heq. lia.
Qed.


Lemma flatten_not_dir (top : path) (w : World) :
  isdir (fs w) top = false → flatten top w = Ok (with_fs w (fs w)).
Proof.
  intros Hnot.
  assert (Hwalk : os_walk (fs w) top = []) by (unfold os_walk; by rewrite Hnot).
  unfold flatten, flatten_pass. rewrite Hwalk. simpl.
  unfold rmdir_pass, os_walk_bottomup. by rewrite Hwalk.
Qed.


(** ** Well-formed file systems *)

Lemma wf_insert (fs : FS) (parent : path) (x : string) (n : node) :
  fs_wf fs →
  parent = [] ∨ fs !! parent = Some Dir →
  n = Dir ∨ fs !! (parent ++ [x]) ≠ Some Dir →
  fs_wf (<[parent ++ [x] := n]> fs).
Proof.
  intros Hwf Hparent Hn q y m Hq Hne.
  assert (Hq_dir : fs !! q = Some Dir).
  { destruct (decide (q ++ [y] = parent ++ [x])) as [Heq | Hneq].
    - apply app_inj_tail in Heq as [-> _]. by destruct Hparent.
    - rewrite lookup_insert_ne in Hq by done. by eapply Hwf. }
  destruct (decide (q = parent ++ [x])) as [-> | Hneq].
  - rewrite lookup_insert_eq. destruct Hn as [-> | Hn]; [done | congruence].
  - by rewrite lookup_insert_ne.
Qed.

Lemma wf_parent (fs : FS) (p : path) :
  fs_wf fs → p = [] ∨ fs !! p = Some Dir →
  removelast p = [] ∨ fs !! removelast p = Some Dir.
Proof.
  intros Hwf Hp. destruct p as [|x p _] using rev_ind; [by left|].
  rewrite removelast_last. destruct Hp as [Hp | Hp].
  - by destruct p.
  - destruct (decide (p = [])) as [-> | Hne]; [by left | right].
    by eapply Hwf.
Qed.

Lemma makedirs_walk_spec (comps : list string) (cur : path) (fs fs' : FS) (r : path) :
  makedirs_walk cur comps fs = Ok (fs', r) →
  (∀ p n, fs !! p = Some n → fs' !! p = Some n)
  ∧ (∀ p n, fs' !! p = Some n → fs !! p = Some n ∨ n = Dir)
  ∧ (fs_wf fs → cur = [] ∨ fs !! cur = Some Dir →
     fs_wf fs' ∧ (r = [] ∨ fs' !! r = Some Dir)).
Proof.
  revert cur fs. induction comps as [|c comps IH]; intros cur fs Hwalk; simpl in Hwalk.
  - inversion Hwalk; subst. split; [done|]. split; [by left | done].
  - destruct (bool_decide (c = "") || bool_decide (c = ".")); [by apply IH|].
    destruct (bool_decide (c = "..")).
    + destruct (IH _ _ Hwalk) as (H1 & H2 & H3). split; [done|]. split; [done|].
      intros Hwf Hcur. apply H3; [done|]. by apply wf_parent.
    + destruct (fs !! (cur ++ [c])) as [[data|]|] eqn:Hnext; [done| |].
      * destruct (IH _ _ Hwalk) as (H1 & H2 & H3). split; [done|]. split; [done|].
        intros Hwf Hcur. apply H3; [done|]. by right.
      * destruct (IH _ _ Hwalk) as (H1 & H2 & H3). split; [|split].
        -- intros p n Hp. apply H1. rewrite lookup_insert_ne; [done|]. congruence.
        -- intros p n Hp. destruct (H2 _ _ Hp) as [Hold | ->]; [|by right].
           destruct (decide (p = cur ++ [c])) as [-> | Hne].
           ++ rewrite lookup_insert_eq in Hold. right. congruence.
           ++ rewrite lookup_insert_ne in Hold by done. by left.
        -- intros Hwf Hcur. apply H3.
           ++ apply wf_insert; [done | done | by left].
           ++ right. apply lookup_insert_eq.
Qed.

Lemma makedirs_rev_spec (rname : list string) (fs fs' : FS) :
  makedirs_rev rname fs = Ok fs' →
  (∀ q n, fs !! q = Some n → fs' !! q = Some n)
  ∧ (∀ q n, fs' !! q = Some n →
            fs !! q = Some n ∨ (n = Dir ∧ q `prefix_of` reverse rname))
  ∧ (fs_wf fs → fs_wf fs')
  ∧ (rname ≠ [] → fs' !! reverse rname = Some Dir).
Proof.
  revert fs fs'. induction rname as [|x rhead IH]; intros fs fs' Hmk; simpl in Hmk.
  - inversion Hmk; subst. split; [done|]. split; [by left|]. by split.
  - assert (Hhead : ∃ fs1,
              (if bool_decide (rhead = []) || exists_ fs (reverse rhead) then Ok fs
               else makedirs_rev rhead fs) = Ok fs1
              ∧ (∀ q n, fs !! q = Some n → fs1 !! q = Some n)
              ∧ (∀ q n, fs1 !! q = Some n →
                        fs !! q = Some n ∨ (n = Dir ∧ q `prefix_of` reverse rhead))
              ∧ (fs_wf fs → fs_wf fs1)).
    { destruct (bool_decide (rhead = []) || exists_ fs (reverse rhead)).
      - exists fs. split; [done|]. split; [done|]. split; [by left | done].
      - destruct (makedirs_rev rhead fs) as [fs1| |] eqn:E; [|done|done].
        exists fs1. split; [done|]. destruct (IH _ _ E) as (H1 & H2 & H3 & _). done. }
    destruct Hhead as (fs1 & Heq & H1 & H2 & H3). rewrite Heq in Hmk. simpl in Hmk.
    rewrite reverse_cons in *.
    assert (Hweak : ∀ q, q `prefix_of` reverse rhead → q `prefix_of` reverse rhead ++ [x])
      by (intros q; apply prefix_app_r).
    destruct (fs1 !! (reverse rhead ++ [x])) as [[data|]|] eqn:Hname; [done| |].
    + inversion Hmk; subst. split; [done|]. split; [|by split].
      intros q n Hq. destruct (H2 _ _ Hq) as [? | [? ?]]; [by left | right; auto].
    + destruct (bool_decide (rhead = []) || isdir fs1 (reverse rhead)) eqn:Hup; [|done].
      inversion Hmk; subst. split; [|split; [|split]].
      * intros q n Hq. rewrite lookup_insert_ne; [by apply H1|].
        intros <-. apply H1 in Hq. congruence.
      * intros q n. destruct (decide (q = reverse rhead ++ [x])) as [-> | Hne].
        -- rewrite lookup_insert_eq. intros [= <-]. by right.
        -- rewrite lookup_insert_ne by done. intros Hq.
           destruct (H2 _ _ Hq) as [? | [? ?]]; [by left | right; auto].
      * intros Hwf. apply wf_insert; [by apply H3 | | by left].
        apply orb_true_iff in Hup as [Hnil | Hdir].
        -- left. apply bool_decide_eq_true in Hnil. by subst.
        -- right. by apply isdir_true.
      * intros _. apply lookup_insert_eq.
Qed.

Lemma makedirs_spec (p : path) (fs fs' : FS) :
  makedirs p fs = Ok fs' →
  (∀ q n, fs !! q = Some n → fs' !! q = Some n)
  ∧ (∀ q n, fs' !! q = Some n → fs !! q = Some n ∨ (n = Dir ∧ q `prefix_of` p))
  ∧ (fs_wf fs → fs_wf fs')
  ∧ (p ≠ [] → fs' !! p = Some Dir).
Proof.
  unfold makedirs. destruct (isdir fs p) eqn:Hdir.
  - intros [= <-]. apply isdir_true in Hdir. split; [done|]. split; [by left|].
    by split.
  - intros Hmk. destruct (makedirs_rev_spec _ _ _ Hmk) as (H1 & H2 & H3 & H4).
    rewrite reverse_involutive in *. split; [done|]. split; [done|]. split; [done|].
    intros Hp. apply H4. intros Hnil. apply Hp.
    by rewrite <- (reverse_involutive p), Hnil.
Qed.

Lemma makedirs_existing (p : path) (fs : FS) :
  fs !! p = Some Dir → makedirs p fs = Ok fs.
Proof. intros Hp. unfold makedirs. apply isdir_true in Hp. by rewrite Hp. Qed.

Lemma wf_no_child_of_file (fs : FS) (p : path) (x data : string) :
  fs_wf fs → p ≠ [] → fs !! p = Some (File data) → fs !! (p ++ [x]) = None.
Proof.
  intros Hwf Hne Hp. destruct (fs !! (p ++ [x])) as [n|] eqn:E; [|done].
  pose proof (Hwf _ _ _ E Hne). congruence.
Qed.



(** ** The archive routine *)



(** ** Folder names without a separator *)

Lemma has_char_app (c : ascii) (s t : string) :
  has_char c (s +:+ t) = has_char c s || has_char c t.
Proof.
  induction s as [|d s IH]; [done|].
  change (String d s +:+ t) with (String d (s +:+ t)). simpl.
  by rewrite IH, orb_assoc.
Qed.

Lemma has_char_map_chars (c : ascii) (f : ascii → ascii) (s : string) :
  (∀ d, f d ≠ c) → has_char c (map_chars f s) = false.
Proof.
  intros Hf. induction s as [|d s IH]; simpl; [done|].
  rewrite IH, orb_false_r. apply Ascii.eqb_neq, Hf.
Qed.

Lemma sanitize_folder_part_no_sep (s : option string) :
  has_char "/" (sanitize_folder_part s) = false.
Proof.
  unfold sanitize_folder_part.
  destruct (nonempty _); [|done].
  apply has_char_map_chars. intros d.
  destruct (is_folder_safe d) eqn:Hsafe; [|done].
  intros ->. discriminate Hsafe.
Qed.

Lemma uint_no_sep (d : Decimal.uint) : has_char "/" (NilEmpty.string_of_uint d) = false.
Proof. induction d; simpl; auto. Qed.

Lemma decimal_no_sep (i : nat) : has_char "/" (decimal i) = false.
Proof. apply uint_no_sep. Qed.

Lemma split_sep_go_no_sep (cur s : string) :
  has_char "/" s = false → split_sep_go cur s = [cur +:+ s].
Proof.
  revert cur. induction s as [|d s IH]; intros cur Hs; simpl.
  - f_equal. induction cur as [|e cur IHc]; [done|].
    change (String e cur +:+ "") with (String e (cur +:+ "")). by rewrite <- IHc.
  - simpl in Hs. apply orb_false_iff in Hs as [Hd Hs]. rewrite Hd.
    rewrite IH by done. f_equal.
    clear. induction cur as [|e cur IHc]; [done|].
    change (String e cur +:+ String d s) with (String e (cur +:+ String d s)).
    change (String e cur +:+ String d "") with (String e (cur +:+ String d "")).
    change (String e (cur +:+ String d "") +:+ s)
      with (String e ((cur +:+ String d "") +:+ s)).
    by rewrite IHc.
Qed.

Lemma load_csv_rows_plain (reader : list Row) (idx : nat) (row : Row) :
  plain_roster reader →
  row ∈ load_csv_rows_from idx reader →
  has_char "/" (row_index row) = false.
Proof.
  revert idx. induction reader as [|r reader IH]; intros idx Hplain Hin; simpl in Hin.
  - by apply elem_of_nil in Hin.
  - inversion Hplain as [|? ? Hr Hrest]; subst.
    apply elem_of_cons in Hin as [-> | Hin]; [|by eapply IH].
    unfold row_index. destruct (truthy (r !! "index")) eqn:Hidx.
    + by rewrite Hidx.
    + rewrite lookup_insert_ne by done. rewrite Hidx.
      rewrite lookup_insert_eq. simpl.
      destruct (decimal idx) eqn:E; [done|]. rewrite <- E. apply decimal_no_sep.
Qed.

Lemma folder_name_no_sep (row : Row) :
  has_char "/" (row_index row) = false → has_char "/" (folder_name_of row) = false.
Proof.
  intros Hidx. unfold folder_name_of.
  rewrite !has_char_app, Hidx, !sanitize_folder_part_no_sep. done.
Qed.

Lemma folder_name_not_special (row : Row) : is_special_part (folder_name_of row) = false.
Proof.
  assert (Hus : has_char "_" (folder_name_of row) = true).
  { unfold folder_name_of. rewrite !has_char_app.
    by destruct (has_char "_" (row_index row)). }
  unfold is_special_part.
  destruct (decide (folder_name_of row = "")) as [H | H1];
    [rewrite H in Hus; discriminate Hus|].
  destruct (decide (folder_name_of row = ".")) as [H | H2];
    [rewrite H in Hus; discriminate Hus|].
  destruct (decide (folder_name_of row = "..")) as [H | H3];
    [rewrite H in Hus; discriminate Hus|].
  by rewrite !bool_decide_eq_false_2.
Qed.

Lemma path_join_plain (folder : string) :
  has_char "/" folder = false →
  starts_with "/" (path_join OUTPUT_DIR folder) = false
  ∧ split_sep (path_join OUTPUT_DIR folder) = [OUTPUT_DIR; folder].
Proof.
  intros Hplain.
  assert (Hstart : starts_with "/" folder = false).
  { destruct folder as [|c folder]; [done|]. simpl in Hplain.
    apply orb_false_iff in Hplain as [Hc _]. unfold starts_with.
    change (String.prefix "/" (String c folder))
      with (match ascii_dec "/" c with
            | left _ => String.prefix "" folder
            | right _ => false
            end).
    destruct (ascii_dec "/" c) as [<- | Hne]; [discriminate Hc | reflexivity]. }
  unfold path_join. rewrite Hstart. split; [done|].
  unfold split_sep.
  change (split_sep_go "" (OUTPUT_DIR +:+ "/" +:+ folder))
    with (OUTPUT_DIR :: split_sep_go "" folder).
  by rewrite split_sep_go_no_sep.
Qed.

Lemma makedirs_str_plain (cwd : path) (row : Row) (fs : FS) :
  has_char "/" (row_index row) = false →
  makedirs_str cwd (path_join OUTPUT_DIR (folder_name_of row)) fs
  = makedirs_walk cwd [OUTPUT_DIR; folder_name_of row] fs.
Proof.
  intros Hplain. apply folder_name_no_sep in Hplain.
  destruct (path_join_plain _ Hplain) as [Hstart Hsplit].
  unfold makedirs_str. by rewrite Hstart, Hsplit.
Qed.

(** ** What a placement may touch *)

Lemma touches_only_refl (target : path) (fs : FS) : touches_only target fs fs.
Proof. by intros q _. Qed.

Lemma touches_only_trans (target : path) (fs1 fs2 fs3 : FS) :
  touches_only target fs1 fs2 → touches_only target fs2 fs3 → touches_only target fs1 fs3.
Proof. intros H12 H23 q Hq. by rewrite H23, H12. Qed.

Lemma touches_only_insert (target q : path) (n : node) (fs : FS) :
  on_branch target q → touches_only target fs (<[q := n]> fs).
Proof. intros Hq p Hp. apply lookup_insert_ne. by intros ->. Qed.

Lemma on_branch_prefix_of_below (target p q : path) :
  target `prefix_of` p → q `prefix_of` p → on_branch target q.
Proof. intros Ht Hq. unfold on_branch. destruct (prefix_weak_total _ _ _ Hq Ht); auto. Qed.

Lemma flatten_listed_total (top : path) (fs0 : FS) (jobs : list (path * string)) (fs : FS) :
  flattening top fs0 fs →
  Forall (λ j : path * string,
            top `prefix_of` j.1 ∧ ∃ data, fs0 !! (j.1 ++ [j.2]) = Some (File data)) jobs →
  ∃ fs', fold_result (λ s (j : path * string), flatten_file top j.1 s j.2) fs jobs = Ok fs'
         ∧ flattening top fs0 fs'.
Proof.
  revert fs. induction jobs as [|[root f] jobs IH]; intros fs Hinv Hjobs.
  - by exists fs.
  - inversion Hjobs as [|? ? [Hpre Hfile] Hjobs']; subst. simpl in Hpre, Hfile.
    destruct (flatten_file_step top fs0 fs root f Hinv Hpre Hfile)
      as (fs1 & Hstep & Hinv1 & _).
    simpl. rewrite Hstep. simpl. by apply IH.
Qed.

Lemma rmdir_frame (top : path) (jobs : list path) (fs : FS) :
  Forall (strictly_below top) jobs →
  let fs' := foldl (λ s p, try_rmdir p s) fs jobs in
  (∀ p n, fs' !! p = Some n → fs !! p = Some n)
  ∧ (∀ p n, fs !! p = Some n → n ≠ Dir ∨ ¬ strictly_below top p → fs' !! p = Some n).
Proof.
  revert fs. induction jobs as [|q jobs IH]; intros fs Hbelow; simpl; [done|].
  inversion Hbelow as [|? ? Hq Hbelow']; subst.
  destruct (IH (try_rmdir q fs) Hbelow') as (H2 & H3).
  destruct (try_rmdir_cases q fs) as [(Heq & Hdir & _) | (Heq & _)]; rewrite Heq in *.
  - split.
    + intros p n Hp. apply H2 in Hp. destruct (decide (p = q)) as [-> | Hne].
      * by rewrite lookup_delete_eq in Hp.
      * by rewrite lookup_delete_ne in Hp.
    + intros p n Hp Hkeep. apply H3; [|done]. rewrite lookup_delete_ne; [done|].
      intros <-. destruct Hkeep as [Hn | Hnb]; [congruence | by apply Hnb].
  - by split.
Qed.

(** The flattening always returns; it keeps what is not below [top], the
    files directly in [top], and adds files directly in [top] only. *)
Lemma flatten_total (top : path) (w : World) :
  ∃ fs2, flatten top w = Ok (with_fs w fs2)
         ∧ (∀ p, ¬ strictly_below top p → fs2 !! p = fs w !! p)
         ∧ (∀ p data, fs w !! p = Some (File data) → ¬ deep top p →
                      fs2 !! p = Some (File data))
         ∧ (∀ p n, fs2 !! p = Some n →
                   fs w !! p = Some n ∨ ∃ x data, p = top ++ [x] ∧ n = File data).
Proof.
  destruct (isdir (fs w) top) eqn:Htop.
  2: { exists (fs w). split; [by apply flatten_not_dir|]. split; [done|]. split; [done|].
       intros p n Hp. by left. }
  unfold flatten, flatten_pass.
  rewrite (fold_result_listed_files (flatten_file top)).
  destruct (flatten_listed_total top (fs w) (listed_files (os_walk (fs w) top)) (fs w))
    as (fs1 & -> & [Hdirs Hkeeps Hnew]).
  { apply flattening_refl. }
  { apply Forall_forall. intros [root f] Hin.
    apply elem_of_listed_files in Hin as [Hroot Hfile].
    apply elem_of_walk_roots in Hroot as (_ & _ & Hpre). by split. }
  simpl. exists (rmdir_pass top fs1). split; [done|].
  unfold rmdir_pass. rewrite (foldl_listed_dirs (λ p s, try_rmdir p s)).
  destruct (rmdir_frame top (listed_dirs (os_walk_bottomup fs1 top)) fs1) as (Hsub & Hkept).
  { apply Forall_forall. intros p (root & d & -> & Hroot & Hdir)%elem_of_listed_dirs.
    apply elem_of_walk_roots in Hroot as (_ & _ & Hpre). split.
    - by apply prefix_app_r.
    - intros Heq. apply prefix_length in Hpre. apply (f_equal length) in Heq.
      rewrite length_app in Heq. simpl in Heq. lia. }
  set (fs2 := foldl (λ s p, try_rmdir p s) fs1 (listed_dirs (os_walk_bottomup fs1 top))) in *.
  split; [|split].
  - intros p Hnb. destruct (fs w !! p) as [n|] eqn:E.
    + apply Hkept; [|by right]. apply Hkeeps; [done|].
      intros Hd. by apply Hnb, deep_strictly_below.
    + destruct (fs2 !! p) as [n|] eqn:E2; [|done].
      apply Hsub, Hnew in E2 as [E2 | (x & d & -> & _)]; [congruence|].
      exfalso. apply Hnb. split; [by apply prefix_app_r|].
      intros Heq. apply (f_equal length) in Heq. rewrite length_app in Heq.
      simpl in Heq. lia.
  - intros p data Hp Hnd. apply Hkept; [|by left]. by apply Hkeeps.
  - intros p n Hp. by apply Hnew, Hsub.
Qed.

Lemma flatten_touches_only (top : path) (w w' : World) :
  flatten top w = Ok w' → log w' = log w ∧ touches_only top (fs w) (fs w').
Proof.
  destruct (flatten_total top w) as (fs2 & -> & Hframe & _). intros [= <-].
  split; [done|]. intros q Hq. apply Hframe. intros [Hpre _]. apply Hq. by right.
Qed.

(** ** Extraction *)

Lemma makedirs_touches (p : path) (fs fs' : FS) :
  makedirs p fs = Ok fs' → ∀ q, ¬ q `prefix_of` p → fs' !! q = fs !! q.
Proof.
  intros Hmk q Hq. destruct (makedirs_spec _ _ _ Hmk) as (H1 & H2 & _).
  destruct (fs' !! q) as [n|] eqn:E.
  - destruct (H2 _ _ E) as [? | [_ ?]]; done.
  - destruct (fs !! q) as [n|] eqn:E0; [|done]. apply H1 in E0. congruence.
Qed.

Lemma extract_member_touches (extract_to : path) (m : member) (fs fs' : FS) :
  extract_member extract_to m fs = Some fs' → touches_only extract_to fs fs'.
Proof.
  unfold extract_member.
  set (comps := filter _ _). set (target := extract_to ++ comps).
  assert (Htarget : on_branch extract_to target) by (right; by apply prefix_app_r).
  assert (Hupper : ∀ q, q `prefix_of` dirname target → on_branch extract_to q).
  { intros q Hq. apply (on_branch_prefix_of_below _ target); [by apply prefix_app_r|].
    etrans; [exact Hq|]. unfold dirname.
    destruct target as [|x t _] using rev_ind; [done|].
    rewrite removelast_last. by apply prefix_app_r. }
  set (made := if exists_ fs (dirname target) then Some fs else _).
  assert (Hmade : ∀ fs1, made = Some fs1 → touches_only extract_to fs fs1).
  { unfold made. destruct (exists_ fs (dirname target)).
    - intros fs1 [= <-]. apply touches_only_refl.
    - destruct (makedirs (dirname target) fs) as [fs1| |] eqn:E; [|done|done].
      intros ? [= <-] q Hq. eapply makedirs_touches; [exact E|].
      intros Hpre. by apply Hq, Hupper. }
  destruct made as [fs1|]; [|done]. specialize (Hmade fs1 eq_refl).
  destruct (ends_with "/" m.1).
  - destruct (isdir fs1 target); [by intros [= <-]|].
    destruct (exists_ fs1 target || negb (isdir fs1 (dirname target))); [done|].
    intros [= <-]. eapply touches_only_trans; [exact Hmade|].
    by apply touches_only_insert.
  - destruct (fs1 !! target) as [[data|]|]; [|done|].
    + destruct (isdir fs1 (dirname target)); [|done]. intros [= <-].
      eapply touches_only_trans; [exact Hmade|]. by apply touches_only_insert.
    + destruct (isdir fs1 (dirname target)); [|done]. intros [= <-].
      eapply touches_only_trans; [exact Hmade|]. by apply touches_only_insert.
Qed.

Lemma extractall_touches (extract_to : path) (members : list member) (fs : FS) :
  touches_only extract_to fs (extractall extract_to members fs).1.
Proof.
  revert fs. induction members as [|m ms IH]; intros fs; simpl.
  - apply touches_only_refl.
  - destruct (extract_member extract_to m fs) as [fs'|] eqn:E.
    + eapply touches_only_trans; [by eapply extract_member_touches | apply IH].
    + apply touches_only_refl.
Qed.

(** ** The log of a run *)

Lemma extends_log_refl (w w' : World) : log w' = log w → extends_log w w'.
Proof. intros H. exists []. by rewrite app_nil_r. Qed.

Lemma extends_log_trans (w1 w2 w3 : World) :
  extends_log w1 w2 → extends_log w2 w3 → extends_log w1 w3.
Proof.
  intros (l1 & H1 & G1) (l2 & H2 & G2). exists (l1 ++ l2).
  split; [by rewrite H2, H1, app_assoc | by apply Forall_app].
Qed.

Lemma extends_log_say (m : message) (w w' : World) :
  extends_log w w' → extends_log w (say m w').
Proof.
  intros H. eapply extends_log_trans; [exact H|].
  exists [Print m]. split; [done | by repeat constructor].
Qed.

Lemma step_ok_refl (target : path) (w : World) : step_ok target w w.
Proof. split; [by apply extends_log_refl | apply touches_only_refl]. Qed.

Lemma step_ok_trans (target : path) (w1 w2 w3 : World) :
  step_ok target w1 w2 → step_ok target w2 w3 → step_ok target w1 w3.
Proof.
  intros [L1 T1] [L2 T2].
  split; [by eapply extends_log_trans | by eapply touches_only_trans].
Qed.

Lemma step_ok_say (target : path) (m : message) (w w' : World) :
  step_ok target w w' → step_ok target w (say m w').
Proof. intros [L T]. split; [by apply extends_log_say | done]. Qed.

Lemma step_ok_flatten (top : path) (w0 w w' : World) :
  step_ok top w0 w → flatten top w = Ok w' → step_ok top w0 w'.
Proof.
  intros Hstep Hflat. apply flatten_touches_only in Hflat as [Hlog Htouch].
  eapply step_ok_trans; [exact Hstep|]. split; [by apply extends_log_refl | done].
Qed.

Lemma flatten_returns (top : path) (w : World) : ∃ w', flatten top w = Ok w'.
Proof. destruct (flatten_total top w) as (fs2 & H & _). eauto. Qed.

(** On an existing target directory the archive routine returns. *)
Lemma extract_and_flatten_archive_total (env : Env) (archive_path extract_to : path)
    (w : World) :
  fs w !! extract_to = Some Dir →
  ∃ w', extract_and_flatten_archive env archive_path extract_to w = Ok w'
        ∧ step_ok extract_to w w'.
Proof.
  intros Hdir. unfold extract_and_flatten_archive.
  rewrite makedirs_existing by done. simpl.
  assert (Hw : with_fs w (fs w) = w) by by destruct w. rewrite Hw.
  assert (Hgo : ∀ w1, step_ok extract_to w w1 →
            ∃ w', flatten extract_to w1 = Ok w' ∧ step_ok extract_to w w').
  { intros w1 H1. destruct (flatten_returns extract_to w1) as (w' & Hw').
    exists w'. split; [done|]. by eapply step_ok_flatten. }
  assert (Hex : ∀ members,
            step_ok extract_to w (with_fs w (extractall extract_to members (fs w)).1)).
  { intros members. split; [by apply extends_log_refl | apply extractall_touches]. }
  destruct (ends_with ".zip" (lower (basename archive_path))).
  - destruct (read_file (fs w) archive_path) as [data|].
    + destruct (zip_read env data) as [members corrupt].
      specialize (Hex members).
      destruct (extractall extract_to members (fs w)) as [fs1 written].
      destruct (written && negb corrupt); apply Hgo; [done | by apply step_ok_say].
    + apply Hgo, step_ok_say, step_ok_refl.
  - destruct (ends_with ".rar" (lower (basename archive_path))); [|apply Hgo, step_ok_refl].
    destruct (RARFILE_AVAILABLE env); simpl.
    2: { eexists. split; [done|]. apply step_ok_say, step_ok_refl. }
    destruct (read_file (fs w) archive_path) as [data|].
    2: { eexists. split; [done|]. apply step_ok_say, step_ok_refl. }
    destruct (rar_read env data) as [|members corrupt].
    { eexists. split; [done|]. apply step_ok_say, step_ok_refl. }
    specialize (Hex members).
    destruct (extractall extract_to members (fs w)) as [fs1 written].
    destruct (written && negb corrupt); [by apply Hgo|].
    eexists. split; [done|]. by apply step_ok_say.
Qed.

(** ** The conversion pass *)

Lemma libreoffice_convert_spec (env : Env) (target root : path) (f : string) (w : World) :
  target `prefix_of` root →
  fs w !! (root ++ [pdf_name f]) = None →
  step_ok target w (libreoffice_convert_docx_to_pdf env (root ++ [f]) root w).1.
Proof.
  intros Hpre Hnone. unfold libreoffice_convert_docx_to_pdf.
  destruct (libreoffice_in_path env); simpl; [|apply step_ok_say, step_ok_refl].
  assert (Hstart : step_ok target w (mkWorld (fs w) (log w ++ [Exec (root ++ [f]) root (fs w)]))).
  { split; [|apply touches_only_refl]. exists [Exec (root ++ [f]) root (fs w)].
    split; [done|]. constructor; [|constructor]. simpl.
    by rewrite dirname_app, basename_app. }
  destruct (soffice env (root ++ [f]) root (fs w)) as [|out]; simpl.
  - by apply step_ok_say.
  - rewrite basename_app. eapply step_ok_trans; [exact Hstart|].
    split; [by apply extends_log_refl|]. simpl.
    destruct out as [pdf|]; [|apply touches_only_refl].
    rewrite Hnone. apply touches_only_insert. right.
    etrans; [exact Hpre | by apply prefix_app_r].
Qed.

Lemma convert_file_spec (env : Env) (target root : path) (st : World * Stats) (f : string) :
  target `prefix_of` root →
  step_ok target st.1 (convert_file env root st f).1
  ∧ same_counts st.2 (convert_file env root st f).2.
Proof.
  intros Hpre. unfold convert_file.
  destruct (ends_with ".docx" (lower f)); [|split; [apply step_ok_refl | done]].
  unfold exists_. case_bool_decide as Hex; [split; [apply step_ok_refl | done]|].
  apply eq_None_not_Some in Hex.
  pose proof (libreoffice_convert_spec env target root f st.1 Hpre Hex) as Hstep.
  destruct (libreoffice_convert_docx_to_pdf env (root ++ [f]) root st.1) as [w' [pdf|]];
    by split.
Qed.

Lemma same_counts_trans (s1 s2 s3 : Stats) :
  same_counts s1 s2 → same_counts s2 s3 → same_counts s1 s3.
Proof.
  intros (A1 & A2 & A3) (B1 & B2 & B3).
  repeat split; congruence.
Qed.

Lemma convert_files_spec (env : Env) (target root : path) (files : list string)
    (st : World * Stats) :
  target `prefix_of` root →
  step_ok target st.1 (foldl (convert_file env root) st files).1
  ∧ same_counts st.2 (foldl (convert_file env root) st files).2.
Proof.
  intros Hroot. revert st. induction files as [|f files IH]; intros st; simpl.
  - split; [apply step_ok_refl | done].
  - destruct (convert_file_spec env target root st f Hroot) as [Hs1 Hc1].
    destruct (IH (convert_file env root st f)) as [Hs2 Hc2].
    split; [by eapply step_ok_trans | by eapply same_counts_trans].
Qed.

Lemma convert_triples_spec (env : Env) (target : path)
    (triples : list (path * list string * list string)) (st : World * Stats) :
  Forall (λ t : path * list string * list string, target `prefix_of` t.1.1) triples →
  let st' := foldl (λ st (t : path * list string * list string),
                      foldl (convert_file env t.1.1) st t.2) st triples in
  step_ok target st.1 st'.1 ∧ same_counts st.2 st'.2.
Proof.
  revert st. induction triples as [|[[root dirs] files] triples IH]; intros st Hall; simpl.
  - split; [apply step_ok_refl | done].
  - inversion Hall as [|? ? Hroot Hrest]; subst. simpl in Hroot.
    destruct (convert_files_spec env target root files st Hroot) as [Hs1 Hc1].
    destruct (IH (foldl (convert_file env root) st files) Hrest) as [Hs2 Hc2].
    split; [by eapply step_ok_trans | by eapply same_counts_trans].
Qed.

Lemma conversion_pass_spec (env : Env) (target : path) (st : World * Stats) :
  step_ok target st.1 (conversion_pass env target st).1
  ∧ same_counts st.2 (conversion_pass env target st).2.
Proof.
  unfold conversion_pass. apply convert_triples_spec.
  rewrite os_walk_roots. apply Forall_fmap, Forall_forall. intros root Hroot. simpl.
  by apply elem_of_walk_roots in Hroot as (_ & _ & ?).
Qed.

(** ** The target folder *)

Lemma string_app_assoc (a b c : string) : (a +:+ b) +:+ c = a +:+ (b +:+ c).
Proof.
  induction a as [|x a IH]; [done|].
  change ((String x a +:+ b) +:+ c) with (String x ((a +:+ b) +:+ c)).
  change (String x a +:+ (b +:+ c)) with (String x (a +:+ (b +:+ c))).
  by rewrite IH.
Qed.

Lemma split_sep_go_app_tail (cur s t : string) :
  has_char "/" t = false →
  ∃ init c, split_sep_go cur (s +:+ t) = init ++ [c +:+ t].
Proof.
  intros Ht. revert cur. induction s as [|d s IH]; intros cur.
  - exists [], cur. change ("" +:+ t) with t. by apply split_sep_go_no_sep.
  - change (String d s +:+ t) with (String d (s +:+ t)). simpl.
    destruct (Ascii.eqb d "/").
    + destruct (IH "") as (init & c & ->). by exists (cur :: init), c.
    + apply IH.
Qed.

(** The path string of a target folder ends with a proper name. *)
Lemma target_string_last (row : Row) :
  ∃ init c, split_sep (path_join OUTPUT_DIR (folder_name_of row)) = init ++ [c]
            ∧ is_special_part c = false.
Proof.
  set (tail := "_" +:+ sanitize_folder_part (row !! "surname")
               +:+ "_" +:+ sanitize_folder_part (row !! "first_name")).
  assert (Htail : has_char "/" tail = false).
  { unfold tail. by rewrite !has_char_app, !sanitize_folder_part_no_sep. }
  assert (Hshape : ∃ x, path_join OUTPUT_DIR (folder_name_of row) = x +:+ tail).
  { unfold path_join, folder_name_of. fold tail.
    destruct (starts_with "/" (row_index row +:+ tail)).
    - by exists (row_index row).
    - exists (OUTPUT_DIR +:+ "/" +:+ row_index row).
      by rewrite !string_app_assoc. }
  destruct Hshape as (x & ->).
  destruct (split_sep_go_app_tail "" x tail Htail) as (init & c & Hsplit).
  exists init, (c +:+ tail). split; [done|].
  assert (Hus : has_char "_" (c +:+ tail) = true).
  { rewrite has_char_app. unfold tail. rewrite has_char_app.
    by destruct (has_char "_" c). }
  unfold is_special_part.
  destruct (decide (c +:+ tail = "")) as [H | H1];
    [rewrite H in Hus; discriminate Hus|].
  destruct (decide (c +:+ tail = ".")) as [H | H2];
    [rewrite H in Hus; discriminate Hus|].
  destruct (decide (c +:+ tail = "..")) as [H | H3];
    [rewrite H in Hus; discriminate Hus|].
  by rewrite !bool_decide_eq_false_2.
Qed.

Lemma not_special (c : string) :
  is_special_part c = false →
  bool_decide (c = "") || bool_decide (c = ".") = false ∧ bool_decide (c = "..") = false.
Proof.
  unfold is_special_part. intros H.
  apply orb_false_iff in H as [H H3]. by rewrite H, H3.
Qed.

Lemma makedirs_walk_last (init : list string) (c : string) (cur : path) (fs fs' : FS)
    (r : path) :
  is_special_part c = false →
  makedirs_walk cur (init ++ [c]) fs = Ok (fs', r) →
  fs' !! r = Some Dir.
Proof.
  intros Hc. apply not_special in Hc as [Hc1 Hc2].
  revert cur fs. induction init as [|d init IH]; intros cur fs; simpl.
  - rewrite Hc1, Hc2. destruct (fs !! (cur ++ [c])) as [[data|]|] eqn:E; [done| |].
    + by intros [= <- <-].
    + intros [= <- <-]. apply lookup_insert_eq.
  - destruct (bool_decide (d = "") || bool_decide (d = ".")); [apply IH|].
    destruct (bool_decide (d = "..")); [apply IH|].
    destruct (fs !! (cur ++ [d])) as [[data|]|]; [done | apply IH | apply IH].
Qed.

Lemma makedirs_walk_never_out_of_fuel (comps : list string) (cur : path) (fs : FS) :
  makedirs_walk cur comps fs ≠ OutOfFuel.
Proof.
  revert cur fs. induction comps as [|d comps IH]; intros cur fs; simpl; [done|].
  destruct (bool_decide (d = "") || bool_decide (d = ".")); [apply IH|].
  destruct (bool_decide (d = "..")); [apply IH|].
  destruct (fs !! (cur ++ [d])) as [[data|]|]; [done | apply IH | apply IH].
Qed.

(** When the target folder is made, it is a directory and nothing that
    existed has changed. *)
Lemma target_folder_made (cwd : path) (row : Row) (fs fs' : FS) (target : path) :
  makedirs_str cwd (path_join OUTPUT_DIR (folder_name_of row)) fs = Ok (fs', target) →
  fs' !! target = Some Dir ∧ ∀ p n, fs !! p = Some n → fs' !! p = Some n.
Proof.
  unfold makedirs_str. intros Hmk.
  destruct (target_string_last row) as (init & c & Hsplit & Hc).
  rewrite Hsplit in Hmk. split.
  - by eapply makedirs_walk_last.
  - by apply (makedirs_walk_spec _ _ _ _ _ Hmk).
Qed.

(** For an identifier without separator the target folder is
    [cwd/organized_submissions/folder_name]. *)
Lemma target_folder_plain (cwd : path) (row : Row) (fs fs' : FS) (target : path) :
  has_char "/" (row_index row) = false →
  makedirs_str cwd (path_join OUTPUT_DIR (folder_name_of row)) fs = Ok (fs', target) →
  target = target_of cwd row ∧ touches_only target fs fs'.
Proof.
  intros Hplain. rewrite makedirs_str_plain by done. unfold target_of. simpl.
  pose proof (folder_name_not_special row) as Hf. apply not_special in Hf as [Hf1 Hf2].
  rewrite Hf1, Hf2.
  change (bool_decide (OUTPUT_DIR = "") || bool_decide (OUTPUT_DIR = ".")) with false.
  change (bool_decide (OUTPUT_DIR = "..")) with false. simpl.
  assert (Hout : on_branch (cwd ++ [OUTPUT_DIR; folder_name_of row]) (cwd ++ [OUTPUT_DIR])).
  { left. apply prefix_app, prefix_cons, prefix_nil. }
  assert (Htgt : on_branch (cwd ++ [OUTPUT_DIR; folder_name_of row])
                           ((cwd ++ [OUTPUT_DIR]) ++ [folder_name_of row])).
  { left. by rewrite <- app_assoc. }
  destruct (fs !! (cwd ++ [OUTPUT_DIR])) as [[data|]|] eqn:E1; [done| |].
  - destruct (fs !! ((cwd ++ [OUTPUT_DIR]) ++ [folder_name_of row])) as [[data|]|];
      [done| |]; intros [= <- <-]; rewrite <- app_assoc; simpl.
    + split; [done | apply touches_only_refl].
    + split; [done|]. rewrite <- app_assoc in Htgt. by apply touches_only_insert.
  - rewrite lookup_insert_ne.
    2: { intros Heq. apply (f_equal length) in Heq. rewrite !length_app in Heq.
         simpl in Heq. lia. }
    destruct (fs !! ((cwd ++ [OUTPUT_DIR]) ++ [folder_name_of row])) as [[data|]|];
      [done| |]; intros [= <- <-]; rewrite <- app_assoc; simpl.
    + split; [done | by apply touches_only_insert].
    + split; [done|]. rewrite <- app_assoc in Htgt.
      eapply touches_only_trans; by apply touches_only_insert.
Qed.

(** ** One file of the input directory *)

Lemma find_best_in_rows ratio filename (rows : list Row) m t row how :
  find_best_row_for_filename ratio filename rows m t = (Some row, how) → row ∈ rows.
Proof.
  unfold find_best_row_for_filename.
  set (norm := normalize_text (Some filename)).
  set (S := list_to_set (split norm) : gset string).
  assert (Hfuzzy :
    (let '(best_ratio, best_row) := foldl (fuzzy_step ratio norm) (0%Q, None) rows in
     if Qle_bool t best_ratio then (best_row, Some (fuzzy best_ratio))
     else (None, None)) = (Some row, how) → row ∈ rows).
  { destruct (fuzzy_fold_cases ratio norm rows)
      as [[_ ->] | (r & q & -> & _ & l1 & l2 & Hsplit & _)].
    - destruct (Qle_bool t 0); intros H; inversion H.
    - destruct (Qle_bool t q); intros H; inversion H; subst.
      assert (Hin : (row, q) ∈ candidates ratio norm rows).
      { rewrite Hsplit. apply elem_of_app. right. apply elem_of_cons. by left. }
      by apply elem_of_candidates in Hin as [? _]. }
  destruct (token_fold_cases S rows) as [[_ ->] | (r & -> & _ & Hfb)].
  - destruct (m <=? Z.of_nat 0)%Z; [intros H; inversion H | auto].
  - destruct (m <=? Z.of_nat (count_token_matches S r))%Z; [|auto].
    intros H; inversion H; subst.
    apply first_best_scored in Hfb as (l1 & l2 & -> & _).
    apply elem_of_app. right. apply elem_of_cons. by left.
Qed.

Lemma place_cases (env : Env) (fname : string) (input_path target : path)
    (st : World * Stats) :
  fs st.1 !! target = Some Dir →
  isfile (fs st.1) input_path = true →
  ∃ st', place env fname input_path target st = Ok st'
         ∧ step_ok target st.1 st'.1 ∧ same_counts st.2 st'.2.
Proof.
  intros Hdir Hfile. unfold place, exists_.
  case_bool_decide as Hex.
  - eexists. split; [done|]. split; [apply step_ok_say, step_ok_refl | done].
  - destruct (is_archive_name fname).
    + destruct (extract_and_flatten_archive_total env input_path target st.1 Hdir)
        as (w' & -> & Hstep).
      eexists. split; [done|]. by split.
    + apply isfile_true in Hfile as (data & Hsrc).
      apply isdir_true in Hdir.
      destruct (safe_copy_spec (fs st.1) input_path target fname data Hsrc Hdir)
        as (written & -> & Hplaced).
      eexists. split; [done|]. split; [|done]. simpl.
      split; [by apply extends_log_refl|]. simpl.
      apply touches_only_insert. right.
      destruct (placed_as_child _ _ _ _ Hplaced) as (x & ->). by apply prefix_app_r.
Qed.

Lemma process_matched_cases (env : Env) (fname : string) (row : Row) (how : option method)
    (st : World * Stats) :
  isfile (fs st.1) (input_dir env ++ [fname]) = true →
  match process_matched env fname row how st with
  | Ok st' =>
      ∃ fs1 target,
        makedirs_str (cwd env) (path_join OUTPUT_DIR (folder_name_of row)) (fs st.1)
        = Ok (fs1, target)
        ∧ step_ok target (with_fs st.1 fs1) st'.1
        ∧ files_seen st'.2 = files_seen st.2
        ∧ matched st'.2 = S (matched st.2)
        ∧ unmatched st'.2 = unmatched st.2
  | Raised e =>
      makedirs_str (cwd env) (path_join OUTPUT_DIR (folder_name_of row)) (fs st.1)
      = Raised e
  | OutOfFuel => False
  end.
Proof.
  intros Hfile. unfold process_matched.
  destruct (makedirs_str (cwd env) (path_join OUTPUT_DIR (folder_name_of row)) (fs st.1))
    as [[fs1 target]| |] eqn:Hmk; simpl; [|done|].
  2: { by apply makedirs_walk_never_out_of_fuel in Hmk. }
  destruct (target_folder_made _ _ _ _ _ Hmk) as [Hdir Hmono].
  destruct (place_cases env fname (input_dir env ++ [fname]) target (with_fs st.1 fs1, st.2))
    as (st1 & -> & Hs1 & Hc1); [done | |].
  { simpl. apply isfile_true in Hfile as (data & Hsrc). apply isfile_true.
    exists data. by apply Hmono. }
  simpl. destruct (conversion_pass_spec env target st1) as [Hs2 Hc2].
  exists fs1, target. split; [done|]. split.
  - apply step_ok_say. by eapply step_ok_trans.
  - destruct Hc1 as (A1 & A2 & A3), Hc2 as (B1 & B2 & B3). simpl in *.
    repeat split; congruence.
Qed.

Lemma process_file_cases (env : Env) (rows : list Row) (st : World * Stats) (fname : string) :
  match process_file env rows st fname with
  | Ok st' =>
      extends_log st.1 st'.1
      ∧ counted env rows (isfile (fs st.1) (input_dir env ++ [fname])) fname st.2 st'.2
      ∧ (fs st'.1 = fs st.1
         ∨ ∃ row fs1 target,
             row ∈ rows
             ∧ makedirs_str (cwd env) (path_join OUTPUT_DIR (folder_name_of row)) (fs st.1)
               = Ok (fs1, target)
             ∧ touches_only target fs1 (fs st'.1))
  | Raised e =>
      ∃ row, row ∈ rows
             ∧ makedirs_str (cwd env) (path_join OUTPUT_DIR (folder_name_of row)) (fs st.1)
               = Raised e
  | OutOfFuel => False
  end.
Proof.
  unfold process_file, counted, is_matched, visible.
  destruct (starts_with "." fname); simpl.
  { split; [by apply extends_log_refl|]. split; [done | by left]. }
  destruct (isfile (fs st.1) (input_dir env ++ [fname])) eqn:Hfile; simpl.
  2: { split; [by apply extends_log_refl|]. split; [done | by left]. }
  destruct (find_best_row_for_filename (fuzzy_ratio env) fname rows
              MIN_TOKEN_MATCHES FUZZY_THRESHOLD) as [[row|] how] eqn:Hbest; simpl.
  2: { split; [apply extends_log_say; by apply extends_log_refl|]. split; [done | by left]. }
  case_bool_decide as Hempty; simpl.
  { split; [apply extends_log_say; by apply extends_log_refl|]. split; [done | by left]. }
  apply find_best_in_rows in Hbest.
  pose proof (process_matched_cases env fname row how (st.1, bump_files_seen st.2) Hfile)
    as Hcases.
  destruct (process_matched env fname row how (st.1, bump_files_seen st.2))
    as [st'|e|]; [| |done].
  - destruct Hcases as (fs1 & target & Hmk & [Hlog Htouch] & C1 & C2 & C3).
    simpl in *. split; [|split].
    + destruct Hlog as (l & Hl & Hg). by exists l.
    + done.
    + right. by exists row, fs1, target.
  - by exists row.
Qed.

(** ** The run *)

Lemma fold_process_file_cases (env : Env) (rows : list Row) (names : list string)
    (st : World * Stats) (I : World * Stats → Prop) :
  I st →
  (∀ st0 st1 fname, I st0 → process_file env rows st0 fname = Ok st1 → I st1) →
  match fold_result (process_file env rows) st names with
  | Ok st' => I st'
  | Raised e =>
      ∃ st0 row, I st0 ∧ row ∈ rows
        ∧ makedirs_str (cwd env) (path_join OUTPUT_DIR (folder_name_of row)) (fs st0.1)
          = Raised e
  | OutOfFuel => False
  end.
Proof.
  intros Hst Hstep. revert st Hst. induction names as [|fname names IH]; intros st Hst; simpl.
  - done.
  - pose proof (process_file_cases env rows st fname) as Hcases.
    destruct (process_file env rows st fname) as [st1|e|] eqn:Hp; simpl; [| |done].
    + apply IH. by eapply Hstep.
    + destruct Hcases as (row & Hrow & Hmk). by exists st, row.
Qed.

Lemma output_dir_made (cwd : path) (fs fs' : FS) (out : path) :
  makedirs_str cwd OUTPUT_DIR fs = Ok (fs', out) →
  out = cwd ++ [OUTPUT_DIR]
  ∧ (∀ p, p ≠ cwd ++ [OUTPUT_DIR] → fs' !! p = fs !! p).
Proof.
  unfold makedirs_str.
  change (starts_with "/" OUTPUT_DIR) with false.
  change (split_sep OUTPUT_DIR) with [OUTPUT_DIR]. simpl.
  change (bool_decide (OUTPUT_DIR = "") || bool_decide (OUTPUT_DIR = ".")) with false.
  change (bool_decide (OUTPUT_DIR = "..")) with false. simpl.
  destruct (fs !! (cwd ++ [OUTPUT_DIR])) as [[data|]|]; [done| |]; intros [= <- <-].
  - by split.
  - split; [done|]. intros p Hp. by apply lookup_insert_ne.
Qed.

(** C8. In a run that completes, every time the converter was started on
    a document, no entry with the stem of the document and the extension
    [.pdf] existed next to it at that moment; the same holds for the run
    that follows on the file system the first one leaves. *)
Theorem converter_starts_only_without_pdf
    (env : Env) (reader : list Row) (w w' : World) (stats : Stats) :
  organize_and_convert env reader w = Ok (w', stats) →
  (∃ events,
     log w' = log w ++ events
     ∧ ∀ docx_path out_dir before,
         Exec docx_path out_dir before ∈ events →
         before !! (dirname docx_path ++ [pdf_name (basename docx_path)]) = None)
  ∧ ∀ w'' stats',
      organize_and_convert env reader w' = Ok (w'', stats') →
      ∃ events,
        log w'' = log w' ++ events
        ∧ ∀ docx_path out_dir before,
            Exec docx_path out_dir before ∈ events →
            before !! (dirname docx_path ++ [pdf_name (basename docx_path)]) = None.
Proof.
  assert (Hrun : ∀ w w' stats,
            organize_and_convert env reader w = Ok (w', stats) → extends_log w w').
  { clear. intros w w' stats. unfold organize_and_convert.
    destruct (makedirs_str (cwd env) OUTPUT_DIR (fs w)) as [[fs1 out]| |]; simpl; [|done|done].
    destruct (sorted_listdir fs1 (input_dir env)) as [names|]; [|done].
    pose proof (fold_process_file_cases env (load_csv_rows reader) names
                  (with_fs w fs1, no_stats) (λ st, extends_log w st.1)) as Hfold.
    destruct (fold_result _ _ names) as [st'|e|]; simpl; [|done|done].
    intros [= <- <-]. apply extends_log_say. apply Hfold.
    - by apply extends_log_refl.
    - intros st0 st1 fname H0 Hp.
      pose proof (process_file_cases env (load_csv_rows reader) st0 fname) as Hc.
      rewrite Hp in Hc. destruct Hc as (Hlog & _). by eapply extends_log_trans. }
  assert (Hshape : ∀ w w', extends_log w w' →
            ∃ events, log w' = log w ++ events
              ∧ ∀ docx_path out_dir before,
                  Exec docx_path out_dir before ∈ events →
                  before !! (dirname docx_path ++ [pdf_name (basename docx_path)]) = None).
  { clear. intros w w' (l & Hl & Hg). exists l. split; [done|].
    intros docx out before Hin. rewrite Forall_forall in Hg. by apply (Hg _ Hin). }
  intros Hfirst. split.
  - eapply Hshape, Hrun, Hfirst.
  - intros w'' stats' Hsecond. eapply Hshape, Hrun, Hsecond.
Qed.

(** ** The input directory *)

Lemma input_off_branch (cwd : path) (row : Row) (p : path) :
  (cwd ++ [INPUT_DIR]) `prefix_of` p → ¬ on_branch (target_of cwd row) p.
Proof.
  intros [k ->] [Hpre | Hpre]; unfold target_of in Hpre.
  - rewrite <- app_assoc in Hpre. apply prefix_app_inv in Hpre.
    simpl in Hpre. by apply prefix_cons_inv_1 in Hpre.
  - rewrite <- app_assoc in Hpre. apply prefix_app_inv in Hpre.
    simpl in Hpre. by apply prefix_cons_inv_1 in Hpre.
Qed.

Lemma process_file_input_untouched (env : Env) (rows : list Row) (st st' : World * Stats)
    (fname : string) :
  Forall (λ row, has_char "/" (row_index row) = false) rows →
  process_file env rows st fname = Ok st' →
  input_untouched env (fs st.1) (fs st'.1).
Proof.
  intros Hplain Hp.
  pose proof (process_file_cases env rows st fname) as Hc. rewrite Hp in Hc.
  destruct Hc as (_ & _ & [-> | (row & fs1 & target & Hrow & Hmk & Htouch)]); [done|].
  rewrite Forall_forall in Hplain. specialize (Hplain row Hrow).
  destruct (target_folder_plain _ _ _ _ _ Hplain Hmk) as [-> Htouch1].
  intros p Hin. unfold input_dir in Hin.
  pose proof (input_off_branch (cwd env) row p Hin) as Hoff.
  by rewrite Htouch, Htouch1.
Qed.

Lemma loaded_rows_plain (reader : list Row) :
  plain_roster reader →
  Forall (λ row, has_char "/" (row_index row) = false) (load_csv_rows reader).
Proof.
  intros Hplain. apply Forall_forall. intros row Hrow.
  by eapply load_csv_rows_plain.
Qed.

Lemma output_dir_off_input (env : Env) (p : path) :
  input_dir env `prefix_of` p → p ≠ cwd env ++ [OUTPUT_DIR].
Proof.
  intros [k ->] Heq. unfold input_dir in Heq. rewrite <- app_assoc in Heq.
  apply app_inv_head in Heq. simpl in Heq. by inversion Heq.
Qed.

Lemma run_input_untouched
    (env : Env) (reader : list Row) (w w' : World) (stats : Stats) :
  plain_roster reader →
  organize_and_convert env reader w = Ok (w', stats) →
  input_untouched env (fs w) (fs w').
Proof.
  intros Hplain. apply loaded_rows_plain in Hplain. unfold organize_and_convert.
  destruct (makedirs_str (cwd env) OUTPUT_DIR (fs w)) as [[fs1 out]| |] eqn:Hout;
    simpl; [|done|done].
  apply output_dir_made in Hout as [-> Hout].
  destruct (sorted_listdir fs1 (input_dir env)) as [names|]; [|done].
  pose proof (fold_process_file_cases env (load_csv_rows reader) names
                (with_fs w fs1, no_stats) (λ st, input_untouched env (fs w) (fs st.1)))
    as Hfold.
  destruct (fold_result _ _ names) as [st'|e|]; simpl; [|done|done].
  intros [= <- <-]. simpl. apply Hfold.
  - intros p Hp. simpl. apply Hout. by apply output_dir_off_input.
  - intros st0 st1 fname H0 Hp p Hin.
    rewrite (process_file_input_untouched env _ st0 st1 fname Hplain Hp p Hin).
    by apply H0.
Qed.

(** Without the separator the input directory is safe: for a roster whose
    identifiers contain no path separator, a run that completes leaves every path at or below the
    input directory as it was: the same entries with the same content. *)
Theorem input_directory_untouched
    (env : Env) (reader : list Row) (w w' : World) (stats : Stats) :
  plain_roster reader →
  organize_and_convert env reader w = Ok (w', stats) →
  ∀ p, input_dir env `prefix_of` p → fs w' !! p = fs w !! p.
Proof. intros Hplain Hrun p Hp. by apply (run_input_untouched env reader w w' stats). Qed.

(** ** Counting the entries of the input directory *)

Lemma count_cons {A} (f : A → bool) (x : A) (l : list A) :
  count f (x :: l) = (if f x then 1 else 0) + count f l.
Proof.
  unfold count. destruct (f x) eqn:E.
  - by rewrite filter_cons_True.
  - rewrite filter_cons_False; [done | congruence].
Qed.

Lemma count_Permutation {A} (f : A → bool) (l k : list A) : l ≡ₚ k → count f l = count f k.
Proof. intros H. unfold count. by rewrite H. Qed.

Lemma count_ext {A} (f g : A → bool) (l : list A) :
  (∀ x, x ∈ l → f x = g x) → count f l = count g l.
Proof.
  induction l as [|x l IH]; intros H; [done|].
  rewrite !count_cons, IH.
  - rewrite (H x); [done | apply elem_of_cons; by left].
  - intros y Hy. apply H, elem_of_cons. by right.
Qed.

Lemma count_split {A} (f g : A → bool) (l : list A) :
  count f l = count (λ x, f x && g x) l + count (λ x, f x && negb (g x)) l.
Proof.
  induction l as [|x l IH]; [done|].
  rewrite !count_cons, IH. destruct (f x), (g x); simpl; lia.
Qed.

Lemma count_le {A} (f g : A → bool) (l : list A) :
  (∀ x, f x = true → g x = true) → count f l ≤ count g l.
Proof.
  intros H. induction l as [|x l IH]; [done|].
  rewrite !count_cons. specialize (H x).
  destruct (f x), (g x); simpl; first [lia | by specialize (H eq_refl)].
Qed.

Lemma count_lt {A} (f g : A → bool) (l : list A) (y : A) :
  (∀ x, f x = true → g x = true) → y ∈ l → f y = false → g y = true →
  count f l < count g l.
Proof.
  intros H Hy Hf Hg. induction l as [|x l IH]; [by apply elem_of_nil in Hy|].
  rewrite !count_cons. apply elem_of_cons in Hy as [<- | Hy].
  - rewrite Hf, Hg. pose proof (count_le f g l H). simpl. lia.
  - specialize (IH Hy). pose proof (H x) as Hx.
    destruct (f x), (g x); simpl; first [lia | by specialize (Hx eq_refl)].
Qed.

Lemma elem_of_names_in (fs : FS) (d : path) (name : string) :
  name ∈ names_in fs d ↔ is_Some (fs !! (d ++ [name])).
Proof.
  unfold names_in. rewrite list_elem_of_fmap. split.
  - intros ([x n] & -> & Hin). apply elem_of_scandir in Hin. by exists n.
  - intros [n Hn]. exists (name, n). split; [done|]. by apply elem_of_scandir.
Qed.

Lemma NoDup_omap_inj {A B} (f : A → option B) (l : list A) :
  NoDup l → (∀ x y z, f x = Some z → f y = Some z → x = y) → NoDup (omap f l).
Proof.
  intros Hnd Hinj. induction Hnd as [|x l Hx Hnd IH]; simpl; [constructor|].
  destruct (f x) as [z|] eqn:E; [|done].
  constructor; [|done]. intros Hin. apply list_elem_of_omap in Hin as (y & Hy & Hfy).
  assert (x = y) by (by eapply Hinj). by subst.
Qed.

Lemma NoDup_names_in (fs : FS) (d : path) : NoDup (names_in fs d).
Proof.
  assert (Heq : names_in fs d = omap (child_name d) (map_to_list fs).*1).
  { unfold names_in, scandir.
    induction (map_to_list fs) as [|[p n] l IH]; simpl; [done|].
    destruct (child_name d p); simpl; [f_equal|]; exact IH. }
  rewrite Heq. apply NoDup_omap_inj.
  - apply NoDup_fst_map_to_list.
  - intros p q name Hp Hq. apply child_name_spec in Hp, Hq. by subst.
Qed.

Lemma names_in_Permutation (fs fs' : FS) (d : path) :
  (∀ name, fs' !! (d ++ [name]) = fs !! (d ++ [name])) →
  names_in fs' d ≡ₚ names_in fs d.
Proof.
  intros Hsame. apply NoDup_Permutation; [apply NoDup_names_in | apply NoDup_names_in|].
  intros name. by rewrite !elem_of_names_in, Hsame.
Qed.

Lemma isfile_untouched (env : Env) (fs fs' : FS) (name : string) :
  input_untouched env fs fs' →
  isfile fs' (input_dir env ++ [name]) = isfile fs (input_dir env ++ [name]).
Proof. intros H. unfold isfile. rewrite H; [done | by apply prefix_app_r]. Qed.

Lemma fold_counts (env : Env) (rows : list Row) (fs0 : FS) (names : list string)
    (st st' : World * Stats) :
  Forall (λ row, has_char "/" (row_index row) = false) rows →
  input_untouched env fs0 (fs st.1) →
  fold_result (process_file env rows) st names = Ok st' →
  input_untouched env fs0 (fs st'.1)
  ∧ files_seen st'.2 = files_seen st.2 + count visible names
  ∧ matched st'.2 = matched st.2 + count (matched_in env rows fs0) names
  ∧ unmatched st'.2 = unmatched st.2 + count (unmatched_in env rows fs0) names.
Proof.
  intros Hplain. revert st. induction names as [|name names IH]; intros st Hin; simpl.
  - intros [= <-]. unfold count. simpl. repeat split; [done | lia..].
  - pose proof (process_file_cases env rows st name) as Hc.
    destruct (process_file env rows st name) as [st1| |] eqn:Hp; simpl; [|done|done].
    destruct Hc as (_ & Hcount & _).
    assert (Hin1 : input_untouched env fs0 (fs st1.1)).
    { intros p Hp'. rewrite (process_file_input_untouched env rows st st1 name Hplain Hp p Hp').
      by apply Hin. }
    intros Hfold. destruct (IH st1 Hin1 Hfold) as (H0 & H1 & H2 & H3).
    split; [done|]. rewrite !count_cons, H1, H2, H3.
    unfold counted in Hcount. unfold matched_in, unmatched_in, regular_in.
    rewrite (isfile_untouched env fs0 (fs st.1) name Hin) in Hcount.
    destruct (visible name); simpl.
    + destruct Hcount as (C1 & C23).
      destruct (isfile fs0 (input_dir env ++ [name])); simpl.
      * destruct (is_matched env rows name); simpl; destruct C23 as (C2 & C3);
          repeat split; lia.
      * destruct C23 as (C2 & C3). repeat split; lia.
    + destruct Hcount as (C1 & C2 & C3). repeat split; lia.
Qed.

(** X17. The counters, for a roster whose identifiers contain no path
    separator.  After a run that completes: [files_seen] is the number
    of the entries of the input directory that are not hidden, [matched]
    plus [unmatched] is the number of those that are regular files, and
    [matched] is the number of the regular ones that have a match, whether
    they were copied or skipped; so [files_seen] is at least [matched] plus
    [unmatched] and exceeds it when an entry that is not hidden is no
    regular file. *)
Theorem counters_of_a_run
    (env : Env) (reader : list Row) (w w' : World) (stats : Stats) :
  plain_roster reader →
  organize_and_convert env reader w = Ok (w', stats) →
  let names := names_in (fs w') (input_dir env) in
  let rows := load_csv_rows reader in
  files_seen stats = count visible names
  ∧ matched stats + unmatched stats = count (regular_in env (fs w')) names
  ∧ matched stats = count (matched_in env rows (fs w')) names
  ∧ matched stats + unmatched stats ≤ files_seen stats
  ∧ (∀ name, name ∈ names → visible name = true →
             isfile (fs w') (input_dir env ++ [name]) = false →
             matched stats + unmatched stats < files_seen stats).
Proof.
  intros Hplain Hrun names rows.
  pose proof (run_input_untouched env reader w w' stats Hplain Hrun) as Hsame.
  apply loaded_rows_plain in Hplain. fold rows in Hplain.
  unfold organize_and_convert in Hrun. fold rows in Hrun.
  destruct (makedirs_str (cwd env) OUTPUT_DIR (fs w)) as [[fs1 out]| |] eqn:Hout;
    simpl in Hrun; [|done|done].
  apply output_dir_made in Hout as [-> Hout].
  unfold sorted_listdir in Hrun. destruct (isdir fs1 (input_dir env)); [|done].
  destruct (fold_result (process_file env rows) (with_fs w fs1, no_stats)
              (merge_sort String.le (scandir fs1 (input_dir env)).*1))
    as [st'| |] eqn:Hfold; simpl in Hrun; [|done|done].
  inversion Hrun; subst. clear Hrun.
  assert (Hin1 : input_untouched env (fs w) fs1).
  { intros p Hp. apply Hout. by apply output_dir_off_input. }
  destruct (fold_counts env rows (fs w) _ (with_fs w fs1, no_stats) st' Hplain Hin1 Hfold)
    as (_ & H1 & H2 & H3).
  assert (Hperm : merge_sort String.le (scandir fs1 (input_dir env)).*1 ≡ₚ names).
  { rewrite merge_sort_Permutation. unfold names. simpl.
    change ((scandir fs1 (input_dir env)).*1) with (names_in fs1 (input_dir env)).
    apply NoDup_Permutation; [apply NoDup_names_in | apply NoDup_names_in|].
    intros name. rewrite !elem_of_names_in.
    rewrite Hsame by (by apply prefix_app_r).
    rewrite Hin1 by (by apply prefix_app_r). done. }
  assert (Hreg : ∀ name, regular_in env (fs w) name = regular_in env (fs st'.1) name).
  { intros name. unfold regular_in. f_equal. symmetry. by apply isfile_untouched. }
  simpl in *.
  rewrite (count_Permutation _ _ _ Hperm) in H1.
  rewrite (count_Permutation _ _ _ Hperm) in H2.
  rewrite (count_Permutation _ _ _ Hperm) in H3.
  assert (Hm : count (matched_in env rows (fs w)) names
               = count (matched_in env rows (fs st'.1)) names).
  { apply count_ext. intros name _. unfold matched_in. by rewrite Hreg. }
  assert (Hr : count (regular_in env (fs st'.1)) names
               = count (matched_in env rows (fs w)) names
                 + count (unmatched_in env rows (fs w)) names).
  { rewrite (count_split _ (is_matched env rows)).
    f_equal; apply count_ext; intros name _; unfold matched_in, unmatched_in;
      by rewrite Hreg. }
  assert (Hle : ∀ name, regular_in env (fs st'.1) name = true → visible name = true).
  { intros name H. unfold regular_in in H. by apply andb_true_iff in H as [? _]. }
  split; [lia|]. split; [lia|]. split; [lia|]. split.
  - rewrite H1, H2, H3. simpl. rewrite <- Hr. by apply count_le.
  - intros name Hname Hvis Hnot. rewrite H1, H2, H3. simpl. rewrite <- Hr.
    eapply count_lt; [exact Hle | exact Hname | | exact Hvis].
    unfold regular_in. by rewrite Hvis, Hnot.
Qed.

(** ** Placing a plain file twice *)

(** X11. A file that is no archive is in the target folder under its own name
    once it has been placed, so that placing it again is a skip. *)
Lemma plain_file_placed_once (env : Env) (fname : string) (input_path target_folder : path)
    (st st1 : World * Stats) :
  is_archive_name fname = false →
  place env fname input_path target_folder st = Ok st1 →
  place env fname input_path target_folder st1
  = Ok (say (AlreadyPresent fname) st1.1, bump_skipped st1.2).
Proof.
  intros Hplain. unfold place. rewrite Hplain.
  destruct (exists_ (fs st.1) (target_folder ++ [fname])) eqn:Hex.
  - intros [= <-]. cbn [fst snd say fs]. by rewrite Hex.
  - unfold safe_copy.
    destruct (splitext (basename (target_folder ++ [fname]))) as [base ext].
    rewrite Hex. cbn [bind]. unfold copy2.
    destruct (fs st.1 !! input_path) as [[data|]|]; [|done..].
    destruct (fs st.1 !! (target_folder ++ [fname])) as [[old|]|] eqn:Hdst;
      [|done|].
    + unfold exists_ in Hex. rewrite Hdst in Hex.
      apply bool_decide_eq_false in Hex. by destruct Hex.
    + destruct (isdir (fs st.1) (dirname (target_folder ++ [fname]))); [|done].
      cbn [bind fst snd]. intros [= <-]. cbn [fst snd with_fs fs].
      assert (Hnow : exists_ (<[target_folder ++ [fname] := File data]> (fs st.1))
                       (target_folder ++ [fname]) = true).
      { unfold exists_. rewrite lookup_insert_eq. apply bool_decide_eq_true. by eexists. }
      by rewrite Hnow.
Qed.

(** * Properties of the text utilities *)

Lemma string_app_nil_r (s : string) : s +:+ "" = s.
Proof.
  induction s as [|c s IH]; [done|].
  change (String c s +:+ "") with (String c (s +:+ "")). by rewrite IH.
Qed.

Lemma rev_app_spec (s acc : string) : String.rev_app s acc = String.rev s +:+ acc.
Proof.
  unfold String.rev. revert acc. induction s as [|c s IH]; intros acc; [done|].
  cbn [String.rev_app]. rewrite (IH (String c acc)), (IH (String c "")).
  by rewrite string_app_assoc.
Qed.

Lemma rev_cons (c : ascii) (s : string) :
  String.rev (String c s) = String.rev s +:+ String c "".
Proof. unfold String.rev at 1. cbn [String.rev_app]. apply rev_app_spec. Qed.

Lemma rev_snoc (s : string) (c : ascii) :
  String.rev (s +:+ String c "") = String c (String.rev s).
Proof.
  induction s as [|d s IH]; [done|].
  change (String d s +:+ String c "") with (String d (s +:+ String c "")).
  rewrite !rev_cons, IH. done.
Qed.

Lemma rev_involutive (s : string) : String.rev (String.rev s) = s.
Proof.
  induction s as [|c s IH]; [done|]. by rewrite rev_cons, rev_snoc, IH.
Qed.

Lemma rev_empty (s : string) : String.rev s = "" → s = "".
Proof. intros H. apply (f_equal String.rev) in H. by rewrite rev_involutive in H. Qed.

Lemma lstrip_snoc (s : string) (c : ascii) :
  lstrip (s +:+ String c "")
  = if bool_decide (lstrip s = "")
    then (if is_space c then "" else String c "")
    else lstrip s +:+ String c "".
Proof.
  induction s as [|d s IH].
  - change ("" +:+ String c "") with (String c ""). cbn [lstrip].
    rewrite bool_decide_eq_true_2 by done. by destruct (is_space c).
  - change (String d s +:+ String c "") with (String d (s +:+ String c "")).
    cbn [lstrip]. destruct (is_space d); [exact IH|].
    by rewrite bool_decide_eq_false_2.
Qed.

(** [rstrip], read from the left. *)
Lemma rstrip_cons (c : ascii) (s : string) :
  rstrip (String c s)
  = if is_space c && bool_decide (rstrip s = "") then "" else String c (rstrip s).
Proof.
  unfold rstrip. rewrite rev_cons, lstrip_snoc.
  case_bool_decide as Hs.
  - rewrite Hs. cbn [String.rev String.rev_app].
    rewrite bool_decide_eq_true_2 by done. rewrite andb_true_r.
    by destruct (is_space c).
  - rewrite rev_snoc. rewrite bool_decide_eq_false_2.
    + by rewrite andb_false_r.
    + intros H. by apply rev_empty in H.
Qed.

Lemma rstrip_nil : rstrip "" = "".
Proof. done. Qed.

(** A string without white space is a fixed point of the stripping
    functions, and stays at the front of what is stripped behind it. *)
Lemma rstrip_app_word (w s : string) :
  all_chars (λ c, negb (is_space c)) w = true →
  w ≠ "" ∨ rstrip s ≠ "" →
  rstrip (w +:+ s) = w +:+ rstrip s.
Proof.
  induction w as [|c w IH]; intros Hw Hne.
  - done.
  - cbn [all_chars] in Hw. apply andb_true_iff in Hw as [Hc Hw].
    change (String c w +:+ s) with (String c (w +:+ s)).
    rewrite rstrip_cons. apply negb_true_iff in Hc. rewrite Hc. cbn [andb].
    change (String c w +:+ rstrip s) with (String c (w +:+ rstrip s)).
    destruct w as [|d w].
    + done.
    + rewrite IH; [done | done | by left].
Qed.

Lemma strip_word (w : string) :
  all_chars (λ c, negb (is_space c)) w = true → strip w = w.
Proof.
  intros Hw. unfold strip.
  assert (Hl : lstrip w = w).
  { destruct w as [|c w]; [done|]. cbn [all_chars] in Hw.
    apply andb_true_iff in Hw as [Hc _]. apply negb_true_iff in Hc.
    cbn [lstrip]. by rewrite Hc. }
  rewrite Hl. destruct w as [|c w]; [done|].
  rewrite <- (string_app_nil_r (String c w)) at 1.
  rewrite rstrip_app_word; [|done|by left]. by rewrite rstrip_nil, string_app_nil_r.
Qed.

(** ** Words *)

Lemma all_chars_app (P : ascii → bool) (s t : string) :
  all_chars P (s +:+ t) = all_chars P s && all_chars P t.
Proof.
  induction s as [|c s IH]; [done|].
  change (String c s +:+ t) with (String c (s +:+ t)). cbn [all_chars].
  by rewrite IH, andb_assoc.
Qed.

Lemma all_chars_impl (P Q : ascii → bool) (s : string) :
  (∀ c, P c = true → Q c = true) → all_chars P s = true → all_chars Q s = true.
Proof.
  intros HPQ. induction s as [|c s IH]; [done|]. cbn [all_chars].
  intros [Hc Hs]%andb_true_iff. rewrite (HPQ c Hc). cbn [andb]. by apply IH.
Qed.

Lemma all_chars_map_chars (P : ascii → bool) (f : ascii → ascii) (s : string) :
  (∀ c, P (f c) = true) → all_chars P (map_chars f s) = true.
Proof.
  intros Hf. induction s as [|c s IH]; [done|]. cbn [map_chars all_chars].
  by rewrite Hf, IH.
Qed.

Lemma map_chars_id (P : ascii → bool) (f : ascii → ascii) (s : string) :
  (∀ c, P c = true → f c = c) → all_chars P s = true → map_chars f s = s.
Proof.
  intros Hf. induction s as [|c s IH]; [done|]. cbn [map_chars all_chars].
  intros [Hc Hs]%andb_true_iff. by rewrite (Hf c Hc), (IH Hs).
Qed.

Lemma nonempty_app_l (s t : string) : nonempty s = true → nonempty (s +:+ t) = true.
Proof. by destruct s. Qed.

Lemma nonempty_snoc (s : string) (c : ascii) : nonempty (s +:+ String c "") = true.
Proof. by destruct s. Qed.

(** The words that [split] finds are not empty, and their characters are
    those of the string that are no white space. *)
Lemma split_go_words (Q : ascii → bool) (cur s : string) :
  (∀ c, Q c = true → is_space c = false) →
  all_chars Q cur = true →
  all_chars (λ c, is_space c || Q c) s = true →
  Forall (λ w, nonempty w = true ∧ all_chars Q w = true) (split_go cur s).
Proof.
  intros HQ. revert cur. induction s as [|c s IH]; intros cur Hcur Hs.
  - cbn [split_go]. destruct cur; [constructor|]. by repeat constructor.
  - cbn [all_chars] in Hs. apply andb_true_iff in Hs as [Hc Hs].
    cbn [split_go]. destruct (is_space c) eqn:Hsp.
    + destruct cur as [|d cur].
      * by apply IH.
      * constructor; [done|]. by apply IH.
    + cbn [orb] in Hc. apply IH; [|done].
      rewrite all_chars_app, Hcur. cbn [all_chars]. by rewrite Hc.
Qed.

Lemma split_go_app_word (cur w s : string) :
  all_chars (λ c, negb (is_space c)) w = true →
  split_go cur (w +:+ s) = split_go (cur +:+ w) s.
Proof.
  revert cur. induction w as [|c w IH]; intros cur Hw.
  - by rewrite string_app_nil_r.
  - cbn [all_chars] in Hw. apply andb_true_iff in Hw as [Hc Hw].
    apply negb_true_iff in Hc.
    change (String c w +:+ s) with (String c (w +:+ s)). cbn [split_go].
    rewrite Hc, (IH _ Hw), string_app_assoc. done.
Qed.

(** Joining words with single spaces and splitting again gives the words. *)
Lemma split_join (ws : list string) :
  Forall (λ w, nonempty w = true ∧ all_chars (λ c, negb (is_space c)) w = true) ws →
  split (join " " ws) = ws.
Proof.
  unfold split. induction ws as [|w ws IH]; intros Hws; [done|].
  apply Forall_cons in Hws as [[Hne Hw] Hws]. specialize (IH Hws).
  destruct ws as [|w' ws].
  - cbn [join]. rewrite <- (string_app_nil_r w) at 1.
    rewrite split_go_app_word by done. cbn [split_go].
    change ("" +:+ w) with w. by destruct w.
  - change (join " " (w :: w' :: ws)) with (w +:+ " " +:+ join " " (w' :: ws)).
    rewrite split_go_app_word by done. change ("" +:+ w) with w.
    change (" " +:+ join " " (w' :: ws)) with (String " " (join " " (w' :: ws))).
    cbn [split_go]. change (is_space " ") with true. cbv iota.
    rewrite IH. by destruct w.
Qed.

Lemma join_empty (ws : list string) :
  Forall (λ w, nonempty w = true) ws → join " " ws = "" → ws = [].
Proof.
  destruct ws as [|w ws]; [done|]. intros [Hw _]%Forall_cons.
  destruct ws as [|w' ws]; cbn [join]; by destruct w.
Qed.

Lemma join_cons (w : string) (ws : list string) :
  join " " (w :: ws) = if bool_decide (ws = []) then w else w +:+ " " +:+ join " " ws.
Proof. by destruct ws. Qed.

(** ** Collapsing white space *)

Lemma collapse_ws_true_no_lead (s : string) :
  lstrip (collapse_ws true s) = collapse_ws true s.
Proof.
  induction s as [|c s IH]; [done|]. cbn [collapse_ws].
  destruct (is_space c) eqn:Hc; [done|]. cbn [lstrip]. by rewrite Hc.
Qed.

Lemma lstrip_collapse_ws (s : string) :
  lstrip (collapse_ws false s) = collapse_ws true s.
Proof.
  destruct s as [|c s]; [done|]. cbn [collapse_ws].
  destruct (is_space c) eqn:Hc.
  - cbn [lstrip]. change (is_space " ") with true. cbv iota.
    apply collapse_ws_true_no_lead.
  - cbn [lstrip]. by rewrite Hc.
Qed.

(** What is left of a collapsed string once its end is stripped: the words
    of the string, with one space between them. *)
Lemma rstrip_collapse_ws (s : string) :
  (∀ cur, nonempty cur = true →
          all_chars (λ c, negb (is_space c)) cur = true →
          rstrip (cur +:+ collapse_ws false s) = join " " (split_go cur s))
  ∧ rstrip (collapse_ws true s) = join " " (split_go "" s).
Proof.
  induction s as [|c s [IHA IHB]].
  - split; [|done]. intros cur Hne Hcur. cbn [collapse_ws split_go].
    rewrite rstrip_app_word by (done || by left; destruct cur).
    rewrite rstrip_nil, string_app_nil_r. by destruct cur.
  - assert (Hwords : Forall (λ w, nonempty w = true) (split_go "" s)).
    { eapply Forall_impl.
      - apply (split_go_words (λ c, negb (is_space c)) "" s).
        + intros d Hd. by apply negb_true_iff.
        + done.
        + clear. induction s as [|d s IH]; [done|]. cbn [all_chars].
          rewrite IH. by destruct (is_space d).
      - by intros w [? _]. }
    split.
    + intros cur Hne Hcur. cbn [collapse_ws split_go].
      destruct (is_space c) eqn:Hc.
      * rewrite rstrip_app_word by (done || by left; destruct cur).
        rewrite rstrip_cons. change (is_space " ") with true. cbn [andb].
        rewrite IHB.
        destruct cur as [|d cur]; [done|].
        rewrite join_cons. case_bool_decide as Hj.
        -- rewrite bool_decide_eq_true_2 by (by apply join_empty).
           by rewrite string_app_nil_r.
        -- rewrite bool_decide_eq_false_2; [done|].
           intros Hempty. by rewrite Hempty in Hj.
      * change (cur +:+ String c (collapse_ws false s))
          with (cur +:+ (String c "" +:+ collapse_ws false s)).
        rewrite <- string_app_assoc. apply IHA.
        -- apply nonempty_snoc.
        -- rewrite all_chars_app, Hcur. cbn [all_chars]. by rewrite Hc.
    + cbn [collapse_ws split_go]. destruct (is_space c) eqn:Hc; [exact IHB|].
      change (String c (collapse_ws false s)) with (String c "" +:+ collapse_ws false s).
      change ("" +:+ String c "") with (String c "").
      apply IHA; [done|]. cbn [all_chars]. by rewrite Hc.
Qed.

(** [" ".join(s.split())], the way [normalize_text] computes it. *)
Lemma strip_collapse_ws (s : string) : strip (collapse_ws false s) = join " " (split s).
Proof.
  unfold strip, split. rewrite lstrip_collapse_ws.
  apply (proj2 (rstrip_collapse_ws s)).
Qed.

(** ** Characters *)

Lemma lower_alnum_not_space (c : ascii) : is_lower_alnum c = true → is_space c = false.
Proof. destruct c as [[] [] [] [] [] [] [] []]; by vm_compute. Qed.

Lemma normal_to_lower (c : ascii) : is_normal c = true → to_lower c = c.
Proof. destruct c as [[] [] [] [] [] [] [] []]; by vm_compute. Qed.

Lemma normal_kept (c : ascii) :
  is_normal c = true → (if is_lower_alnum c then c else " "%char) = c.
Proof. destruct c as [[] [] [] [] [] [] [] []]; by vm_compute. Qed.

Lemma replaced_space_or_alnum (c : ascii) :
  let d := if is_lower_alnum c then c else " "%char in
  is_space d || is_lower_alnum d = true.
Proof. destruct c as [[] [] [] [] [] [] [] []]; by vm_compute. Qed.

Lemma lower_alnum_normal (c : ascii) : is_lower_alnum c = true → is_normal c = true.
Proof. unfold is_normal. by intros ->. Qed.

Lemma folder_safe_not_space (c : ascii) : is_folder_safe c = true → is_space c = false.
Proof. destruct c as [[] [] [] [] [] [] [] []]; by vm_compute. Qed.

Lemma folder_safe_made (c : ascii) :
  is_folder_safe (if is_folder_safe c then c else "_"%char) = true.
Proof. destruct c as [[] [] [] [] [] [] [] []]; by vm_compute. Qed.

Lemma to_lower_idem (c : ascii) : to_lower (to_lower c) = to_lower c.
Proof. destruct c as [[] [] [] [] [] [] [] []]; by vm_compute. Qed.

(** ** [normalize_text] and [tokens_from_name_field] *)

Lemma split_spaced_words (s : option string) :
  Forall (λ w, nonempty w = true ∧ all_chars is_lower_alnum w = true) (split (spaced s)).
Proof.
  apply split_go_words; [exact lower_alnum_not_space | done |].
  apply all_chars_map_chars. exact replaced_space_or_alnum.
Qed.

Lemma words_space_free (ws : list string) :
  Forall (λ w, nonempty w = true ∧ all_chars is_lower_alnum w = true) ws →
  Forall (λ w, nonempty w = true ∧ all_chars (λ c, negb (is_space c)) w = true) ws.
Proof.
  intros Hws. eapply Forall_impl; [exact Hws|]. intros w [Hne Hw]. split; [done|].
  eapply all_chars_impl; [|exact Hw].
  intros c Hc. by rewrite (lower_alnum_not_space c Hc).
Qed.

Lemma normalize_text_words (s : option string) :
  normalize_text s = join " " (split (spaced s)).
Proof. unfold normalize_text. apply strip_collapse_ws. Qed.

Lemma tokens_from_name_field_words (s : option string) :
  tokens_from_name_field s = split (spaced s).
Proof.
  unfold tokens_from_name_field. rewrite normalize_text_words.
  rewrite split_join by apply words_space_free, split_spaced_words.
  apply filter_all. eapply Forall_impl; [apply split_spaced_words|].
  by intros w [? _].
Qed.

(** X1. The normalized text is its tokens with one space between them, and
    every token is a non-empty run of lower-case letters and digits: the
    text has no other character, no space at either end and no two spaces
    in a row. *)
Theorem normalize_text_is_its_tokens_joined (s : option string) :
  normalize_text s = join " " (tokens_from_name_field s)
  ∧ Forall (λ t, nonempty t = true ∧ all_chars is_lower_alnum t = true)
           (tokens_from_name_field s).
Proof.
  rewrite tokens_from_name_field_words. split.
  - apply normalize_text_words.
  - apply split_spaced_words.
Qed.

Lemma all_chars_join (P : ascii → bool) (ws : list string) :
  P " "%char = true →
  Forall (λ w, all_chars P w = true) ws → all_chars P (join " " ws) = true.
Proof.
  intros Hsp. induction ws as [|w ws IH]; [done|].
  intros [Hw Hws]%Forall_cons. rewrite join_cons. case_bool_decide; [done|].
  rewrite !all_chars_app, Hw, (IH Hws). cbn [all_chars]. by rewrite Hsp.
Qed.

Lemma normalize_text_normal (s : option string) :
  all_chars is_normal (normalize_text s) = true.
Proof.
  rewrite normalize_text_words. apply all_chars_join; [done|].
  eapply Forall_impl; [apply split_spaced_words|].
  intros w [_ Hw]. eapply all_chars_impl; [exact lower_alnum_normal | exact Hw].
Qed.

Lemma spaced_normal (t : string) : all_chars is_normal t = true → spaced (Some t) = t.
Proof.
  intros Ht. unfold spaced, lower. change (or_empty (Some t)) with t.
  rewrite (map_chars_id is_normal to_lower t normal_to_lower Ht).
  apply (map_chars_id is_normal); [exact normal_kept | exact Ht].
Qed.

(** X2. Normalizing twice is normalizing once. *)
Theorem normalize_text_idempotent (s : option string) :
  normalize_text (Some (normalize_text s)) = normalize_text s.
Proof.
  rewrite (normalize_text_words (Some _)).
  rewrite spaced_normal by apply normalize_text_normal.
  rewrite normalize_text_words at 1.
  rewrite split_join by apply words_space_free, split_spaced_words.
  by rewrite normalize_text_words.
Qed.

(** ** [sanitize_folder_part] *)

Lemma nonempty_map_chars (f : ascii → ascii) (s : string) :
  nonempty (map_chars f s) = nonempty s.
Proof. by destruct s. Qed.

Lemma length_map_chars (f : ascii → ascii) (s : string) :
  String.length (map_chars f s) = String.length s.
Proof. induction s as [|c s IH]; [done|]. cbn. by rewrite IH. Qed.

Lemma sanitize_folder_part_shape (s : option string) :
  nonempty (sanitize_folder_part s) = true
  ∧ all_chars is_folder_safe (sanitize_folder_part s) = true.
Proof.
  unfold sanitize_folder_part.
  set (f := λ c : ascii, if is_folder_safe c then c else "_"%char).
  rewrite nonempty_map_chars.
  destruct (strip (or_empty s)) as [|c t] eqn:Hs; [done|].
  cbn [nonempty]. split; [done|].
  apply all_chars_map_chars. exact folder_safe_made.
Qed.

(** X3. The folder part is never empty and has letters, digits, [_] and [-]
    only; a name that is absent, empty or blank gives [unknown], and any
    other name keeps its length once stripped. *)
Theorem sanitize_folder_part_safe (s : option string) :
  nonempty (sanitize_folder_part s) = true
  ∧ all_chars is_folder_safe (sanitize_folder_part s) = true
  ∧ (strip (or_empty s) = "" → sanitize_folder_part s = "unknown")
  ∧ (strip (or_empty s) ≠ "" →
     String.length (sanitize_folder_part s) = String.length (strip (or_empty s))).
Proof.
  destruct (sanitize_folder_part_shape s) as [Hne Hsafe].
  split; [exact Hne|]. split; [exact Hsafe|].
  unfold sanitize_folder_part.
  destruct (strip (or_empty s)) as [|c t] eqn:Hs.
  - by split.
  - split; [done|]. intros _. cbn [nonempty]. apply length_map_chars.
Qed.

(** X4. Sanitizing twice is sanitizing once. *)
Theorem sanitize_folder_part_idempotent (s : option string) :
  sanitize_folder_part (Some (sanitize_folder_part s)) = sanitize_folder_part s.
Proof.
  destruct (sanitize_folder_part_shape s) as [Hne Hsafe].
  set (r := sanitize_folder_part s) in *.
  unfold sanitize_folder_part at 1. change (or_empty (Some r)) with r.
  rewrite strip_word.
  - rewrite (map_chars_id is_folder_safe) by (done || by intros c ->).
    by rewrite Hne.
  - eapply all_chars_impl; [|exact Hsafe].
    intros c Hc. by rewrite (folder_safe_not_space c Hc).
Qed.

(** * More on the matcher *)

(** X5. The count of phase 1 is the number of distinct name tokens of the
    record that are tokens of the file name: repetitions and the order of
    the tokens do not matter, and the count is at most the number of
    tokens of the file name. *)
Theorem token_count_is_overlap (filename_tokens : gset string) (row : Row) :
  count_token_matches filename_tokens row
  = size (list_to_set (record_tokens row) ∩ filename_tokens)
  ∧ count_token_matches filename_tokens row ≤ size filename_tokens
  ∧ ∀ row' : Row,
      list_to_set (record_tokens row') =@{gset string} list_to_set (record_tokens row) →
      count_token_matches filename_tokens row'
      = count_token_matches filename_tokens row.
Proof.
  split; [apply count_token_matches_size|]. split.
  - rewrite count_token_matches_size. apply subseteq_size, intersection_subseteq_r.
  - intros row' Heq. by rewrite !count_token_matches_size, Heq.
Qed.

(** X6. What a returned record satisfies.  It is a record of the roster.
    Tagged [token], its count reaches [min_token_matches] and no record
    has a higher one.  Tagged [fuzzy], no record reaches
    [min_token_matches], the ratio of the tag reaches [fuzzy_threshold],
    it is the ratio of the file name with a variant of the record that is
    not empty, and no variant of any record has a higher one. *)
Theorem returned_record_reaches_a_threshold
    (fuzzy_ratio : string → string → Q) (filename : string) (rows : list Row)
    (min_token_matches : Z) (fuzzy_threshold : Q) (row : Row) (how : option method) :
  let norm_fname := normalize_text (Some filename) in
  let fname_tokens : gset string := list_to_set (split norm_fname) in
  find_best_row_for_filename fuzzy_ratio filename rows min_token_matches fuzzy_threshold
  = (Some row, how) →
  row ∈ rows
  ∧ ((how = Some token
      ∧ (min_token_matches ≤ Z.of_nat (count_token_matches fname_tokens row))%Z
      ∧ Forall (λ r, count_token_matches fname_tokens r
                     ≤ count_token_matches fname_tokens row) rows)
     ∨ (∃ q v,
          how = Some (fuzzy q)
          ∧ Forall (λ r, (Z.of_nat (count_token_matches fname_tokens r)
                          < min_token_matches)%Z) rows
          ∧ (fuzzy_threshold <= q)%Q
          ∧ v ∈ variants row ∧ nonempty v = true ∧ q = fuzzy_ratio norm_fname v
          ∧ Forall (λ c, (c.2 <= q)%Q) (candidates fuzzy_ratio norm_fname rows))).
Proof.
  intros norm S Hres. split; [by eapply find_best_in_rows|].
  revert Hres. unfold find_best_row_for_filename. fold norm. fold S.
  assert (Hfuzzy :
    (let '(best_ratio, best_row) := foldl (fuzzy_step fuzzy_ratio norm) (0%Q, None) rows in
     if Qle_bool fuzzy_threshold best_ratio then (best_row, Some (fuzzy best_ratio))
     else (None, None)) = (Some row, how) →
    ∃ q v, how = Some (fuzzy q) ∧ (fuzzy_threshold <= q)%Q
           ∧ v ∈ variants row ∧ nonempty v = true ∧ q = fuzzy_ratio norm v
           ∧ Forall (λ c, (c.2 <= q)%Q) (candidates fuzzy_ratio norm rows)).
  { destruct (fuzzy_fold_cases fuzzy_ratio norm rows)
      as [[_ ->] | (r & q & -> & _ & Hfb)].
    - destruct (Qle_bool fuzzy_threshold 0); intros H; inversion H.
    - destruct (Qle_bool fuzzy_threshold q) eqn:Hq; intros H; inversion H; subst.
      apply Qle_bool_iff in Hq.
      pose proof (first_best_upper Qlt Qle Qlt_le_weak _ _ _ Qle_refl Hfb) as Hup.
      destruct Hfb as (l1 & l2 & Hsplit & _).
      assert (Hin : (row, q) ∈ candidates fuzzy_ratio norm rows).
      { rewrite Hsplit. apply elem_of_app. right. apply elem_of_cons. by left. }
      apply elem_of_candidates in Hin as (_ & v & Hv & Hne & Hq').
      by exists q, v. }
  destruct (token_fold_cases S rows) as [[Hzero ->] | (r & -> & Hpos & Hfb)].
  - destruct (min_token_matches <=? Z.of_nat 0)%Z eqn:Hm; [intros H; inversion H|].
    intros H. right. destruct (Hfuzzy H) as (q & v & ? & ? & ? & ? & ? & ?).
    exists q, v. split; [done|]. split; [|done].
    apply Z.leb_gt in Hm. eapply Forall_impl; [exact Hzero|].
    intros r Hr. simpl in Hr. rewrite Hr. lia.
  - apply first_best_scored in Hfb as (l1 & l2 & -> & _ & H1 & H2).
    assert (Hall : Forall (λ r0, count_token_matches S r0 ≤ count_token_matches S r)
                     (l1 ++ r :: l2)).
    { apply Forall_app. split.
      - eapply Forall_impl; [exact H1|]. intros r0 Hr0. simpl in Hr0. lia.
      - constructor; [lia | exact H2]. }
    destruct (min_token_matches <=? Z.of_nat (count_token_matches S r))%Z eqn:Hm.
    + intros H; inversion H; subst. left. apply Z.leb_le in Hm. done.
    + intros H. right. destruct (Hfuzzy H) as (q & v & ? & ? & ? & ? & ? & ?).
      exists q, v. split; [done|]. split; [|done].
      apply Z.leb_gt in Hm. eapply Forall_impl; [exact Hall|].
      intros r0 Hr0. simpl in Hr0. lia.
Qed.

Lemma lower_idem (s : string) : lower (lower s) = lower s.
Proof.
  unfold lower. induction s as [|c s IH]; [done|]. cbn [map_chars].
  by rewrite to_lower_idem, IH.
Qed.

(** X7. The match depends on the file name through its normalized text only,
    and the normalized text does not depend on the case of the letters. *)
Theorem matching_ignores_case
    (fuzzy_ratio : string → string → Q) (filename : string) (rows : list Row)
    (min_token_matches : Z) (fuzzy_threshold : Q) :
  normalize_text (Some (lower filename)) = normalize_text (Some filename)
  ∧ find_best_row_for_filename fuzzy_ratio (lower filename) rows
      min_token_matches fuzzy_threshold
    = find_best_row_for_filename fuzzy_ratio filename rows
        min_token_matches fuzzy_threshold
  ∧ ∀ other,
      normalize_text (Some other) = normalize_text (Some filename) →
      find_best_row_for_filename fuzzy_ratio other rows min_token_matches fuzzy_threshold
      = find_best_row_for_filename fuzzy_ratio filename rows
          min_token_matches fuzzy_threshold.
Proof.
  assert (Hlower : normalize_text (Some (lower filename)) = normalize_text (Some filename)).
  { unfold normalize_text. change (or_empty (Some (lower filename))) with (lower filename).
    change (or_empty (Some filename)) with filename. by rewrite lower_idem. }
  assert (Hdep : ∀ other,
            normalize_text (Some other) = normalize_text (Some filename) →
            find_best_row_for_filename fuzzy_ratio other rows
              min_token_matches fuzzy_threshold
            = find_best_row_for_filename fuzzy_ratio filename rows
                min_token_matches fuzzy_threshold).
  { intros other Heq. unfold find_best_row_for_filename. by rewrite Heq. }
  split; [exact Hlower|]. split; [by apply Hdep | exact Hdep].
Qed.

(** * The roster *)

Lemma decimal_nonempty (i : nat) : nonempty (decimal i) = true.
Proof.
  destruct (decimal i) eqn:Hd; [|done]. exfalso.
  unfold decimal in Hd. apply (f_equal NilEmpty.uint_of_string) in Hd.
  rewrite NilEmpty.usu in Hd. cbn in Hd. injection Hd as Hd.
  pose proof (Unsigned.of_to i) as Hi. rewrite Hd in Hi. cbn in Hi. subst i.
  discriminate Hd.
Qed.

Lemma load_csv_rows_from_lookup (idx : nat) (reader : list Row) (i : nat) (row : Row) :
  reader !! i = Some row →
  load_csv_rows_from idx reader !! i
  = Some (if truthy (row !! "index") then row
          else <["_csv_index" := decimal (idx + i)]> row).
Proof.
  revert idx i. induction reader as [|r reader IH]; intros idx i; [done|].
  destruct i as [|i]; cbn [load_csv_rows_from].
  - intros [= ->]. by rewrite Nat.add_0_r.
  - intros Hi. rewrite Nat.add_succ_r. exact (IH (S idx) i Hi).
Qed.

Lemma row_index_nonempty_from (idx : nat) (reader : list Row) :
  Forall (λ row, nonempty (row_index row) = true) (load_csv_rows_from idx reader).
Proof.
  revert idx. induction reader as [|r reader IH]; intros idx; [constructor|].
  cbn [load_csv_rows_from]. constructor; [|apply IH].
  unfold row_index. destruct (truthy (r !! "index")) eqn:Hidx.
  - rewrite Hidx. by destruct (r !! "index") as [[|]|].
  - rewrite lookup_insert_ne by done. rewrite Hidx.
    rewrite lookup_insert_eq.
    pose proof (decimal_nonempty idx) as Hd.
    destruct (decimal idx); [done|]. done.
Qed.

(** X8. [load_csv_rows] keeps the rows and their order: a row with an
    identifier is kept as it is, a row without one gets its position,
    counted from 1, under [_csv_index]; so every row that is loaded has
    an identifier that is not empty. *)
Theorem load_csv_rows_numbers_rows (reader : list Row) :
  length (load_csv_rows reader) = length reader
  ∧ (∀ i row,
       reader !! i = Some row →
       load_csv_rows reader !! i
       = Some (if truthy (row !! "index") then row
               else <["_csv_index" := decimal (S i)]> row))
  ∧ Forall (λ row, nonempty (row_index row) = true) (load_csv_rows reader).
Proof.
  split; [|split].
  - unfold load_csv_rows. generalize 1. induction reader as [|r reader IH]; intros idx.
    + done.
    + cbn. by rewrite IH.
  - intros i row Hi. unfold load_csv_rows.
    by rewrite (load_csv_rows_from_lookup 1 reader i row Hi).
  - apply row_index_nonempty_from.
Qed.

(** * More on the conversion *)

Lemma converts_refl (env : Env) (st : World * Stats) : converts env st st.
Proof. by split. Qed.

Lemma converts_trans (env : Env) (a b c : World * Stats) :
  converts env a b → converts env b c → converts env a c.
Proof.
  intros [K1 S1 C1 F1 A1 M1 U1 P1 L1] [K2 S2 C2 F2 A2 M2 U2 P2 L2]. split.
  - intros p n Hp. apply K2, K1, Hp.
  - lia.
  - lia.
  - lia.
  - congruence.
  - congruence.
  - congruence.
  - congruence.
  - intros Hmiss. destruct (L1 Hmiss) as [E1 E2], (L2 Hmiss) as [E3 E4].
    split; congruence.
Qed.

Ltac converts_by_counters :=
  split;
  cbn [fst snd fs say with_fs bump_converted bump_convert_failed converted
       convert_failed files_seen matched unmatched skipped_existing_file];
  try done; try lia; try (intros; congruence).

Lemma convert_file_converts (env : Env) (root : path) (st : World * Stats) (f : string) :
  converts env st (convert_file env root st f).
Proof.
  unfold convert_file.
  destruct (ends_with ".docx" (lower f)); [|apply converts_refl].
  unfold exists_ at 1. case_bool_decide as Hex; [apply converts_refl|].
  apply eq_None_not_Some in Hex.
  unfold libreoffice_convert_docx_to_pdf. rewrite basename_app.
  destruct (libreoffice_in_path env) eqn:Hlo; cbn [negb].
  - destruct (soffice env (root ++ [f]) root (fs st.1)) as [|[pdf|]].
    + converts_by_counters.
    + rewrite Hex. cbn [with_fs fs].
      assert (Hnow : exists_ (<[root ++ [pdf_name f] := File pdf]> (fs st.1))
                       (root ++ [pdf_name f]) = true).
      { unfold exists_. rewrite lookup_insert_eq. apply bool_decide_eq_true. by eexists. }
      rewrite Hnow. converts_by_counters.
      * intros p n Hp. rewrite lookup_insert_ne; [done|]. intros <-. congruence.
      * rewrite map_size_insert_None by done. lia.
    + cbn [with_fs fs].
      assert (Hnow : exists_ (fs st.1) (root ++ [pdf_name f]) = false).
      { unfold exists_. apply bool_decide_eq_false. rewrite Hex. by intros [? ?]. }
      rewrite Hnow. converts_by_counters.
  - converts_by_counters.
Qed.

Lemma conversion_pass_converts (env : Env) (target : path) (st : World * Stats) :
  converts env st (conversion_pass env target st).
Proof.
  unfold conversion_pass. generalize (os_walk (fs st.1) target). intros triples.
  revert st. induction triples as [|[[root dirs] files] triples IH]; intros st.
  - apply converts_refl.
  - cbn [foldl fst snd]. eapply converts_trans; [|apply IH].
    clear IH. revert st. induction files as [|f files IHf]; intros st.
    + apply converts_refl.
    + cbn [foldl]. eapply converts_trans; [apply convert_file_converts | apply IHf].
Qed.

(** X15. The conversion pass over a folder only adds files: every entry keeps
    its content, the number of entries grows by exactly what the pass adds
    to [converted], no counter of the matching moves, and when LibreOffice
    is not installed the file system is left as it was. *)
Theorem conversion_pass_only_adds_counted_pdfs
    (env : Env) (target_folder : path) (st : World * Stats) :
  let st' := conversion_pass env target_folder st in
  (∀ p n, fs st.1 !! p = Some n → fs st'.1 !! p = Some n)
  ∧ size (fs st'.1) = size (fs st.1) + (converted st'.2 - converted st.2)
  ∧ converted st.2 ≤ converted st'.2
  ∧ convert_failed st.2 ≤ convert_failed st'.2
  ∧ (files_seen st'.2, matched st'.2, unmatched st'.2, skipped_existing_file st'.2)
    = (files_seen st.2, matched st.2, unmatched st.2, skipped_existing_file st.2)
  ∧ (libreoffice_in_path env = false →
     fs st'.1 = fs st.1 ∧ converted st'.2 = converted st.2).
Proof.
  intros st'. destruct (conversion_pass_converts env target_folder st)
    as [K S C F A M U P L]. fold st' in K, S, C, F, A, M, U, P, L.
  split; [exact K|]. split; [lia|]. split; [exact C|]. split; [exact F|].
  split; [by rewrite A, M, U, P | exact L].
Qed.

(** X14. [libreoffice_convert_docx_to_pdf] judges success by the PDF being
    there when the converter has exited with 0: what it returns, if
    anything, is [out_dir/<stem>.pdf], and it returns it exactly when
    LibreOffice is installed, has exited with 0 and that path exists
    afterwards, whether or not this run wrote it.  No other path changes,
    and the converter is not started when LibreOffice is not installed. *)
Theorem libreoffice_success_is_pdf_present
    (env : Env) (docx_path out_dir : path) (w : World) :
  let pdf_path := out_dir ++ [pdf_name (basename docx_path)] in
  let r := libreoffice_convert_docx_to_pdf env docx_path out_dir w in
  (r.2 = Some pdf_path
   ↔ libreoffice_in_path env = true
     ∧ soffice env docx_path out_dir (fs w) ≠ ExitError
     ∧ is_Some (fs r.1 !! pdf_path))
  ∧ (r.2 = None ∨ r.2 = Some pdf_path)
  ∧ (∀ p, p ≠ pdf_path → fs r.1 !! p = fs w !! p)
  ∧ (libreoffice_in_path env = false →
     fs r.1 = fs w ∧ log r.1 = log w ++ [Print LibreOfficeMissing])
  ∧ (soffice env docx_path out_dir (fs w) = Exit0 None →
     fs r.1 = fs w).
Proof.
  intros pdf_path r.
  destruct (libreoffice_in_path env) eqn:Hlo.
  - destruct (soffice env docx_path out_dir (fs w)) as [|out] eqn:Hrun.
    + assert (Hr : r = (say (ConvertFailed docx_path)
                          (mkWorld (fs w) (log w ++ [Exec docx_path out_dir (fs w)])),
                        None)).
      { unfold r, libreoffice_convert_docx_to_pdf. by rewrite Hlo, Hrun. }
      rewrite Hr. cbn [fst snd say fs].
      split; [|split; [by left|split; [done|split; [done|done]]]].
      split; [done|]. by intros (_ & ? & _).
    + assert (Hr :
        ∃ fs', (fs' = fs w ∨ ∃ pdf, fs' = <[pdf_path := File pdf]> (fs w))
               ∧ (out = None → fs' = fs w)
               ∧ r = (with_fs (mkWorld (fs w) (log w ++ [Exec docx_path out_dir (fs w)]))
                              fs',
                      if exists_ fs' pdf_path then Some pdf_path else None)).
      { unfold r, libreoffice_convert_docx_to_pdf. rewrite Hlo, Hrun. cbn [negb].
        fold pdf_path.
        destruct out as [pdf|], (fs w !! pdf_path) as [[data|]|];
          eexists; (split; [|split; [|reflexivity]]); eauto; done. }
      destruct Hr as (fs' & Hfs' & Hnone & ->). cbn [fst snd with_fs fs].
      assert (Hframe : ∀ p, p ≠ pdf_path → fs' !! p = fs w !! p).
      { intros p Hp. destruct Hfs' as [-> | [pdf ->]]; [done|].
        by rewrite lookup_insert_ne. }
      unfold exists_. case_bool_decide as Hex.
      * split; [|split; [by right|split; [exact Hframe|split; [done|]]]].
        -- split; [|done]. intros _. by repeat split.
        -- intros [= ->]. by apply Hnone.
      * split; [|split; [by left|split; [exact Hframe|split; [done|]]]].
        -- split; [done|]. by intros (_ & _ & ?).
        -- intros [= ->]. by apply Hnone.
  - assert (Hr : r = (say LibreOfficeMissing w, None)).
    { unfold r, libreoffice_convert_docx_to_pdf. by rewrite Hlo. }
    rewrite Hr. cbn [fst snd say fs log].
    split; [|split; [by left|split; [done|split; [done|done]]]].
    split; [done|]. by intros (? & _).
Qed.

(** * More on the flattening *)







(** * More on the run *)

(** ** What a run may touch *)

Lemma off_output_off_target (cwd : path) (row : Row) (q : path) :
  ¬ on_branch (cwd ++ [OUTPUT_DIR]) q → ¬ on_branch (target_of cwd row) q.
Proof.
  intros Hoff [Hq | Hq]; apply Hoff; unfold target_of in Hq.
  - change [OUTPUT_DIR; folder_name_of row] with ([OUTPUT_DIR] ++ [folder_name_of row]) in Hq.
    rewrite app_assoc in Hq.
    destruct Hq as [k Hk]. destruct (decide (k = [])) as [-> | Hne].
    + right. rewrite app_nil_r in Hk. rewrite <- Hk. by apply prefix_app_r.
    + left. destruct (exists_last Hne) as (k' & x & ->).
      rewrite app_assoc in Hk. apply app_inj_tail in Hk as [-> _].
      by apply prefix_app_r.
  - right. etrans; [|exact Hq].
    change [OUTPUT_DIR; folder_name_of row] with ([OUTPUT_DIR] ++ [folder_name_of row]).
    rewrite app_assoc. by apply prefix_app_r.
Qed.

Lemma process_file_off_output (env : Env) (rows : list Row) (st st' : World * Stats)
    (fname : string) :
  Forall (λ row, has_char "/" (row_index row) = false) rows →
  process_file env rows st fname = Ok st' →
  touches_only (cwd env ++ [OUTPUT_DIR]) (fs st.1) (fs st'.1).
Proof.
  intros Hplain Hp.
  pose proof (process_file_cases env rows st fname) as Hc. rewrite Hp in Hc.
  destruct Hc as (_ & _ & [-> | (row & fs1 & target & Hrow & Hmk & Htouch)]); [done|].
  rewrite Forall_forall in Hplain. specialize (Hplain row Hrow).
  destruct (target_folder_plain _ _ _ _ _ Hplain Hmk) as [-> Htouch1].
  intros q Hq. pose proof (off_output_off_target (cwd env) row q Hq) as Hoff.
  by rewrite Htouch, Htouch1.
Qed.

(** X16. For a roster whose identifiers contain no path separator, a run that
    completes writes in the output directory only: every path that is
    neither the output directory, nor above it, nor below it is as it was,
    present or absent, with the same content. *)
Theorem run_writes_below_output_dir_only
    (env : Env) (reader : list Row) (w w' : World) (stats : Stats) :
  plain_roster reader →
  organize_and_convert env reader w = Ok (w', stats) →
  ∀ q, ¬ q `prefix_of` (cwd env ++ [OUTPUT_DIR]) →
       ¬ (cwd env ++ [OUTPUT_DIR]) `prefix_of` q →
       fs w' !! q = fs w !! q.
Proof.
  intros Hplain Hrun q Hq1 Hq2.
  assert (Hoff : ¬ on_branch (cwd env ++ [OUTPUT_DIR]) q) by (by intros [?|?]).
  clear Hq1 Hq2. revert Hrun. apply loaded_rows_plain in Hplain.
  unfold organize_and_convert.
  destruct (makedirs_str (cwd env) OUTPUT_DIR (fs w)) as [[fs1 out]| |] eqn:Hout;
    simpl; [|done|done].
  apply output_dir_made in Hout as [-> Hout].
  destruct (sorted_listdir fs1 (input_dir env)) as [names|]; [|done].
  pose proof (fold_process_file_cases env (load_csv_rows reader) names
                (with_fs w fs1, no_stats)
                (λ st, touches_only (cwd env ++ [OUTPUT_DIR]) (fs w) (fs st.1)))
    as Hfold.
  destruct (fold_result _ _ names) as [st'|e|]; simpl; [|done|done].
  intros [= <- <-]. simpl. apply Hfold; [| |exact Hoff].
  - intros p Hp. simpl. apply Hout. intros ->. apply Hp. by left.
  - intros st0 st1 fname H0 Hp. eapply touches_only_trans; [exact H0|].
    by eapply process_file_off_output.
Qed.

(** ** The counters of a run, whatever the roster *)

Lemma process_file_skipped (env : Env) (rows : list Row) (st st' : World * Stats)
    (fname : string) :
  process_file env rows st fname = Ok st' →
  skipped_existing_file st'.2 + matched st.2 ≤ skipped_existing_file st.2 + matched st'.2
  ∧ matched st.2 ≤ matched st'.2.
Proof.
  unfold process_file.
  destruct (starts_with "." fname); [intros [= <-]; lia|].
  cbn [fst snd].
  destruct (negb (isfile (fs st.1) (input_dir env ++ [fname]))); [intros [= <-]; simpl; lia|].
  destruct (find_best_row_for_filename (fuzzy_ratio env) fname rows
              MIN_TOKEN_MATCHES FUZZY_THRESHOLD) as [[row|] how];
    [|intros [= <-]; simpl; lia].
  case_bool_decide; [intros [= <-]; simpl; lia|].
  unfold process_matched. cbn [fst snd].
  destruct (makedirs_str (cwd env) (path_join OUTPUT_DIR (folder_name_of row)) (fs st.1))
    as [[fs1 target]| |]; cbn [bind fst snd]; [|done..].
  destruct (place env fname (input_dir env ++ [fname]) target
              (with_fs st.1 fs1, bump_files_seen st.2)) as [st1| |] eqn:Hplace;
    cbn [bind]; [|done..].
  intros [= <-]. cbn [fst snd].
  destruct (conversion_pass_converts env target st1) as [_ _ _ _ _ M _ P _].
  cbn [bump_matched matched skipped_existing_file]. rewrite M, P.
  assert (Hst1 : skipped_existing_file st1.2 ≤ S (skipped_existing_file st.2)
                 ∧ matched st1.2 = matched st.2).
  { revert Hplace. unfold place. cbn [fst snd with_fs fs].
    destruct (exists_ fs1 (target ++ [fname])).
    - intros [= <-]. simpl. lia.
    - destruct (is_archive_name fname).
      + destruct (extract_and_flatten_archive env (input_dir env ++ [fname]) target
                    (with_fs st.1 fs1)) as [w1| |]; cbn [bind]; [|done..].
        intros [= <-]. simpl. lia.
      + destruct (safe_copy (input_dir env ++ [fname]) (target ++ [fname]) fs1)
          as [r| |]; cbn [bind]; [|done..].
        intros [= <-]. simpl. lia. }
  lia.
Qed.

Lemma fold_process_file_counters (env : Env) (rows : list Row)
    (names : list string) (st st' : World * Stats) :
  fold_result (process_file env rows) st names = Ok st' →
  files_seen st'.2 = files_seen st.2 + count visible names
  ∧ matched st'.2 + unmatched st'.2 + files_seen st.2
    ≤ matched st.2 + unmatched st.2 + files_seen st'.2
  ∧ skipped_existing_file st'.2 + matched st.2 ≤ skipped_existing_file st.2 + matched st'.2
  ∧ matched st.2 ≤ matched st'.2.
Proof.
  revert st. induction names as [|name names IH]; intros st; cbn [fold_result].
  - intros [= <-]. unfold count. simpl. lia.
  - pose proof (process_file_cases env rows st name) as Hc.
    destruct (process_file env rows st name) as [st1| |] eqn:Hp; cbn [bind]; [|done..].
    destruct Hc as (_ & Hcount & _).
    destruct (process_file_skipped env rows st st1 name Hp) as [Hs Hm].
    intros Hfold. destruct (IH st1 Hfold) as (H1 & H2 & H3 & H4).
    rewrite count_cons. unfold counted in Hcount.
    destruct (visible name).
    + destruct Hcount as (C1 & C23).
      destruct (isfile (fs st.1) (input_dir env ++ [name]));
        [destruct (is_matched env rows name)|]; destruct C23 as (C2 & C3); lia.
    + destruct Hcount as (C1 & C2 & C3). lia.
Qed.

(** X18. The counters that a run returns, for any roster: [files_seen] is the
    number of the names found in the input directory that do not start
    with a dot; [matched] plus [unmatched] does not exceed it;
    [skipped_existing_file] does not exceed [matched]; and the counters
    are those of the summary, which is the last thing printed. *)
Theorem summary_counters_are_consistent
    (env : Env) (reader : list Row) (w w' : World) (stats : Stats) :
  organize_and_convert env reader w = Ok (w', stats) →
  files_seen stats = count visible (names_in (fs w) (input_dir env))
  ∧ matched stats + unmatched stats ≤ files_seen stats
  ∧ skipped_existing_file stats ≤ matched stats
  ∧ ∃ printed, log w' = log w ++ printed ++ [Print (Summary stats)].
Proof.
  intros Hrun. unfold organize_and_convert in Hrun.
  destruct (makedirs_str (cwd env) OUTPUT_DIR (fs w)) as [[fs1 out]| |] eqn:Hout;
    simpl in Hrun; [|done|done].
  apply output_dir_made in Hout as [-> Hout].
  unfold sorted_listdir in Hrun. destruct (isdir fs1 (input_dir env)); [|done].
  destruct (fold_result (process_file env (load_csv_rows reader)) (with_fs w fs1, no_stats)
              (merge_sort String.le (scandir fs1 (input_dir env)).*1))
    as [st'| |] eqn:Hfold; simpl in Hrun; [|done|done].
  inversion Hrun; subst. clear Hrun.
  destruct (fold_process_file_counters env _ _ _ _ Hfold) as (H1 & H2 & H3 & H4).
  cbn [fst snd no_stats files_seen matched unmatched skipped_existing_file] in *.
  assert (Hperm : merge_sort String.le (scandir fs1 (input_dir env)).*1
                  ≡ₚ names_in (fs w) (input_dir env)).
  { rewrite merge_sort_Permutation.
    change ((scandir fs1 (input_dir env)).*1) with (names_in fs1 (input_dir env)).
    apply names_in_Permutation. intros name. apply Hout.
    unfold input_dir. rewrite <- app_assoc. intros Heq.
    apply app_inv_head in Heq. discriminate Heq. }
  rewrite (count_Permutation _ _ _ Hperm) in H1.
  split; [lia|]. split; [lia|]. split; [lia|].
  pose proof (fold_process_file_cases env (load_csv_rows reader)
                (merge_sort String.le (scandir fs1 (input_dir env)).*1)
                (with_fs w fs1, no_stats) (λ st, extends_log w st.1)) as Hlog.
  rewrite Hfold in Hlog. destruct Hlog as (l & Hl & _).
  - by apply extends_log_refl.
  - intros st0 st1 fname H0 Hp.
    pose proof (process_file_cases env (load_csv_rows reader) st0 fname) as Hc.
    rewrite Hp in Hc. destruct Hc as (Hstep & _). by eapply extends_log_trans.
  - exists l. cbn [say log]. by rewrite Hl, app_assoc.
Qed.

(** ** Runs that have nothing to place *)

Lemma output_dir_is_dir (cwd : path) (fs fs' : FS) (out : path) :
  makedirs_str cwd OUTPUT_DIR fs = Ok (fs', out) →
  fs' !! (cwd ++ [OUTPUT_DIR]) = Some Dir.
Proof.
  unfold makedirs_str.
  change (starts_with "/" OUTPUT_DIR) with false.
  change (split_sep OUTPUT_DIR) with [OUTPUT_DIR]. simpl.
  change (bool_decide (OUTPUT_DIR = "") || bool_decide (OUTPUT_DIR = ".")) with false.
  change (bool_decide (OUTPUT_DIR = "..")) with false. simpl.
  destruct (fs !! (cwd ++ [OUTPUT_DIR])) as [[data|]|] eqn:Hout; [done| |];
    intros [= <- <-].
  - exact Hout.
  - apply lookup_insert_eq.
Qed.

Lemma find_best_no_rows (fuzzy_ratio : string → string → Q) (filename : string) :
  find_best_row_for_filename fuzzy_ratio filename [] MIN_TOKEN_MATCHES FUZZY_THRESHOLD
  = (None, None).
Proof. done. Qed.

Lemma process_file_no_rows (env : Env) (st : World * Stats) (fname : string) :
  ∃ st', process_file env [] st fname = Ok st'
         ∧ fs st'.1 = fs st.1
         ∧ (matched st'.2, converted st'.2, convert_failed st'.2,
            skipped_existing_file st'.2)
           = (matched st.2, converted st.2, convert_failed st.2,
              skipped_existing_file st.2)
         ∧ unmatched st'.2
           = unmatched st.2 + (if regular_in env (fs st.1) fname then 1 else 0).
Proof.
  unfold process_file, regular_in, visible. rewrite find_best_no_rows.
  destruct (starts_with "." fname); cbn [negb andb fst snd].
  { eexists. split; [done|]. split; [done|]. split; [done|]. lia. }
  destruct (isfile (fs st.1) (input_dir env ++ [fname])); cbn [negb].
  - eexists. split; [done|]. split; [done|]. split; [done|]. simpl. lia.
  - eexists. split; [done|]. split; [done|]. split; [done|]. simpl. lia.
Qed.

Lemma fold_process_file_no_rows (env : Env) (names : list string) (st : World * Stats) :
  ∃ st', fold_result (process_file env []) st names = Ok st'
         ∧ fs st'.1 = fs st.1
         ∧ (matched st'.2, converted st'.2, convert_failed st'.2,
            skipped_existing_file st'.2)
           = (matched st.2, converted st.2, convert_failed st.2,
              skipped_existing_file st.2)
         ∧ unmatched st'.2 = unmatched st.2 + count (regular_in env (fs st.1)) names.
Proof.
  revert st. induction names as [|name names IH]; intros st; cbn [fold_result].
  - exists st. split; [done|]. split; [done|]. split; [done|]. unfold count. simpl. lia.
  - destruct (process_file_no_rows env st name) as (st1 & -> & Hfs & Hc & Hu).
    cbn [bind]. destruct (IH st1) as (st' & -> & Hfs' & Hc' & Hu').
    exists st'. split; [done|]. split; [congruence|]. split; [congruence|].
    rewrite count_cons, Hu', Hu, Hfs. lia.
Qed.

(** X20. With an empty roster nothing is placed: a run that completes leaves
    the file system as it was but for the output directory, which it
    makes; no file is matched, skipped or converted, and [unmatched] is
    the number of regular files of the input directory whose names do not
    start with a dot. *)
Theorem empty_roster_places_nothing (env : Env) (w w' : World) (stats : Stats) :
  organize_and_convert env [] w = Ok (w', stats) →
  (∀ p, p ≠ cwd env ++ [OUTPUT_DIR] → fs w' !! p = fs w !! p)
  ∧ fs w' !! (cwd env ++ [OUTPUT_DIR]) = Some Dir
  ∧ (matched stats, converted stats, convert_failed stats, skipped_existing_file stats)
    = (0, 0, 0, 0)
  ∧ unmatched stats = count (regular_in env (fs w)) (names_in (fs w) (input_dir env)).
Proof.
  intros Hrun. unfold organize_and_convert in Hrun.
  destruct (makedirs_str (cwd env) OUTPUT_DIR (fs w)) as [[fs1 out]| |] eqn:Hout;
    simpl in Hrun; [|done|done].
  pose proof (output_dir_is_dir _ _ _ _ Hout) as Hdir.
  apply output_dir_made in Hout as [-> Hout].
  unfold sorted_listdir in Hrun. destruct (isdir fs1 (input_dir env)); [|done].
  destruct (fold_process_file_no_rows env
              (merge_sort String.le (scandir fs1 (input_dir env)).*1)
              (with_fs w fs1, no_stats)) as (st' & Hfold & Hfs & Hc & Hu).
  change (load_csv_rows []) with (@nil Row) in Hrun.
  rewrite Hfold in Hrun. simpl in Hrun. inversion Hrun; subst. clear Hrun.
  cbn [fst snd with_fs fs no_stats matched converted convert_failed
       skipped_existing_file unmatched say] in *.
  rewrite Hfs. split; [exact Hout|]. split; [exact Hdir|]. split; [exact Hc|].
  rewrite Hu. cbn [Nat.add].
  assert (Hinput : ∀ name, fs1 !! (input_dir env ++ [name]) = fs w !! (input_dir env ++ [name])).
  { intros name. apply Hout. unfold input_dir. rewrite <- app_assoc. intros Heq.
    apply app_inv_head in Heq. discriminate Heq. }
  rewrite (count_Permutation _ _ (names_in (fs w) (input_dir env))).
  - apply count_ext. intros name _. unfold regular_in, isfile. by rewrite Hinput.
  - rewrite merge_sort_Permutation.
    change ((scandir fs1 (input_dir env)).*1) with (names_in fs1 (input_dir env)).
    by apply names_in_Permutation.
Qed.

(** * More on the folders *)



(** X10. For an identifier without path separator the target folder is the
    folder [<index>_<surname>_<first name>] directly in the output
    directory: that is the directory that the creation reaches, it exists
    afterwards, and no entry is lost on the way. *)
Theorem target_folder_is_directly_in_output_dir
    (cwd : path) (row : Row) (fs fs' : FS) (target : path) :
  has_char "/" (row_index row) = false →
  makedirs_str cwd (path_join OUTPUT_DIR (folder_name_of row)) fs = Ok (fs', target) →
  target = cwd ++ [OUTPUT_DIR; folder_name_of row]
  ∧ has_char "/" (folder_name_of row) = false
  ∧ fs' !! target = Some Dir
  ∧ (∀ p n, fs !! p = Some n → fs' !! p = Some n)
  ∧ (∀ q, ¬ q `prefix_of` target → ¬ target `prefix_of` q → fs' !! q = fs !! q).
Proof.
  intros Hplain Hmk.
  destruct (target_folder_plain cwd row fs fs' target Hplain Hmk) as [Htarget Htouch].
  destruct (target_folder_made cwd row fs fs' target Hmk) as [Hdir Hkeep].
  split; [exact Htarget|]. split; [by apply folder_name_no_sep|].
  split; [exact Hdir|]. split; [exact Hkeep|].
  intros q Hq1 Hq2. apply Htouch. by intros [?|?].
Qed.

(** * More on the archives *)

(** X13. On a target directory that exists the archive routine returns,
    whatever the archive holds and whether or not the extraction fails,
    and it changes nothing outside the target directory: every path that
    is neither above nor below it is as it was. *)
Theorem archive_routine_stays_in_target
    (env : Env) (archive_path extract_to : path) (w : World) :
  fs w !! extract_to = Some Dir →
  ∃ w', extract_and_flatten_archive env archive_path extract_to w = Ok w'
        ∧ (∀ q, ¬ q `prefix_of` extract_to → ¬ extract_to `prefix_of` q →
                fs w' !! q = fs w !! q)
        ∧ ∃ events, log w' = log w ++ events.
Proof.
  intros Hdir.
  destruct (extract_and_flatten_archive_total env archive_path extract_to w Hdir)
    as (w' & Hw' & [(l & Hl & _) Htouch]).
  exists w'. split; [exact Hw'|]. split; [|by exists l].
  intros q Hq1 Hq2. apply Htouch. by intros [?|?].
Qed.

(** * The log and the counters *)

Lemma count_app {A} (f : A → bool) (l k : list A) :
  count f (l ++ k) = count f l + count f k.
Proof. unfold count. by rewrite filter_app, length_app. Qed.

Lemma accounted_refl (env : Env) (st : World * Stats) : accounted env st st [].
Proof. split; try done. by rewrite app_nil_r. Qed.

Lemma accounted_trans (env : Env) (a b c : World * Stats) (l k : list event) :
  accounted env a b l → accounted env b c k → accounted env a c (l ++ k).
Proof.
  intros [L1 P1 N1 S1 T1 Z1] [L2 P2 N2 S2 T2 Z2]. split; rewrite ?count_app.
  - by rewrite L2, L1, app_assoc.
  - lia.
  - lia.
  - lia.
  - intros Hlo. specialize (T1 Hlo). specialize (T2 Hlo). lia.
  - intros Hlo. destruct (Z1 Hlo) as [-> E1], (Z2 Hlo) as [-> E2]. split; [done|].
    congruence.
Qed.

Ltac accounted_by_counters :=
  split;
  cbn [fst snd fs log say with_fs bump_converted bump_convert_failed bump_matched
       bump_unmatched bump_skipped bump_files_seen converted convert_failed
       files_seen matched unmatched skipped_existing_file];
  rewrite ?count_cons; cbn [reports_processed reports_no_match reports_skip is_start];
  try done; try (unfold count; simpl; lia); try (intros; congruence).

Lemma convert_file_accounted (env : Env) (root : path) (st : World * Stats) (f : string) :
  ∃ events, accounted env st (convert_file env root st f) events.
Proof.
  unfold convert_file.
  destruct (ends_with ".docx" (lower f)); [|eexists; apply accounted_refl].
  destruct (exists_ (fs st.1) (root ++ [pdf_name f])); [eexists; apply accounted_refl|].
  unfold libreoffice_convert_docx_to_pdf.
  destruct (libreoffice_in_path env) eqn:Hlo; cbn [negb].
  - destruct (soffice env (root ++ [f]) root (fs st.1)) as [|out].
    + exists [Exec (root ++ [f]) root (fs st.1); Print (ConvertFailed (root ++ [f]))].
      accounted_by_counters. by rewrite <- app_assoc.
    + exists [Exec (root ++ [f]) root (fs st.1)].
      match goal with |- context [if ?b then Some _ else None] => destruct b end;
        accounted_by_counters.
  - exists [Print LibreOfficeMissing]. accounted_by_counters.
Qed.

Lemma conversion_pass_accounted (env : Env) (target : path) (st : World * Stats) :
  ∃ events, accounted env st (conversion_pass env target st) events.
Proof.
  unfold conversion_pass. generalize (os_walk (fs st.1) target). intros triples.
  revert st. induction triples as [|[[root dirs] files] triples IH]; intros st.
  - eexists. apply accounted_refl.
  - cbn [foldl fst snd].
    assert (Hfiles : ∃ events, accounted env st (foldl (convert_file env root) st files)
                                 events).
    { clear IH. revert st. induction files as [|f files IHf]; intros st.
      - eexists. apply accounted_refl.
      - cbn [foldl]. destruct (convert_file_accounted env root st f) as (l & Hl).
        destruct (IHf (convert_file env root st f)) as (k & Hk).
        eexists. by eapply accounted_trans. }
    destruct Hfiles as (l & Hl).
    destruct (IH (foldl (convert_file env root) st files)) as (k & Hk).
    eexists. by eapply accounted_trans.
Qed.

(** The archive routine prints nothing that is counted. *)
Lemma archive_routine_accounted (env : Env) (archive_path target : path) (w w' : World)
    (s : Stats) :
  extract_and_flatten_archive env archive_path target w = Ok w' →
  ∃ events, accounted env (w, s) (w', s) events.
Proof.
  assert (Hflat : ∀ w0 w1, flatten target w0 = Ok w1 → log w1 = log w0).
  { intros w0 w1 H. by apply flatten_touches_only in H as [? _]. }
  assert (Hsay : ∀ (m : message) w0 w1,
            reports_processed (Print m) = false → reports_no_match (Print m) = false →
            reports_skip (Print m) = false →
            log w1 = log (say m w0) → log w0 = log w →
            ∃ events, accounted env (w, s) (w1, s) events).
  { intros m w0 w1 H1 H2 H3 Hl H0. exists [Print m]. split; cbn [fst snd];
      rewrite ?count_cons, ?H1, ?H2, ?H3; try done.
    by rewrite Hl, <- H0. }
  assert (Hsame : ∀ w1, log w1 = log w → ∃ events, accounted env (w, s) (w1, s) events).
  { intros w1 Hl. exists []. split; cbn [fst snd]; try done. by rewrite Hl, app_nil_r. }
  unfold extract_and_flatten_archive.
  destruct (makedirs target (fs w)) as [fs0| |]; cbn [bind]; [|done..].
  cbn [with_fs fs].
  destruct (ends_with ".zip" (lower (basename archive_path))).
  - destruct (read_file fs0 archive_path) as [data|].
    + destruct (zip_read env data) as [members corrupt].
      destruct (extractall target members fs0) as [fs1 written].
      destruct (written && negb corrupt); intros H; apply Hflat in H.
      * by apply Hsame.
      * by eapply (Hsay (ZipError archive_path)).
    + intros H. apply Hflat in H. by eapply (Hsay (ZipError archive_path)).
  - destruct (ends_with ".rar" (lower (basename archive_path))).
    + destruct (RARFILE_AVAILABLE env); cbn [negb].
      * destruct (read_file fs0 archive_path) as [data|].
        -- destruct (rar_read env data) as [|members corrupt].
           ++ intros [= <-]. by eapply (Hsay (RarNoUnrar archive_path)).
           ++ destruct (extractall target members fs0) as [fs1 written].
              destruct (written && negb corrupt).
              ** intros H. apply Hflat in H. by apply Hsame.
              ** intros [= <-]. by eapply (Hsay (RarError archive_path)).
        -- intros [= <-]. by eapply (Hsay (RarError archive_path)).
      * intros [= <-]. by eapply (Hsay (RarUnavailable archive_path)).
    + intros H. apply Hflat in H. by apply Hsame.
Qed.

Lemma accounted_same (env : Env) (st st' : World * Stats) :
  log st'.1 = log st.1 →
  (matched st'.2, unmatched st'.2, skipped_existing_file st'.2, converted st'.2,
   convert_failed st'.2)
  = (matched st.2, unmatched st.2, skipped_existing_file st.2, converted st.2,
     convert_failed st.2) →
  accounted env st st' [].
Proof.
  intros Hl [= H1 H2 H3 H4 H5]. split; try done.
  - by rewrite Hl, app_nil_r.
  - intros _. unfold count. simpl. lia.
Qed.

Lemma place_accounted (env : Env) (fname : string) (input_path target : path)
    (st st' : World * Stats) :
  place env fname input_path target st = Ok st' →
  ∃ events, accounted env st st' events.
Proof.
  unfold place. destruct (exists_ (fs st.1) (target ++ [fname])).
  - intros [= <-]. exists [Print (AlreadyPresent fname)]. accounted_by_counters.
  - destruct (is_archive_name fname).
    + destruct (extract_and_flatten_archive env input_path target st.1) as [w'| |] eqn:Hex;
        cbn [bind]; [|done..].
      intros [= <-].
      destruct (archive_routine_accounted env input_path target st.1 w' st.2 Hex)
        as (events & Hacc).
      exists events. by destruct st.
    + destruct (safe_copy input_path (target ++ [fname]) (fs st.1)) as [r| |];
        cbn [bind]; [|done..].
      intros [= <-]. exists []. by apply accounted_same.
Qed.

Lemma process_file_accounted (env : Env) (rows : list Row) (st st' : World * Stats)
    (fname : string) :
  process_file env rows st fname = Ok st' → ∃ events, accounted env st st' events.
Proof.
  unfold process_file.
  destruct (starts_with "." fname); [intros [= <-]; eexists; apply accounted_refl|].
  cbn [fst snd].
  destruct (negb (isfile (fs st.1) (input_dir env ++ [fname]))).
  { intros [= <-]. exists []. by apply accounted_same. }
  assert (Hunmatched : accounted env st
            (say (NoGoodMatch fname) st.1, bump_unmatched (bump_files_seen st.2))
            [Print (NoGoodMatch fname)]) by accounted_by_counters.
  destruct (find_best_row_for_filename (fuzzy_ratio env) fname rows
              MIN_TOKEN_MATCHES FUZZY_THRESHOLD) as [[row|] how];
    [|intros [= <-]; by eexists].
  case_bool_decide; [intros [= <-]; by eexists|].
  unfold process_matched. cbn [fst snd].
  destruct (makedirs_str (cwd env) (path_join OUTPUT_DIR (folder_name_of row)) (fs st.1))
    as [[fs1 target]| |]; cbn [bind fst snd]; [|done..].
  destruct (place env fname (input_dir env ++ [fname]) target
              (with_fs st.1 fs1, bump_files_seen st.2)) as [st1| |] eqn:Hplace;
    cbn [bind]; [|done..].
  intros [= <-].
  assert (H0 : accounted env st (with_fs st.1 fs1, bump_files_seen st.2) [])
    by (by apply accounted_same).
  destruct (place_accounted _ _ _ _ _ _ Hplace) as (l1 & H1).
  destruct (conversion_pass_accounted env target st1) as (l2 & H2).
  assert (H3 : accounted env (conversion_pass env target st1)
                 (say (Processed fname (folder_name_of row) how)
                      (conversion_pass env target st1).1,
                  bump_matched (conversion_pass env target st1).2)
                 [Print (Processed fname (folder_name_of row) how)])
    by accounted_by_counters.
  eexists. eapply accounted_trans; [|exact H3].
  eapply accounted_trans; [|exact H2]. eapply accounted_trans; [exact H0 | exact H1].
Qed.

Lemma fold_process_file_accounted (env : Env) (rows : list Row) (names : list string)
    (st st' : World * Stats) :
  fold_result (process_file env rows) st names = Ok st' →
  ∃ events, accounted env st st' events.
Proof.
  revert st. induction names as [|name names IH]; intros st; cbn [fold_result].
  - intros [= <-]. eexists. apply accounted_refl.
  - destruct (process_file env rows st name) as [st1| |] eqn:Hp; cbn [bind]; [|done..].
    intros Hfold. destruct (process_file_accounted _ _ _ _ _ Hp) as (l & Hl).
    destruct (IH st1 Hfold) as (k & Hk). eexists. by eapply accounted_trans.
Qed.

(** X19. The counters that a run returns are those of what it printed and did:
    [matched] lines report a processed file, [unmatched] lines a file
    without match, [skipped_existing_file] lines a skipped copy; with
    LibreOffice installed the converter was started [converted] plus
    [convert_failed] times, and without it never. *)
Theorem counters_agree_with_the_log
    (env : Env) (reader : list Row) (w w' : World) (stats : Stats) :
  organize_and_convert env reader w = Ok (w', stats) →
  ∃ events,
    log w' = log w ++ events ++ [Print (Summary stats)]
    ∧ count reports_processed events = matched stats
    ∧ count reports_no_match events = unmatched stats
    ∧ count reports_skip events = skipped_existing_file stats
    ∧ (libreoffice_in_path env = true →
       count is_start events = converted stats + convert_failed stats)
    ∧ (libreoffice_in_path env = false →
       count is_start events = 0 ∧ converted stats = 0).
Proof.
  intros Hrun. unfold organize_and_convert in Hrun.
  destruct (makedirs_str (cwd env) OUTPUT_DIR (fs w)) as [[fs1 out]| |] eqn:Hout;
    simpl in Hrun; [|done|done].
  destruct (sorted_listdir fs1 (input_dir env)) as [names|]; [|done].
  destruct (fold_result (process_file env (load_csv_rows reader)) (with_fs w fs1, no_stats)
              names) as [st'| |] eqn:Hfold; simpl in Hrun; [|done|done].
  inversion Hrun; subst. clear Hrun.
  destruct (fold_process_file_accounted _ _ _ _ _ Hfold) as (events & [L P N S T Z]).
  cbn [fst snd with_fs log no_stats matched unmatched skipped_existing_file converted
       convert_failed] in *.
  exists events. split; [cbn [say log]; by rewrite L, app_assoc|].
  split; [lia|]. split; [lia|]. split; [lia|]. split.
  - intros Hlo. specialize (T Hlo). lia.
  - intros Hlo. exact (Z Hlo).
Qed.

(** * The loop body, step by step *)











(** * The scenarios *)


Lemma ratio_of_empty (v : string) : v ≠ "" → (Difflib.ratio "" v == 0)%Q.
Proof. destruct v as [|c v]; [done|]. intros _. reflexivity. Qed.

(** C1, on the archive of a student.  The first run extracts the member of
    the archive into the folder of the student.  The second run does not
    find the archive itself in that folder, extracts it again and stores
    the member a second time under a suffixed name: the tree is not the
    one that the first run left, and nothing is counted as skipped. *)
Theorem second_run_duplicates_archive_members :
  let first := organize_and_convert env_home [smith] archive_submitted in
  let second := again env_home [smith] first in
  let folder := ["home"; "organized_submissions"; "7_Smith_John"] in
  observe snd first = Some (mkStats 1 1 0 0 0 0)
  ∧ observe (entry (folder ++ ["notes.txt"])) first = Some (Some (File "PK"))
  ∧ observe (entry (folder ++ ["notes_1.txt"])) first = Some None
  ∧ observe snd second = Some (mkStats 1 1 0 0 0 0)
  ∧ observe (entry (folder ++ ["notes.txt"])) second = Some (Some (File "PK"))
  ∧ observe (entry (folder ++ ["notes_1.txt"])) second = Some (Some (File "PK")).
Proof. repeat split; by vm_compute. Qed.





(** ** The matcher on a roster of three *)

Lemma token_phase_returns_earliest_best_witness :
  let fname_tokens : gset string :=
    list_to_set (split (normalize_text (Some "Ada_Smith_essay.docx"))) in
  ∃ l1 row l2,
    roster3 = l1 ++ row :: l2
    ∧ count_token_matches fname_tokens row = 2
    ∧ Forall (λ r, count_token_matches fname_tokens r < 2) l1
    ∧ ∀ fuzzy_ratio fuzzy_threshold,
        find_best_row_for_filename fuzzy_ratio "Ada_Smith_essay.docx" roster3
          2 fuzzy_threshold
        = (Some row, Some token).
Proof.
  apply (token_phase_returns_earliest_best "Ada_Smith_essay.docx" roster3 2 2).
  - lia.
  - repeat constructor; vm_compute; lia.
  - apply Exists_cons_tl, Exists_cons_hd. by vm_compute.
  - lia.
Defined.

Lemma fuzzy_phase_returns_earliest_best_witness :
  ∃ row q,
    first_best Qlt Qle
      (candidates Difflib.ratio (normalize_text (Some "adasmith.txt")) roster3) row q
    ∧ find_best_row_for_filename Difflib.ratio "adasmith.txt" roster3 2 (6 # 10)
      = (Some row, Some (fuzzy q)).
Proof.
  apply (fuzzy_phase_returns_earliest_best Difflib.ratio "adasmith.txt" roster3
           2 (6 # 10)).
  - lia.
  - reflexivity.
  - repeat constructor; vm_compute; reflexivity.
  - unfold roster3, candidates. cbn [flat_map]. apply Exists_app. right. apply Exists_app. left.
    apply Exists_exists.
    exists (ada_smith, Difflib.ratio (normalize_text (Some "adasmith.txt")) "ada smith").
    split; [|by vm_compute].
    apply list_elem_of_fmap. exists "ada smith". split; [done|].
    apply list_elem_of_filter. split; [done|]. vm_compute. repeat constructor.
Defined.

Lemma blank_record_never_returned_and_empty_name_unmatched_witness :
  (∀ how, find_best_row_for_filename Difflib.ratio "___" roster3 2 (6 # 10)
          ≠ (Some nameless, how))
  ∧ find_best_row_for_filename Difflib.ratio "___" roster3 2 (6 # 10) = (None, None).
Proof.
  destruct (blank_record_never_returned_and_empty_name_unmatched
              Difflib.ratio "___" roster3 2 (6 # 10)) as [Hblank Hempty].
  split.
  - intros how. apply Hblank.
    repeat constructor; first [by left; vm_compute | by right; vm_compute].
  - apply Hempty; [lia | reflexivity | exact ratio_of_empty | by vm_compute].
Defined.

(** ** Placement next to a file of the same name *)

Lemma placement_never_overwrites_witness :
  ∃ written,
    safe_copy ["in"; "a.zip"] (["out"] ++ ["notes.txt"]) (fs zip_to_extract)
    = Ok (<[written := File "PK"]> (fs zip_to_extract), written)
    ∧ placed_as (fs zip_to_extract) ["out"] "notes.txt" written
    ∧ ∀ p, is_Some (fs zip_to_extract !! p) →
           <[written := File "PK"]> (fs zip_to_extract) !! p = fs zip_to_extract !! p.
Proof.
  apply (proj1 (placement_never_overwrites (fs zip_to_extract) ["out"] "notes.txt" "PK")).
  - by vm_compute.
  - by vm_compute.
Defined.

(** ** A run on a document, a stranger, a folder and a hidden file *)

Lemma converter_starts_only_without_pdf_witness :
  ∃ w' stats,
    organize_and_convert env_home [smith] document_submitted = Ok (w', stats)
    ∧ (∃ events,
         log w' = log document_submitted ++ events
         ∧ ∀ docx_path out_dir before,
             Exec docx_path out_dir before ∈ events →
             before !! (dirname docx_path ++ [pdf_name (basename docx_path)]) = None)
    ∧ ∀ w'' stats',
        organize_and_convert env_home [smith] w' = Ok (w'', stats') →
        ∃ events,
          log w'' = log w' ++ events
          ∧ ∀ docx_path out_dir before,
              Exec docx_path out_dir before ∈ events →
              before !! (dirname docx_path ++ [pdf_name (basename docx_path)]) = None.
Proof.
  assert (Hstats : observe snd (organize_and_convert env_home [smith] document_submitted)
                   = Some (mkStats 3 1 1 1 0 0)) by (by vm_compute).
  destruct (organize_and_convert env_home [smith] document_submitted)
    as [[w' stats]| |] eqn:Hrun; [|done..].
  exists w', stats. split; [done|].
  exact (converter_starts_only_without_pdf env_home [smith] document_submitted w' stats Hrun).
Defined.

(** The second run converts nothing, the PDF of the first one being there. *)
Example second_run_converts_nothing :
  let first := organize_and_convert env_home [smith] document_submitted in
  observe snd first = Some (mkStats 3 1 1 1 0 0)
  ∧ observe snd (again env_home [smith] first) = Some (mkStats 3 1 1 0 0 1).
Proof. split; by vm_compute. Qed.

(** C9, with an identifier that leads into the input directory: the run
    makes the folder of the student inside the input directory and copies
    the file there. *)
Theorem separator_in_index_writes_into_input :
  let run := organize_and_convert env_home [smith_in_input] text_submitted in
  let folder := ["home"; "submissions"; "x_Smith_John"] in
  input_dir env_home `prefix_of` folder
  ∧ fs text_submitted !! folder = None
  ∧ observe (entry folder) run = Some (Some Dir)
  ∧ observe (entry (folder ++ ["smith_john.txt"])) run = Some (Some (File "hello")).
Proof.
  split; [by exists ["x_Smith_John"] |]. repeat split; by vm_compute.
Qed.

(** C10, with an identifier that leads to the working directory, named
    after the student.  The archive is flattened into the working
    directory, which takes both files out of the input directory before
    the second one is looked at: two regular files were there, one is
    counted as matched and none as unmatched, and none is there at the
    end. *)
Theorem flattening_takes_files_before_they_are_counted :
  let run := organize_and_convert env_proj [smith_is_cwd] project_named_after_student in
  let regular_files (fs : FS) :=
    count (regular_in env_proj fs) (names_in fs (input_dir env_proj)) in
  regular_files (fs project_named_after_student) = 2
  ∧ observe snd run = Some (mkStats 2 1 0 0 0 0)
  ∧ observe (λ st, regular_files (fs st.1)) run = Some 0.
Proof. repeat split; by vm_compute. Qed.

(** * The properties on the scenarios *)

Lemma sanitize_folder_part_safe_witness :
  sanitize_folder_part (Some "   ") = "unknown"
  ∧ sanitize_folder_part (Some (String (ascii_of_nat 160) " ")) = "unknown"
  ∧ String.length (sanitize_folder_part (Some " O'Brien ")) = 7.
Proof.
  destruct (sanitize_folder_part_safe (Some "   ")) as (_ & _ & Hblank & _).
  destruct (sanitize_folder_part_safe (Some (String (ascii_of_nat 160) " ")))
    as (_ & _ & Hnbsp & _).
  destruct (sanitize_folder_part_safe (Some " O'Brien ")) as (_ & _ & _ & Hlen).
  split; [by apply Hblank | split; [by apply Hnbsp | by rewrite Hlen]].
Defined.

Lemma token_count_is_overlap_witness :
  count_token_matches (list_to_set ["smith"; "essay"]) smith_ada
  = count_token_matches (list_to_set ["smith"; "essay"]) ada_smith.
Proof.
  apply (token_count_is_overlap (list_to_set ["smith"; "essay"]) ada_smith).
  apply set_eq. intros t. vm_compute record_tokens.
  rewrite !elem_of_list_to_set, !elem_of_cons, !elem_of_nil. tauto.
Defined.

Lemma returned_record_reaches_a_threshold_witness :
  ∃ q v, (6 # 10 <= q)%Q ∧ v ∈ variants ada_smith ∧ nonempty v = true
         ∧ q = Difflib.ratio (normalize_text (Some "adasmith.txt")) v.
Proof.
  destruct (returned_record_reaches_a_threshold Difflib.ratio "adasmith.txt" roster3
              2 (6 # 10) ada_smith (Some (fuzzy (16 # 21))))
    as (_ & [(Htoken & _) | (q & v & _ & _ & Hq & Hv & Hne & Heq & _)]).
  - vm_compute. reflexivity.
  - discriminate Htoken.
  - exists q, v. split; [exact Hq|]. split; [exact Hv|]. split; [exact Hne | exact Heq].
Defined.

Lemma matching_ignores_case_witness :
  find_best_row_for_filename Difflib.ratio "ADA-SMITH.TXT" roster3 2 (6 # 10)
  = find_best_row_for_filename Difflib.ratio "ada_smith.txt" roster3 2 (6 # 10).
Proof.
  apply (matching_ignores_case Difflib.ratio "ada_smith.txt" roster3 2 (6 # 10)).
  by vm_compute.
Defined.

Lemma load_csv_rows_numbers_rows_witness :
  load_csv_rows [smith; nameless; {[ "surname" := "Young" ]}] !! 2
  = Some (<["_csv_index" := "3"]> {[ "surname" := "Young" ]}).
Proof.
  destruct (load_csv_rows_numbers_rows [smith; nameless; {[ "surname" := "Young" ]}])
    as (_ & Hrows & _).
  exact (Hrows 2 {[ "surname" := "Young" ]} eq_refl).
Defined.

Lemma conversion_pass_only_adds_counted_pdfs_witness :
  let target := ["home"; "organized_submissions"; "7_Smith_John"] in
  fs (conversion_pass env_bare target (folder_with_document, no_stats)).1
  = fs folder_with_document
  ∧ converted (conversion_pass env_bare target (folder_with_document, no_stats)).2 = 0.
Proof.
  apply (conversion_pass_only_adds_counted_pdfs env_bare
           ["home"; "organized_submissions"; "7_Smith_John"]
           (folder_with_document, no_stats)).
  reflexivity.
Defined.

Lemma libreoffice_success_is_pdf_present_witness :
  let w := folder_with_document in
  let folder := ["home"; "organized_submissions"; "7_Smith_John"] in
  fs (libreoffice_convert_docx_to_pdf env_bare (folder ++ ["essay.docx"]) folder w).1
  = fs w
  ∧ log (libreoffice_convert_docx_to_pdf env_bare (folder ++ ["essay.docx"]) folder w).1
    = log w ++ [Print LibreOfficeMissing].
Proof.
  apply (libreoffice_success_is_pdf_present env_bare
           (["home"; "organized_submissions"; "7_Smith_John"] ++ ["essay.docx"])
           ["home"; "organized_submissions"; "7_Smith_John"] folder_with_document).
  reflexivity.
Defined.


Lemma plain_file_placed_once_witness :
  let target := ["home"; "organized_submissions"; "7_Smith_John"] in
  let src := ["home"; "organized_submissions"; "7_Smith_John"; "essay.docx"] in
  ∃ st1, place env_home "copy.docx" src target (folder_with_document, no_stats) = Ok st1
         ∧ place env_home "copy.docx" src target st1
           = Ok (say (AlreadyPresent "copy.docx") st1.1, bump_skipped st1.2).
Proof.
  intros target src.
  destruct (place_cases env_home "copy.docx" src target (folder_with_document, no_stats))
    as (st1 & Hplace & _).
  - vm_compute. reflexivity.
  - vm_compute. reflexivity.
  - exists st1. split; [exact Hplace|].
    apply (plain_file_placed_once env_home "copy.docx" src target
             (folder_with_document, no_stats) st1); [reflexivity | exact Hplace].
Defined.


Lemma target_folder_is_directly_in_output_dir_witness :
  ∃ fs' target,
    makedirs_str ["home"] (path_join OUTPUT_DIR (folder_name_of smith)) (fs text_submitted)
    = Ok (fs', target)
    ∧ target = ["home"] ++ [OUTPUT_DIR; folder_name_of smith]
    ∧ fs' !! target = Some Dir.
Proof.
  destruct (makedirs_str ["home"] (path_join OUTPUT_DIR (folder_name_of smith))
              (fs text_submitted)) as [[fs' target]| |] eqn:Hmk.
  - exists fs', target. split; [reflexivity|].
    destruct (target_folder_is_directly_in_output_dir ["home"] smith (fs text_submitted)
                fs' target) as (Ht & _ & Hdir & _).
    + vm_compute. reflexivity.
    + exact Hmk.
    + by split.
  - exfalso. apply (f_equal (observe snd)) in Hmk. vm_compute in Hmk. discriminate Hmk.
  - exfalso. by apply makedirs_walk_never_out_of_fuel in Hmk.
Defined.

Lemma archive_routine_stays_in_target_witness :
  ∃ w', extract_and_flatten_archive env_home ["in"; "a.zip"] ["out"] zip_to_extract = Ok w'
        ∧ fs w' !! ["in"; "a.zip"] = Some (File "PK").
Proof.
  destruct (archive_routine_stays_in_target env_home ["in"; "a.zip"] ["out"] zip_to_extract)
    as (w' & Hw' & Hframe & _).
  - vm_compute. reflexivity.
  - exists w'. split; [exact Hw'|]. rewrite Hframe.
    + vm_compute. reflexivity.
    + intros [k Hk]. discriminate Hk.
    + intros [k Hk]. discriminate Hk.
Defined.

(** ** The run on the document, once more *)

Lemma run_writes_below_output_dir_only_witness :
  ∃ w' stats,
    organize_and_convert env_home [smith] document_submitted = Ok (w', stats)
    ∧ fs w' !! ["home"; "submissions"; "smith_john.docx"] = Some (File "essay")
    ∧ fs w' !! ["home"; "grades.csv"] = None.
Proof.
  assert (Hstats : observe snd (organize_and_convert env_home [smith] document_submitted)
                   = Some (mkStats 3 1 1 1 0 0)) by (vm_compute; reflexivity).
  destruct (organize_and_convert env_home [smith] document_submitted)
    as [[w' stats]| |] eqn:Hrun; [|discriminate Hstats..].
  assert (Hplain : plain_roster [smith]) by (repeat constructor; vm_compute; reflexivity).
  pose proof (run_writes_below_output_dir_only env_home [smith] document_submitted
                w' stats Hplain Hrun) as Hframe.
  exists w', stats. split; [reflexivity|]. split.
  - rewrite Hframe; [vm_compute; reflexivity | |]; intros [k Hk]; discriminate Hk.
  - rewrite Hframe; [vm_compute; reflexivity | |]; intros [k Hk]; discriminate Hk.
Defined.

Lemma summary_counters_are_consistent_witness :
  ∃ w' stats,
    organize_and_convert env_proj [smith_is_cwd] project_named_after_student
    = Ok (w', stats)
    ∧ files_seen stats = 2
    ∧ matched stats + unmatched stats ≤ files_seen stats
    ∧ skipped_existing_file stats ≤ matched stats.
Proof.
  assert (Hstats : observe snd (organize_and_convert env_proj [smith_is_cwd]
                                  project_named_after_student)
                   = Some (mkStats 2 1 0 0 0 0)) by (vm_compute; reflexivity).
  destruct (organize_and_convert env_proj [smith_is_cwd] project_named_after_student)
    as [[w' stats]| |] eqn:Hrun; [|discriminate Hstats..].
  destruct (summary_counters_are_consistent env_proj [smith_is_cwd]
              project_named_after_student w' stats Hrun) as (Hseen & Hsum & Hskip & _).
  exists w', stats. split; [reflexivity|]. split; [|by split].
  rewrite Hseen. vm_compute. reflexivity.
Defined.

Lemma empty_roster_places_nothing_witness :
  ∃ w' stats,
    organize_and_convert env_home [] document_submitted = Ok (w', stats)
    ∧ matched stats = 0 ∧ unmatched stats = 2
    ∧ fs w' !! ["home"; "organized_submissions"] = Some Dir
    ∧ fs w' !! ["home"; "organized_submissions"; "7_Smith_John"] = None.
Proof.
  assert (Hstats : observe snd (organize_and_convert env_home [] document_submitted)
                   = Some (mkStats 3 0 2 0 0 0)) by (vm_compute; reflexivity).
  destruct (organize_and_convert env_home [] document_submitted)
    as [[w' stats]| |] eqn:Hrun; [|discriminate Hstats..].
  destruct (empty_roster_places_nothing env_home document_submitted w' stats Hrun)
    as (Hframe & Hdir & Hzero & Hun).
  exists w', stats. injection Hzero as Hm _ _ _.
  split; [reflexivity|]. split; [exact Hm|]. split; [|split; [exact Hdir|]].
  - rewrite Hun. vm_compute. reflexivity.
  - rewrite Hframe; [vm_compute; reflexivity | discriminate].
Defined.

Lemma counters_of_a_run_witness :
  ∃ w' stats,
    organize_and_convert env_home [smith] document_submitted = Ok (w', stats)
    ∧ files_seen stats = count visible (names_in (fs w') (input_dir env_home))
    ∧ matched stats + unmatched stats
      = count (regular_in env_home (fs w')) (names_in (fs w') (input_dir env_home))
    ∧ matched stats + unmatched stats < files_seen stats.
Proof.
  assert (Hstats : observe snd (organize_and_convert env_home [smith] document_submitted)
                   = Some (mkStats 3 1 1 1 0 0)) by (vm_compute; reflexivity).
  destruct (organize_and_convert env_home [smith] document_submitted)
    as [[w' stats]| |] eqn:Hrun; [|discriminate Hstats..].
  injection Hstats as ->.
  assert (Hplain : plain_roster [smith]) by (repeat constructor; vm_compute; reflexivity).
  destruct (counters_of_a_run env_home [smith] document_submitted w' _ Hplain Hrun)
    as (Hseen & Hsum & _).
  exists w', (mkStats 3 1 1 1 0 0). split; [reflexivity|].
  split; [exact Hseen|]. split; [exact Hsum|]. cbn. lia.
Defined.

Lemma counters_agree_with_the_log_witness :
  ∃ w' stats events,
    organize_and_convert env_home [smith] document_submitted = Ok (w', stats)
    ∧ log w' = log document_submitted ++ events ++ [Print (Summary stats)]
    ∧ count reports_processed events = 1
    ∧ count reports_no_match events = 1
    ∧ count is_start events = 1.
Proof.
  assert (Hstats : observe snd (organize_and_convert env_home [smith] document_submitted)
                   = Some (mkStats 3 1 1 1 0 0)) by (vm_compute; reflexivity).
  destruct (organize_and_convert env_home [smith] document_submitted)
    as [[w' stats]| |] eqn:Hrun; [|discriminate Hstats..].
  injection Hstats as ->.
  destruct (counters_agree_with_the_log env_home [smith] document_submitted w' _ Hrun)
    as (events & Hlog & Hp & Hn & _ & Hs & _).
  exists w', (mkStats 3 1 1 1 0 0), events. split; [reflexivity|].
  split; [exact Hlog|]. split; [exact Hp|]. split; [exact Hn|]. by apply Hs.
Defined.
